(** * Smart Data Sanitizer: detectors, replacer and value walker

    A shallow embedding of the Python package [data_sanitizer]
    (detectors/*, replacer.py, sanitizer.py, models.py, exceptions.py)
    together with the properties of its detection-and-replacement pipeline.

    Conventions of the embedding.
    - A Python [str] is a [list ascii]; the character classes of the [re]
      module and of the [str] methods are the ones Python has on the ASCII
      range (code points 0..127).
    - Python integers are [Z]; indices produced by the scanner are naturals
      injected into [Z].
    - [re] patterns are values of the type [regex] below and are run by a
      backtracking matcher that explores alternatives in the order of sre:
      greedy repetition first longest, alternation left to right.
    - The [Faker] library is an interface with an explicit generator state;
      the Replacer threads that state together with its three caches.
    - The file system and the JSON codec used by [Sanitizer.sanitize_file]
      are an explicit [world] value. *)

From Stdlib Require Import Ascii String List ZArith Bool Lia PrimFloat.
From Stdlib Require Import DecimalString Sorted Permutation.
From stdpp Require Import gmap strings.
Import ListNotations.

Local Open Scope Z_scope.

Abbreviation str := (list ascii) (only parsing).

(** String literals of the source are written [lit "..."]. *)
Definition lit (s : string) : str := list_ascii_of_string s.

(** ** Character classes *)

Definition code (c : ascii) : nat := nat_of_ascii c.

Definition in_range (lo hi : nat) (c : ascii) : bool :=
  (Nat.leb lo (code c)) && (Nat.leb (code c) hi).

(** [\d] *)
Definition is_digit (c : ascii) : bool := in_range 48 57 c.
Definition is_upper (c : ascii) : bool := in_range 65 90 c.
Definition is_lower (c : ascii) : bool := in_range 97 122 c.
Definition is_alpha (c : ascii) : bool := is_upper c || is_lower c.
Definition is_alnum (c : ascii) : bool := is_alpha c || is_digit c.

(** [\w] *)
Definition is_word (c : ascii) : bool := is_alnum c || Nat.eqb (code c) 95.

(** [\s], which is also the separator set of [str.split()]: TAB, LF, VT,
    FF, CR, the four separators FS GS RS US, and the space. *)
Definition is_space (c : ascii) : bool :=
  in_range 9 13 c || in_range 28 32 c.

Definition is_char (x : ascii) (c : ascii) : bool := Nat.eqb (code c) (code x).

Definition one_of (xs : str) (c : ascii) : bool :=
  existsb (fun x => is_char x c) xs.

(** ** [str] methods *)

Definition char_upper (c : ascii) : ascii :=
  if is_lower c then ascii_of_nat (code c - 32) else c.

Definition char_lower (c : ascii) : ascii :=
  if is_upper c then ascii_of_nat (code c + 32) else c.

Definition upper (s : str) : str := map char_upper s.
Definition lower (s : str) : str := map char_lower s.

(** [str.isupper()]: no lowercase character and at least one cased one. *)
Definition isupper (s : str) : bool :=
  forallb (fun c => negb (is_lower c)) s && existsb is_upper s.

(** [str.islower()]: no uppercase character and at least one cased one. *)
Definition islower (s : str) : bool :=
  forallb (fun c => negb (is_upper c)) s && existsb is_lower s.

(** [str.isdigit()]: non-empty and digits only. *)
Definition isdigit (s : str) : bool :=
  match s with
  | [] => false
  | _ => forallb is_digit s
  end.

(** [x in s] for a one-character [x]. *)
Definition has_char (x : ascii) (s : str) : bool := existsb (is_char x) s.

(** [str.split()] with no argument: maximal runs of non-space characters. *)
Fixpoint split_ws_aux (cur : str) (s : str) : list str :=
  match s with
  | [] => match cur with [] => [] | _ => [rev cur] end
  | c :: s' =>
      if is_space c
      then match cur with
           | [] => split_ws_aux [] s'
           | _ => rev cur :: split_ws_aux [] s'
           end
      else split_ws_aux (c :: cur) s'
  end.

Definition str_split (s : str) : list str := split_ws_aux [] s.

(** [s[a:b]] for [0 <= a]. *)
Definition slice (s : str) (a b : nat) : str := firstn (b - a) (skipn a s).

(** [s[:a]] and [s[b:]] for non-negative integers. *)
Definition slice_to (s : str) (a : Z) : str := firstn (Z.to_nat a) s.
Definition slice_from (s : str) (b : Z) : str := skipn (Z.to_nat b) s.

(** [s.startswith(p)] *)
Fixpoint prefixb (p s : str) : bool :=
  match p, s with
  | [], _ => true
  | x :: p', y :: s' => Nat.eqb (code x) (code y) && prefixb p' s'
  | _ :: _, [] => false
  end.

(** [s.find(sub)] as an option. *)
Fixpoint find_sub (sub s : str) : option nat :=
  if prefixb sub s then Some 0%nat
  else match s with
       | [] => None
       | _ :: s' => option_map S (find_sub sub s')
       end.

(** [sub in s] *)
Definition contains (sub s : str) : bool :=
  match find_sub sub s with Some _ => true | None => false end.

(** [s.replace(old, new, 1)]: only the first occurrence is replaced. *)
Definition replace_first (s old new : str) : str :=
  match find_sub old s with
  | Some i => firstn i s ++ new ++ skipn (i + length old) s
  | None => s
  end.

(** [re.sub(r"\D", "", s)] and [re.sub(r"[\s\-]", "", s)] *)
Definition digits_of (s : str) : str := List.filter (fun c => is_digit c) s.
Definition strip_separators (s : str) : str :=
  List.filter (fun c => negb (is_space c || is_char "-" c)) s.

(** [int(d)] for a digit character. *)
Definition digit_value (c : ascii) : Z := Z.of_nat (code c - 48).

(** ** List sorting: [list.sort(key=...)] is stable *)

Section Sorting.
Context {A : Type}.
(** [before x y]: [x], which stood earlier in the list, may stay in front
    of [y].  The relation is "key x <= key y" for an ascending sort and
    "key y <= key x" for [reverse=True]; both keep equal keys in their
    original order. *)
Variable before : A -> A -> bool.

Fixpoint sort_insert (x : A) (l : list A) : list A :=
  match l with
  | [] => [x]
  | y :: l' => if before x y then x :: y :: l' else y :: sort_insert x l'
  end.

Fixpoint stable_sort (l : list A) : list A :=
  match l with
  | [] => []
  | x :: l' => sort_insert x (stable_sort l')
  end.
End Sorting.

(** ** Regular expressions and the backtracking matcher *)

Inductive regex : Type :=
| RChar (p : ascii -> bool)                      (* one character of a class *)
| RRep (p : ascii -> bool) (lo : nat) (hi : option nat)
                                                 (* greedy class{lo,hi} *)
| RWordB                                         (* \b *)
| RSeq (r1 r2 : regex)
| RAlt (r1 r2 : regex).

(** Length of the longest run of [p]-characters at the head of [l]. *)
Fixpoint run_length (p : ascii -> bool) (l : str) : nat :=
  match l with
  | c :: l' => if p c then S (run_length p l') else 0%nat
  | [] => 0%nat
  end.

Definition greedy_count (p : ascii -> bool) (hi : option nat) (l : str) : nat :=
  match hi with
  | Some h => Nat.min h (run_length p l)
  | None => run_length p l
  end.

(** Try the continuation after [n], [n-1], ..., [lo] repetitions. *)
Fixpoint backtrack (k : nat -> option nat) (i lo n : nat) : option nat :=
  if Nat.ltb n lo then None
  else match k (i + n)%nat with
       | Some e => Some e
       | None => match n with
                 | O => None
                 | S n' => backtrack k i lo n'
                 end
       end.

Definition word_at (s : str) (i : nat) : bool :=
  match nth_error s i with
  | Some c => is_word c
  | None => false
  end.

(** [\b]: exactly one side of position [i] is a word character. *)
Definition at_boundary (s : str) (i : nat) : bool :=
  xorb (match i with O => false | S j => word_at s j end) (word_at s i).

(** [rmatch r s i k]: match [r] in [s] at index [i], then run [k] on the
    index reached; the first success in backtracking order wins. *)
Fixpoint rmatch (r : regex) (s : str) (i : nat) (k : nat -> option nat)
  : option nat :=
  match r with
  | RChar p =>
      match nth_error s i with
      | Some c => if p c then k (S i) else None
      | None => None
      end
  | RRep p lo hi => backtrack k i lo (greedy_count p hi (skipn i s))
  | RWordB => if at_boundary s i then k i else None
  | RSeq r1 r2 => rmatch r1 s i (fun j => rmatch r2 s j k)
  | RAlt r1 r2 =>
      match rmatch r1 s i k with
      | Some e => Some e
      | None => rmatch r2 s i k
      end
  end.

(** A match object: [m.start()], [m.end()] and [m.group(0)]. *)
Record rmatch_obj := MkMatch {
  m_start : Z;
  m_end : Z;
  m_group : str
}.

(** The scan of [pattern.finditer(text)]: leftmost match from the current
    index, then resume at its end (one further after an empty match). *)
Fixpoint scan (r : regex) (s : str) (fuel : nat) (p : nat) : list rmatch_obj :=
  match fuel with
  | O => []
  | S fuel' =>
      if Nat.ltb (length s) p then []
      else match rmatch r s p Some with
           | Some e =>
               MkMatch (Z.of_nat p) (Z.of_nat e) (slice s p e)
                 :: scan r s fuel' (if Nat.eqb e p then S p else e)
           | None => scan r s fuel' (S p)
           end
  end.

Definition finditer (r : regex) (s : str) : list rmatch_obj :=
  scan r s (S (length s)) 0.

(** Pattern-building shorthands. *)
Definition rseq (rs : list regex) (last : regex) : regex :=
  fold_right RSeq last rs.
Definition exactly (p : ascii -> bool) (n : nat) : regex := RRep p n (Some n).
Definition between (p : ascii -> bool) (lo hi : nat) : regex := RRep p lo (Some hi).
Definition opt (p : ascii -> bool) : regex := RRep p 0 (Some 1%nat).
Definition plus (p : ascii -> bool) : regex := RRep p 1 None.
Definition at_least (p : ascii -> bool) (n : nat) : regex := RRep p n None.

(** ** models.py *)

Inductive PIIType : Type :=
| EMAIL | PHONE | FULL_NAME | FIRST_NAME | LAST_NAME | CREDIT_CARD.

Record DetectionResult := MkDetection {
  pii_type : PIIType;
  original_value : str;
  confidence : float;
  start_pos : Z;
  end_pos : Z
}.

Record SanitizationResult := MkResult {
  success : bool;
  records_processed : Z;
  pii_fields_detected : Z;
  pii_replacements_made : Z;
  error_message : option str
}.

(** ** detectors/email_detector.py *)

(** The three detectors below start with [if not isinstance(text, str):
    return []]; here [text] is a string by its type and that guard has no
    counterpart. *)

Module EmailDetector.

(** [[A-Za-z0-9._%+-]] *)
Definition local_part (c : ascii) : bool := is_alnum c || one_of (lit "._%+-") c.
(** [[A-Za-z0-9.-]] *)
Definition domain_part (c : ascii) : bool := is_alnum c || one_of (lit ".-") c.
(** [[A-Z|a-z]]: the bar is a member of the class. *)
Definition tld_part (c : ascii) : bool := is_alpha c || is_char "|" c.

(** [\b[A-Za-z0-9._%+-]+@[A-Za-z0-9.-]+\.[A-Z|a-z]{2,}\b] *)
Definition EMAIL_PATTERN : regex :=
  rseq [RWordB; plus local_part; RChar (is_char "@"); plus domain_part;
        RChar (is_char "."); at_least tld_part 2]
       RWordB.

Definition detect (text : str) (field_name : str) : list DetectionResult :=
  map (fun m => MkDetection EMAIL (m_group m) 1%float (m_start m) (m_end m))
      (finditer EMAIL_PATTERN text).

End EmailDetector.

(** ** detectors/phone_detector.py *)

Module PhoneDetector.

(** [[-.\s]] *)
Definition sep (c : ascii) : bool := one_of (lit "-.") c || is_space c.

(** [\+\d{1,3}[-.\s]?\(?\d{1,4}\)?[-.\s]?\d{1,4}[-.\s]?\d{1,4}[-.\s]?\d{1,4}] *)
Definition pattern_international : regex :=
  rseq [RChar (is_char "+"); between is_digit 1 3; opt sep;
        opt (is_char "("); between is_digit 1 4; opt (is_char ")"); opt sep;
        between is_digit 1 4; opt sep; between is_digit 1 4; opt sep]
       (between is_digit 1 4).

(** [\(\d{3}\)\s?\d{3}[-.\s]?\d{4}] *)
Definition pattern_parentheses : regex :=
  rseq [RChar (is_char "("); exactly is_digit 3; RChar (is_char ")");
        opt is_space; exactly is_digit 3; opt sep]
       (exactly is_digit 4).

(** [\b\d{3}[-.\s]\d{3}[-.\s]\d{4}\b] *)
Definition pattern_dashes : regex :=
  rseq [RWordB; exactly is_digit 3; RChar sep; exactly is_digit 3; RChar sep;
        exactly is_digit 4]
       RWordB.

(** [\b\d{10,15}\b] *)
Definition pattern_plain : regex :=
  rseq [RWordB; between is_digit 10 15] RWordB.

Definition PHONE_PATTERNS : list regex :=
  [pattern_international; pattern_parentheses; pattern_dashes; pattern_plain].

(** [sum(c.isdigit() for c in phone)] *)
Definition digit_count (phone : str) : Z :=
  Z.of_nat (length (List.filter (fun c => is_digit c) phone)).

(** The tuples [(start_pos, end_pos, phone)] that survive the digit count,
    pattern by pattern, each pattern left to right. *)
Definition all_matches (text : str) : list (Z * Z * str) :=
  flat_map
    (fun pattern =>
       flat_map
         (fun m =>
            let digits := digit_count (m_group m) in
            if (digits <? 10) || (digits >? 15) then []
            else [(m_start m, m_end m, m_group m)])
         (finditer pattern text))
    PHONE_PATTERNS.

(** Order of the key [(x[0], -(x[1] - x[0]))]. *)
Definition sort_key (x : Z * Z * str) : Z * Z :=
  let '(s, e, _) := x in (s, - (e - s)).

Definition key_le (a b : Z * Z) : bool :=
  (fst a <? fst b) || ((fst a =? fst b) && (snd a <=? snd b)).

Definition by_key (x y : Z * Z * str) : bool := key_le (sort_key x) (sort_key y).

(** [not (end_pos <= used_start or start_pos >= used_end)] *)
Definition overlap (start_pos end_pos : Z) (used : Z * Z) : bool :=
  negb ((end_pos <=? fst used) || (start_pos >=? snd used)).

(** The selection loop with its two accumulators. *)
Fixpoint select (ms : list (Z * Z * str)) (used_ranges : list (Z * Z))
    (results : list DetectionResult) : list DetectionResult :=
  match ms with
  | [] => results
  | (start_pos, end_pos, phone) :: ms' =>
      if existsb (overlap start_pos end_pos) used_ranges
      then select ms' used_ranges results
      else select ms' (used_ranges ++ [(start_pos, end_pos)])
             (results ++ [MkDetection PHONE phone 1%float start_pos end_pos])
  end.

Definition by_start (x y : DetectionResult) : bool := start_pos x <=? start_pos y.

Definition detect (text : str) (field_name : str) : list DetectionResult :=
  let sorted := stable_sort by_key (all_matches text) in
  stable_sort by_start (select sorted [] []).

End PhoneDetector.

(** ** detectors/credit_card_detector.py *)

Module CreditCardDetector.

(** [[\s\-]] *)
Definition sep (c : ascii) : bool := is_space c || is_char "-" c.

(** [\b(?:\d{4}[\s\-]?\d{4}[\s\-]?\d{4}[\s\-]?\d{3,7}|\d{4}[\s\-]?\d{6}[\s\-]?\d{5})\b] *)
Definition CARD_PATTERN : regex :=
  RSeq RWordB
    (RSeq
       (RAlt
          (rseq [exactly is_digit 4; opt sep; exactly is_digit 4; opt sep;
                 exactly is_digit 4; opt sep]
                (between is_digit 3 7))
          (rseq [exactly is_digit 4; opt sep; exactly is_digit 6; opt sep]
                (exactly is_digit 5)))
       RWordB).

(** The loop [for i in range(1, len(digits), 2)] over the reversed digits:
    the entry at an odd index is doubled and reduced by 9 above 9. *)
Fixpoint double_odd (i : nat) (digits : list Z) : list Z :=
  match digits with
  | [] => []
  | d :: rest =>
      (if Nat.odd i
       then (if d * 2 >? 9 then d * 2 - 9 else d * 2)
       else d) :: double_odd (S i) rest
  end.

Definition sum (l : list Z) : Z := fold_left Z.add l 0.

Definition _luhn_check (card_number : str) : bool :=
  if negb (isdigit card_number) then false
  else
    let digits := map digit_value (rev card_number) in
    let total := sum (double_odd 0 digits) in
    total mod 10 =? 0.

Definition detect (text : str) (field_name : str) : list DetectionResult :=
  flat_map
    (fun m =>
       let card_with_separators := m_group m in
       let digits_only := strip_separators card_with_separators in
       let n := Z.of_nat (length digits_only) in
       if negb ((13 <=? n) && (n <=? 19)) then []
       else if negb (_luhn_check digits_only) then []
       else [MkDetection CREDIT_CARD card_with_separators 1%float
               (m_start m) (m_end m)])
    (finditer CARD_PATTERN text).

End CreditCardDetector.

(** ** The Faker library, as used by replacer.py *)

(** One method per generator the Replacer calls; each draws from the
    generator state [G] and returns the new state. *)
Class Faker (G : Type) := {
  email : G -> str * G;
  phone_number : G -> str * G;
  name : G -> str * G;
  first_name : G -> str * G;
  last_name : G -> str * G;
  credit_card_number : G -> str * G
}.

#[global] Instance PIIType_eq_dec : EqDecision PIIType.
Proof. solve_decision. Defined.

Definition PIIType_to_nat (t : PIIType) : nat :=
  match t with
  | EMAIL => 0 | PHONE => 1 | FULL_NAME => 2
  | FIRST_NAME => 3 | LAST_NAME => 4 | CREDIT_CARD => 5
  end%nat.

Definition PIIType_of_nat (n : nat) : option PIIType :=
  match n with
  | 0 => Some EMAIL | 1 => Some PHONE | 2 => Some FULL_NAME
  | 3 => Some FIRST_NAME | 4 => Some LAST_NAME | 5 => Some CREDIT_CARD
  | _ => None
  end%nat.

#[global] Instance PIIType_countable : Countable PIIType.
Proof.
  apply (inj_countable PIIType_to_nat PIIType_of_nat).
  intros []; reflexivity.
Defined.

(** ** replacer.py *)

Module Replacer.
Section WithFaker.
Context {G : Type} {F : Faker G}.

(** The instance attributes.  [_cache] is keyed by
    [(original_value, pii_type)]; the two name maps by the lower-cased
    name. *)
Record t := Mk {
  _faker : G;
  _cache : gmap (list ascii * PIIType) (list ascii);
  _first_name_map : gmap (list ascii) (list ascii);
  _last_name_map : gmap (list ascii) (list ascii)
}.

(** [Replacer(seed)]: [g] is the generator state the seed (or the entropy
    source, for [seed=None]) produces. *)
Definition init (g : G) : t := Mk g ∅ ∅ ∅.

Definition with_faker (r : t) (g : G) : t :=
  Mk g (_cache r) (_first_name_map r) (_last_name_map r).
Definition set_first (r : t) (k v : str) : t :=
  Mk (_faker r) (_cache r) (<[k := v]> (_first_name_map r)) (_last_name_map r).
Definition set_last (r : t) (k v : str) : t :=
  Mk (_faker r) (_cache r) (_first_name_map r) (<[k := v]> (_last_name_map r)).
Definition set_cache (r : t) (k : str * PIIType) (v : str) : t :=
  Mk (_faker r) (<[k := v]> (_cache r)) (_first_name_map r) (_last_name_map r).

Definition _preserve_case (original fake : str) : str :=
  if isupper original then upper fake
  else if islower original then lower fake
  else fake.

Definition _generate_email (r : t) : str * t :=
  let '(fake, g) := email (_faker r) in (fake, with_faker r g).

Definition _generate_credit_card (r : t) : str * t :=
  let '(fake, g) := credit_card_number (_faker r) in (fake, with_faker r g).

Definition _generate_phone (original : str) (r : t) : str * t :=
  let '(fake_phone, g) := phone_number (_faker r) in
  let r := with_faker r g in
  let digits := digits_of fake_phone in
  if has_char "+" original && has_char "-" original then
    (fake_phone, r)
  else if has_char "(" original && has_char ")" original then
    if (10 <=? length digits)%nat
    then (lit "(" ++ slice digits 0 3 ++ lit ") " ++ slice digits 3 6
            ++ lit "-" ++ slice digits 6 10, r)
    else (fake_phone, r)
  else if has_char "-" original then
    if (10 <=? length digits)%nat
    then (slice digits 0 3 ++ lit "-" ++ slice digits 3 6
            ++ lit "-" ++ slice digits 6 10, r)
    else (fake_phone, r)
  else if isdigit original then
    (slice digits 0 (length original), r)
  else (fake_phone, r).

(** [f"{fake_first} {fake_last}"] *)
Definition join_names (fake_first fake_last : str) : str :=
  fake_first ++ lit " " ++ fake_last.

Definition _generate_full_name (original : str) (r : t) : str * t :=
  let words := str_split original in
  if (2 <=? length words)%nat then
    let first_normalized := lower (List.hd [] words) in
    let last_normalized := lower (List.last words []) in
    match _first_name_map r !! first_normalized,
          _last_name_map r !! last_normalized with
    | Some fake_first, Some fake_last =>
        (_preserve_case original (join_names fake_first fake_last), r)
    | Some fake_first, None =>
        let '(fake_last, g) := last_name (_faker r) in
        (_preserve_case original (join_names fake_first fake_last),
         set_last (with_faker r g) last_normalized fake_last)
    | None, Some fake_last =>
        let '(fake_first, g) := first_name (_faker r) in
        (_preserve_case original (join_names fake_first fake_last),
         set_first (with_faker r g) first_normalized fake_first)
    | None, None =>
        let '(fake_first, g1) := first_name (_faker r) in
        let '(fake_last, g2) := last_name g1 in
        (_preserve_case original (join_names fake_first fake_last),
         set_last (set_first (with_faker r g2) first_normalized fake_first)
           last_normalized fake_last)
    end
  else
    let '(fake_name, g) := name (_faker r) in
    (_preserve_case original fake_name, with_faker r g).

Definition _generate_first_name (original : str) (r : t) : str * t :=
  let normalized := lower original in
  match _first_name_map r !! normalized with
  | Some fake_name => (_preserve_case original fake_name, r)
  | None =>
      let '(fake_name, g) := first_name (_faker r) in
      (_preserve_case original fake_name,
       set_first (with_faker r g) normalized fake_name)
  end.

Definition _generate_last_name (original : str) (r : t) : str * t :=
  let normalized := lower original in
  match _last_name_map r !! normalized with
  | Some fake_name => (_preserve_case original fake_name, r)
  | None =>
      let '(fake_name, g) := last_name (_faker r) in
      (_preserve_case original fake_name,
       set_last (with_faker r g) normalized fake_name)
  end.

(** The dispatch on [pii_type]; the final [else] of the source (the
    literal "[REDACTED]") is not reachable for a member of [PIIType]. *)
Definition generate (original : str) (pii_type : PIIType) (r : t) : str * t :=
  match pii_type with
  | EMAIL => _generate_email r
  | PHONE => _generate_phone original r
  | FULL_NAME => _generate_full_name original r
  | FIRST_NAME => _generate_first_name original r
  | LAST_NAME => _generate_last_name original r
  | CREDIT_CARD => _generate_credit_card r
  end.

Definition get_or_create_replacement (original : str) (pii_type : PIIType)
    (r : t) : str * t :=
  let cache_key := (original, pii_type) in
  match _cache r !! cache_key with
  | Some cached => (cached, r)
  | None =>
      let '(fake_value, r') := generate original pii_type r in
      (fake_value, set_cache r' cache_key fake_value)
  end.

Definition replace (detection : DetectionResult) (r : t) : str * t :=
  get_or_create_replacement (original_value detection) (pii_type detection) r.

End WithFaker.
Arguments t G : clear implicits.
End Replacer.

(** ** JSON values, as [json.load] builds them *)

(** A [dict] is the list of its items in insertion order. *)
#[warnings="-register-all"]
Inductive json : Type :=
| JNull
| JBool (b : bool)
| JInt (n : Z)
| JFloat (x : float)
| JStr (s : str)
| JList (items : list json)
| JDict (items : list (str * json)).

(** [d[key] = value]: an existing key keeps its place, a new key goes last. *)
Fixpoint dict_set (d : list (str * json)) (key : str) (value : json)
  : list (str * json) :=
  match d with
  | [] => [(key, value)]
  | (k, v) :: d' =>
      if decide (k = key) then (k, value) :: d'
      else (k, v) :: dict_set d' key value
  end.

(** The keys of every [dict] inside a value are pairwise distinct, which is
    the case for every Python [dict]. *)
Fixpoint well_formed (v : json) : Prop :=
  match v with
  | JList items =>
      (fix all (l : list json) : Prop :=
         match l with
         | [] => True
         | x :: l' => well_formed x /\ all l'
         end) items
  | JDict items =>
      List.NoDup (map fst items) /\
      (fix all (l : list (str * json)) : Prop :=
         match l with
         | [] => True
         | (_, x) :: l' => well_formed x /\ all l'
         end) items
  | _ => True
  end.

(** No string leaf anywhere below [v]. *)
Fixpoint string_free (v : json) : bool :=
  match v with
  | JStr _ => false
  | JList items => forallb string_free items
  | JDict items =>
      (fix all (l : list (str * json)) : bool :=
         match l with
         | [] => true
         | (_, x) :: l' => string_free x && all l'
         end) items
  | _ => true
  end.

(** [type(v).__name__] *)
Definition type_name (v : json) : str :=
  match v with
  | JNull => lit "NoneType"
  | JBool _ => lit "bool"
  | JInt _ => lit "int"
  | JFloat _ => lit "float"
  | JStr _ => lit "str"
  | JList _ => lit "list"
  | JDict _ => lit "dict"
  end.

(** ** Exceptions *)

(** [str(n)] for an integer. *)
Definition str_of_int (n : Z) : str :=
  lit (DecimalString.NilEmpty.string_of_int (Z.to_int n)).

Inductive exn : Type :=
(* exceptions.py *)
| FileNotFoundError (message : str)
| JSONParseError (error_msg : str)
| InvalidOutputPathError (message : str)
(* built-in and library exceptions *)
| PermissionError (message : str)
| OSError (message : str)
| JSONDecodeError (msg : str) (lineno colno pos : Z)
| AttributeError (message : str)
| OtherException (message : str).

(** [JSONParseError(message, line, column)] formats its message. *)
Definition new_JSONParseError (message : str) (line column : Z) : exn :=
  JSONParseError (message ++ lit " at line " ++ str_of_int line
                    ++ lit ", column " ++ str_of_int column).

(** [str(e)] *)
Definition exn_str (e : exn) : str :=
  match e with
  | FileNotFoundError m | JSONParseError m | InvalidOutputPathError m
  | PermissionError m | OSError m | AttributeError m | OtherException m => m
  | JSONDecodeError msg lineno colno pos =>
      msg ++ lit ": line " ++ str_of_int lineno ++ lit " column "
        ++ str_of_int colno ++ lit " (char " ++ str_of_int pos ++ lit ")"
  end.

Inductive outcome (A : Type) : Type :=
| Ok (a : A)
| Raise (e : exn).
Arguments Ok {A} a.
Arguments Raise {A} e.

(** ** The file system and the JSON codec *)

(** What [open(path, encoding="utf-8")] followed by [json.load] does. *)
Inductive load_outcome : Type :=
| LoadRaise (e : exn)
| LoadOk (data : json).

(** What [json.dump(data, f, indent=2, ensure_ascii=False)] does: the whole
    text is written, or an exception is raised after [written] reached the
    file. *)
Inductive dump_outcome : Type :=
| DumpOk (text : str)
| DumpRaise (written : str) (e : exn).

Record world := MkWorld {
  path_exists : str -> bool;               (* Path.exists() *)
  path_is_file : str -> bool;              (* Path.is_file() *)
  open_and_load : str -> load_outcome;
  mkdir_parents : str -> option exn;       (* Path.parent.mkdir(...) *)
  open_for_writing : str -> option exn;    (* open(path, "w", ...) *)
  json_dump : list json -> dump_outcome
}.

(** ** sanitizer.py *)

(** The [Detector] interface: [detect(text, field_name)]. *)
Definition Detector : Type := str -> str -> list DetectionResult.

Module Sanitizer.
Section WithFaker.
Context {G : Type} {F : Faker G}.

Record t := Mk {
  _detectors : list Detector;
  _replacer : Replacer.t G;
  _pii_fields_detected : Z;
  _pii_replacements_made : Z
}.

(** [Sanitizer(detectors, replacer)] *)
Definition init (detectors : list Detector) (replacer : Replacer.t G) : t :=
  Mk detectors replacer 0 0.

(** [reverse=True] on the key [start_pos]. *)
Definition by_start_desc (x y : DetectionResult) : bool :=
  start_pos y <=? start_pos x.

(** One turn of the replacement loop of [_sanitize_string]. *)
Definition apply_detection (detection : DetectionResult)
    (acc : str * t) : str * t :=
  let '(sanitized_text, st) := acc in
  let '(fake_value, replacer) := Replacer.replace detection (_replacer st) in
  let sanitized_text :=
    if (start_pos detection >=? 0) && (end_pos detection >? start_pos detection)
    then slice_to sanitized_text (start_pos detection) ++ fake_value
           ++ slice_from sanitized_text (end_pos detection)
    else replace_first sanitized_text (original_value detection) fake_value in
  (sanitized_text,
   Mk (_detectors st) replacer (_pii_fields_detected st)
      (_pii_replacements_made st + 1)).

Definition all_detections (detectors : list Detector) (text field_name : str)
  : list DetectionResult :=
  flat_map (fun detector => detector text field_name) detectors.

Definition _sanitize_string (text field_name : str) (st : t) : str * t :=
  match all_detections (_detectors st) text field_name with
  | [] => (text, st)
  | detections =>
      let st := Mk (_detectors st) (_replacer st)
                  (_pii_fields_detected st + 1) (_pii_replacements_made st) in
      fold_left (fun acc detection => apply_detection detection acc)
        (stable_sort by_start_desc detections) (text, st)
  end.

(** The loop over [value.items()] filling a fresh dict. *)
Fixpoint walk_items (f : json -> str -> t -> json * t)
    (items sanitized : list (str * json)) (st : t)
  : list (str * json) * t :=
  match items with
  | [] => (sanitized, st)
  | (key, nested_value) :: rest =>
      let '(v, st') := f nested_value key st in
      walk_items f rest (dict_set sanitized key v) st'
  end.

(** The list comprehension over the elements of a list. *)
Fixpoint walk_list (f : json -> t -> json * t) (items : list json) (st : t)
  : list json * t :=
  match items with
  | [] => ([], st)
  | item :: rest =>
      let '(v, st') := f item st in
      let '(vs, st'') := walk_list f rest st' in
      (v :: vs, st'')
  end.

Fixpoint sanitize_value (value : json) (field_name : str) (st : t)
  {struct value} : json * t :=
  match value with
  | JStr text =>
      let '(s, st') := _sanitize_string text field_name st in (JStr s, st')
  | JDict items =>
      let '(d, st') :=
        walk_items (fun v key s => sanitize_value v key s) items [] st in
      (JDict d, st')
  | JList items =>
      let '(l, st') :=
        walk_list (fun v s => sanitize_value v field_name s) items st in
      (JList l, st')
  | _ => (value, st)
  end.

(** [record.items()] exists only on a dict. *)
Fixpoint sanitize_records (records : list json) (st : t)
  : outcome (list json) * t :=
  match records with
  | [] => (Ok [], st)
  | JDict items :: rest =>
      let '(d, st') := walk_items sanitize_value items [] st in
      match sanitize_records rest st' with
      | (Ok rs, st'') => (Ok (JDict d :: rs), st'')
      | (Raise e, st'') => (Raise e, st'')
      end
  | record :: _ =>
      (Raise (AttributeError
                (lit "'" ++ type_name record
                   ++ lit "' object has no attribute 'items'")), st)
  end.

Definition _read_json_file (w : world) (input_path : str)
  : outcome (list json) :=
  if negb (path_exists w input_path) then
    Raise (FileNotFoundError (lit "Input file not found: " ++ input_path))
  else if negb (path_is_file w input_path) then
    Raise (FileNotFoundError (lit "Input path is not a file: " ++ input_path))
  else
    let body :=
      match open_and_load w input_path with
      | LoadRaise e => Raise e
      | LoadOk (JList data) => Ok data
      | LoadOk _ => Raise (new_JSONParseError (lit "JSON root must be an array") 1 1)
      end in
    match body with
    | Ok data => Ok data
    | Raise (JSONDecodeError msg lineno colno _) =>
        Raise (new_JSONParseError (lit "Invalid JSON: " ++ msg) lineno colno)
    | Raise (PermissionError _) =>
        Raise (FileNotFoundError
                 (lit "Permission denied reading file: " ++ input_path))
    | Raise e =>
        Raise (FileNotFoundError (lit "Error reading file: " ++ exn_str e))
    end.

(** The handlers of [_write_json_file]. *)
Definition write_error (output_path : str) (e : exn) : exn :=
  match e with
  | PermissionError _ =>
      InvalidOutputPathError (lit "Permission denied writing to: " ++ output_path)
  | OSError _ =>
      InvalidOutputPathError (lit "Error writing output file: " ++ exn_str e)
  | _ =>
      InvalidOutputPathError (lit "Unexpected error writing output: " ++ exn_str e)
  end.

(** The disk maps a path to the text of the file.  Opening with mode "w"
    creates or truncates the file before anything is dumped. *)
Definition _write_json_file (w : world) (output_path : str) (data : list json)
    (disk : gmap (list ascii) (list ascii))
  : outcome unit * gmap (list ascii) (list ascii) :=
  match mkdir_parents w output_path with
  | Some e => (Raise (write_error output_path e), disk)
  | None =>
      match open_for_writing w output_path with
      | Some e => (Raise (write_error output_path e), disk)
      | None =>
          match json_dump w data with
          | DumpOk text => (Ok tt, <[output_path := text]> disk)
          | DumpRaise written e =>
              (Raise (write_error output_path e),
               <[output_path := written]> disk)
          end
      end
  end.

Definition failure (message : str) : SanitizationResult :=
  MkResult false 0 0 0 (Some message).

(** The two [except] clauses of [sanitize_file]. *)
Definition handle (e : exn) : SanitizationResult :=
  match e with
  | FileNotFoundError _ | JSONParseError _ | InvalidOutputPathError _ =>
      failure (exn_str e)
  | _ => failure (lit "Unexpected error during sanitization: " ++ exn_str e)
  end.

Definition sanitize_file (w : world) (input_path output_path : str)
    (st : t) (disk : gmap (list ascii) (list ascii))
  : SanitizationResult * t * gmap (list ascii) (list ascii) :=
  let st := Mk (_detectors st) (_replacer st) 0 0 in
  match _read_json_file w input_path with
  | Raise e => (handle e, st, disk)
  | Ok records =>
      match sanitize_records records st with
      | (Raise e, st') => (handle e, st', disk)
      | (Ok sanitized_records, st') =>
          match _write_json_file w output_path sanitized_records disk with
          | (Raise e, disk') => (handle e, st', disk')
          | (Ok _, disk') =>
              (MkResult true (Z.of_nat (length records))
                 (_pii_fields_detected st') (_pii_replacements_made st') None,
               st', disk')
          end
      end
  end.

End WithFaker.
Arguments t G : clear implicits.
End Sanitizer.

(** ** A small deterministic generator

    An instance of the [Faker] interface used to run the model on concrete
    inputs: the generator state is a counter and each method reads its
    table at the counter, then advances it. *)

Module TableFaker.

Definition pick (table : list string) (n : nat) : str * nat :=
  (lit (nth (n mod length table) table ""%string), S n).

Definition emails : list string :=
  ["alice.martin@example.org"; "kevin52@example.net"]%string.
Definition phones : list string :=
  ["(212)555-0147"; "555.123.4567"; "001-404-555-0199x321"]%string.
Definition names : list string :=
  ["Dana Whitfield"; "Omar Castillo"]%string.
Definition first_names : list string := ["Michael"; "Laura"]%string.
Definition last_names : list string := ["Jones"; "Rivera"]%string.
Definition cards : list string :=
  ["4111111111111111"; "5555555555554444"]%string.

#[global] Instance faker : Faker nat := {|
  email := pick emails;
  phone_number := pick phones;
  name := pick names;
  first_name := pick first_names;
  last_name := pick last_names;
  credit_card_number := pick cards
|}.

End TableFaker.

(** * Vocabulary of the properties *)

Section ReplacerRuns.
Context {G : Type} {F : Faker G}.

(** A sequence of [get_or_create_replacement] calls on one instance. *)
Fixpoint run_calls (calls : list (str * PIIType)) (r : Replacer.t G)
  : Replacer.t G :=
  match calls with
  | [] => r
  | (original, pii_type) :: rest =>
    run_calls rest
      (snd (Replacer.get_or_create_replacement original pii_type r))
  end.

End ReplacerRuns.

(** The three case patterns [_preserve_case] tells apart. *)
Inductive case_pattern : Type := AllUpper | AllLower | Mixed.

Definition case_of (s : str) : case_pattern :=
  if isupper s then AllUpper else if islower s then AllLower else Mixed.

Definition no_lower (s : str) : bool := forallb (fun c => negb (is_lower c)) s.
Definition no_upper (s : str) : bool := forallb (fun c => negb (is_upper c)) s.

(** How the result of a name generator follows the case of the original:
    [fake] is the name as the generator produced it. *)
Definition case_follows (original fake result : str) : Prop :=
  match case_of original with
  | AllUpper =>
      result = upper fake /\ no_lower result = true
      /\ isupper result = existsb is_alpha fake
  | AllLower =>
      result = lower fake /\ no_upper result = true
      /\ islower result = existsb is_alpha fake
  | Mixed => result = fake
  end.

(** A non-empty string without white space: one token of [str.split()]. *)
Definition single_token (s : str) : bool :=
  negb (existsb is_space s) && negb (Nat.eqb (length s) 0).

Section ReplacerNames.
Context {G : Type} {F : Faker G}.

(** The name, in the casing the generator gave it, that stands behind the
    replacement of [original]: read from the name maps of the instance
    after the call, or drawn as a whole for a one-word full name. *)
Definition generated_name (t : PIIType) (original : str)
  (r r' : Replacer.t G) (fake : str) : Prop :=
  match t with
  | FIRST_NAME => Replacer._first_name_map r' !! lower original = Some fake
  | LAST_NAME => Replacer._last_name_map r' !! lower original = Some fake
  | FULL_NAME =>
    let words := str_split original in
    if (2 <=? length words)%nat then
      exists fake_first fake_last : str,
        Replacer._first_name_map r' !! lower (List.hd [] words) = Some fake_first
        /\ Replacer._last_name_map r' !! lower (List.last words []) = Some fake_last
        /\ fake = Replacer.join_names fake_first fake_last
    else fake = fst (name (Replacer._faker r))
  | _ => True
  end.

(** Entries of the two name maps are kept from [r] to [r']. *)
Definition names_kept (r r' : Replacer.t G) : Prop :=
  (forall k y : str, Replacer._first_name_map r !! k = Some y ->
                   Replacer._first_name_map r' !! k = Some y)
  /\ (forall k y : str, Replacer._last_name_map r !! k = Some y ->
                      Replacer._last_name_map r' !! k = Some y).

(** Every cached name replacement is the case-adjusted entry of the name
    maps. *)
Definition names_consistent (r : Replacer.t G) : Prop :=
  forall (t : PIIType) (v x : str),
    Replacer._cache r !! (v, t) = Some x ->
    match t with
    | FIRST_NAME | LAST_NAME =>
        exists fake, generated_name t v r r fake
                     /\ x = Replacer._preserve_case v fake
    | FULL_NAME =>
        (2 <= length (str_split v))%nat ->
        exists fake, generated_name t v r r fake
                     /\ x = Replacer._preserve_case v fake
    | _ => True
    end.

(** The three name types. *)
Definition is_name_type (t : PIIType) : bool :=
  match t with
  | FULL_NAME | FIRST_NAME | LAST_NAME => true
  | _ => false
  end.

(** Every cached name replacement has the case of its original. *)
Definition names_cased (r : Replacer.t G) : Prop :=
  forall (t : PIIType) (v x : str),
    Replacer._cache r !! (v, t) = Some x -> is_name_type t = true ->
    exists fake, x = Replacer._preserve_case v fake.

(** The replacement the instance [r] gives for [original] follows the case
    of [original]. *)
Definition cased_replacement (r : Replacer.t G) (original : str) (t : PIIType)
  : Prop :=
  exists fake,
    case_follows original fake
      (fst (Replacer.get_or_create_replacement original t r)).

End ReplacerNames.

Section NameLinkage.
Context {G : Type} {F : Faker G}.

(** [first] replaced as FIRST_NAME, then [last] as LAST_NAME, then
    "first last" as FULL_NAME, on the instance [r]: the full-name
    replacement is the two standalone replacements joined by one space. *)
Definition linked_first_then_last (r : Replacer.t G) (first last : str) : Prop :=
  let '(fake_first, r1) := Replacer.get_or_create_replacement first FIRST_NAME r in
  let '(fake_last, r2) := Replacer.get_or_create_replacement last LAST_NAME r1 in
  let '(fake_full, _) :=
    Replacer.get_or_create_replacement (first ++ lit " " ++ last) FULL_NAME r2 in
  fake_full = fake_first ++ lit " " ++ fake_last.

(** The same with the last name replaced before the first name. *)
Definition linked_last_then_first (r : Replacer.t G) (first last : str) : Prop :=
  let '(fake_last, r1) := Replacer.get_or_create_replacement last LAST_NAME r in
  let '(fake_first, r2) := Replacer.get_or_create_replacement first FIRST_NAME r1 in
  let '(fake_full, _) :=
    Replacer.get_or_create_replacement (first ++ lit " " ++ last) FULL_NAME r2 in
  fake_full = fake_first ++ lit " " ++ fake_last.

End NameLinkage.

(** A record is a JSON object. *)
Definition is_record (v : json) : bool :=
  match v with JDict _ => true | _ => false end.

(** A JSON array. *)
Definition is_array (v : json) : bool :=
  match v with JList _ => true | _ => false end.

(** What the claim of structure preservation asks of a record. *)
Definition plain_record (v : json) : Prop :=
  is_record v = true /\ well_formed v /\ string_free v = true.

(** A record with nested containers and no string leaf. *)
Definition sample_record : json :=
  JDict [(lit "id", JInt 7);
         (lit "tags", JList [JBool true; JNull; JDict []; JList []]);
         (lit "score", JFloat 0.5%float);
         (lit "owner", JDict [(lit "age", JInt 41); (lit "active", JBool false)])].

(** A walker with the three pattern detectors over the table generator. *)
Definition sample_sanitizer : Sanitizer.t nat :=
  Sanitizer.init
    [EmailDetector.detect; PhoneDetector.detect; CreditCardDetector.detect]
    (Replacer.init 0%nat).

Section FailedRuns.
Context {G : Type} {F : Faker G}.

(** The records as [sanitize_records] returns them at the start of a
    run. *)
Definition sanitized_of (records : list json) (st : Sanitizer.t G)
  : list json :=
  match fst (Sanitizer.sanitize_records records
               (Sanitizer.Mk (Sanitizer._detectors st)
                  (Sanitizer._replacer st) 0 0)) with
  | Ok sanitized => sanitized
  | Raise _ => []
  end.

(** The ways for a run to fail, on the machine [w]: the input path does
    not exist or is no file; opening or parsing the input raises; the
    JSON root is no array; an element of the array is no JSON object;
    creating the output directory, opening the output file or dumping the
    sanitized records raises. *)
Definition failing_run (w : world) (input_path output_path : str)
    (st : Sanitizer.t G) : Prop :=
  path_exists w input_path = false
  \/ path_is_file w input_path = false
  \/ (exists e, open_and_load w input_path = LoadRaise e)
  \/ (exists root, open_and_load w input_path = LoadOk root
                   /\ is_array root = false)
  \/ (exists records,
        open_and_load w input_path = LoadOk (JList records)
        /\ (Exists (fun r => is_record r = false) records
            \/ mkdir_parents w output_path <> None
            \/ open_for_writing w output_path <> None
            \/ exists written e,
                 json_dump w (sanitized_of records st)
                 = DumpRaise written e)).

(** The output file holds part of the dump: the run reached
    [json.dump], which raised after [written] had gone to the file. *)
Definition partial_dump (w : world) (output_path : str)
    (disk disk' : gmap (list ascii) (list ascii)) : Prop :=
  exists (data : list json) (written : str) (e : exn),
    mkdir_parents w output_path = None
    /\ open_for_writing w output_path = None
    /\ json_dump w data = DumpRaise written e
    /\ disk' = <[output_path := written]> disk.

End FailedRuns.

(** A machine on which no path exists. *)
Definition empty_world : world :=
  MkWorld (fun _ => false) (fun _ => false)
    (fun _ => LoadRaise (OSError (lit "[Errno 2] No such file or directory")))
    (fun _ => None) (fun _ => None) (fun _ => DumpOk (lit "[]")).

(** A machine whose input file holds one record and whose disk fills up
    once the first character of the output is written. *)
Definition full_disk_world : world :=
  MkWorld (fun _ => true) (fun _ => true)
    (fun _ => LoadOk (JList [JDict [(lit "email", JStr (lit "ann@corp.io"))]]))
    (fun _ => None) (fun _ => None)
    (fun _ => DumpRaise (lit "[")
                (OSError (lit "[Errno 28] No space left on device"))).

(** The least number of characters a pattern consumes. *)
Fixpoint min_len (r : regex) : nat :=
  match r with
  | RChar _ => 1
  | RRep _ lo _ => lo
  | RWordB => 0
  | RSeq r1 r2 => min_len r1 + min_len r2
  | RAlt r1 r2 => Nat.min (min_len r1) (min_len r2)
  end%nat.

(** The span of a detection lies inside [text], is not empty, and
    [original_value] is the text it covers. *)
Definition span_ok (text : str) (d : DetectionResult) : Prop :=
  0 <= start_pos d < end_pos d
  /\ end_pos d <= Z.of_nat (length text)
  /\ original_value d
     = slice text (Z.to_nat (start_pos d)) (Z.to_nat (end_pos d)).


(** The detection built from a pooled tuple [(start_pos, end_pos, phone)]. *)
Definition phone_detection (m : Z * Z * str) : DetectionResult :=
  let '(s, e, phone) := m in MkDetection PHONE phone 1%float s e.

(** A pooled phone match was kept, or it overlaps a kept detection. *)
Definition kept_or_shadowed (kept : list DetectionResult) (m : Z * Z * str)
  : Prop :=
  In (phone_detection m) kept
  \/ Exists (fun d => PhoneDetector.overlap (fst (fst m)) (snd (fst m))
                        (start_pos d, end_pos d) = true) kept.





(** The test of [_sanitize_string] on the span of a detection. *)
Definition valid_span (d : DetectionResult) : bool :=
  (start_pos d >=? 0) && (end_pos d >? start_pos d).

(** The text of the multi-type example and its two detections. *)
Definition contact_text : str := lit "Contact john@example.com or 555-123-4567".
Definition contact_email : DetectionResult :=
  MkDetection EMAIL (lit "john@example.com") 1%float 8 24.
Definition contact_phone : DetectionResult :=
  MkDetection PHONE (lit "555-123-4567") 1%float 28 40.

(** Every character class of the pattern gives the same answer on two
    characters related by [R]. *)
Fixpoint respects (R : ascii -> ascii -> Prop) (r : regex) : Prop :=
  match r with
  | RChar p | RRep p _ _ => forall c c', R c c' -> p c = p c'
  | RWordB => True
  | RSeq r1 r2 | RAlt r1 r2 => respects R r1 /\ respects R r2
  end.

(** The two indices of a match object. *)
Definition m_span (m : rmatch_obj) : Z * Z := (m_start m, m_end m).

(** Two digits. *)
Definition both_digits (c c' : ascii) : Prop :=
  is_digit c = true /\ is_digit c' = true.

(** The spans of the detections, taken left to right from [pos] on, follow
    one another inside [text] without overlap, and none is empty. *)
Fixpoint spans_in_order (text : str) (pos : Z)
    (asc : list (DetectionResult * str)) : Prop :=
  match asc with
  | [] => pos <= Z.of_nat (length text)
  | (d, _) :: rest =>
      pos <= start_pos d < end_pos d /\ spans_in_order text (end_pos d) rest
  end.

(** [text] from [pos] on, with every span replaced by the string that goes
    with it. *)
Fixpoint substituted (text : str) (pos : Z)
    (asc : list (DetectionResult * str)) : str :=
  match asc with
  | [] => slice_from text pos
  | (d, fake) :: rest =>
      slice text (Z.to_nat pos) (Z.to_nat (start_pos d)) ++ fake
        ++ substituted text (end_pos d) rest
  end.

(** The text part of one turn of the replacement loop, the replacement
    being given. *)
Definition text_step (txt : str) (df : DetectionResult * str) : str :=
  let '(d, fake) := df in
  if valid_span d
  then slice_to txt (start_pos d) ++ fake ++ slice_from txt (end_pos d)
  else replace_first txt (original_value d) fake.

Section Replacements.
Context {G : Type} {F : Faker G}.

(** The replacements of the detections, asked of the Replacer one after
    the other. *)
Fixpoint replacements (ds : list DetectionResult) (r : Replacer.t G)
  : list str * Replacer.t G :=
  match ds with
  | [] => ([], r)
  | d :: ds' =>
      let '(fake, r1) := Replacer.replace d r in
      let '(fakes, r2) := replacements ds' r1 in
      (fake :: fakes, r2)
  end.

End Replacements.

(** The Luhn checksum in the words of the specification: in the reversed
    digit string the digit at an odd index is doubled, 9 is taken off a
    doubled value above 9, and the sum of all must be a multiple of 10. *)
Definition luhn_term (reversed : str) (i : nat) : Z :=
  let d := digit_value (nth i reversed "0"%char) in
  if Nat.odd i then (if d * 2 >? 9 then d * 2 - 9 else d * 2) else d.

Definition luhn_valid (digits : str) : bool :=
  let reversed := rev digits in
  let total :=
    fold_right Z.add 0 (map (luhn_term reversed) (seq 0 (length reversed))) in
  total mod 10 =? 0.


(** * Further parts of the package *)

(** ** More [str] methods *)

Fixpoint lstrip (s : str) : str :=
  match s with
  | c :: s' => if is_space c then lstrip s' else s
  | [] => []
  end.

(** [s.strip()]: white space is dropped at both ends. *)
Definition str_strip (s : str) : str := rev (lstrip (rev (lstrip s))).

(** [s.endswith(suffix)] *)
Definition endswith (s suffix : str) : bool := prefixb (rev suffix) (rev s).

(** [a == b] on strings. *)
Definition str_eqb (a b : str) : bool := bool_decide (a = b).

(** [s.replace(c, "")] for a one-character [c]. *)
Definition remove_char (c : ascii) (s : str) : str :=
  List.filter (fun x => negb (is_char c x)) s.

(** The bound of a slice: a negative index counts from the end, and the
    result is brought into [0, len]. *)
Definition slice_index (len i : Z) : Z :=
  if i <? 0 then Z.max (i + len) 0 else Z.min i len.

(** [s[a:b]] for arbitrary integers. *)
Definition py_slice (s : str) (a b : Z) : str :=
  let len := Z.of_nat (length s) in
  slice s (Z.to_nat (slice_index len a)) (Z.to_nat (slice_index len b)).

(** ** detectors/name_detector.py *)

(** One result of [AnalyzerEngine.analyze]: [start], [end] and [score]. *)
Record RecognizerResult := MkRecognized {
  r_start : Z;
  r_end : Z;
  r_score : float
}.

(** [analyzer.analyze(text=text, language="en", entities=["PERSON"])]: the
    recognizer is a capability of the detector. *)
Definition Analyzer : Type := str -> list RecognizerResult.

Module NameDetector.

Definition full_name_hints : list str := [lit "fullname"; lit "name"].
Definition first_name_hints : list str :=
  [lit "firstname"; lit "fname"; lit "givenname"; lit "first"].
Definition last_name_hints : list str :=
  [lit "lastname"; lit "lname"; lit "surname"; lit "familyname"; lit "last"].

(** [field_name.lower().replace("_", "").replace("-", "")] *)
Definition field_lower (field_name : str) : str :=
  remove_char "-" (remove_char "_" (lower field_name)).

(** [any(hint == field_lower for hint in hints)] *)
Definition hinted (hints : list str) (field_name : str) : bool :=
  existsb (fun hint => str_eqb hint (field_lower field_name)) hints.

Definition _determine_name_type (name_text field_name : str) : PIIType :=
  if hinted full_name_hints field_name then FULL_NAME
  else if hinted first_name_hints field_name then FIRST_NAME
  else if hinted last_name_hints field_name then LAST_NAME
  else
    let words := str_split name_text in
    if (2 <=? length words)%nat then FULL_NAME else FIRST_NAME.

Definition detect (analyzer : Analyzer) (text field_name : str)
  : list DetectionResult :=
  match str_strip text with
  | [] => []
  | _ =>
      map (fun result =>
             let name_text := py_slice text (r_start result) (r_end result) in
             MkDetection (_determine_name_type name_text field_name) name_text
               (r_score result) (r_start result) (r_end result))
          (analyzer text)
  end.

End NameDetector.

(** ** streamlit_app.py *)

Inductive validated : Type :=
| ValueError (message : str)
| Filename (filename : str).

Definition validate_output_filename (filename : str) : validated :=
  match filename, str_strip filename with
  | [], _ | _, [] => ValueError (lit "Output filename cannot be empty")
  | _, stripped =>
      if negb (endswith stripped (lit ".json"))
      then Filename (stripped ++ lit ".json")
      else Filename stripped
  end.

(** [initialize_sanitizer()]: the four detectors in their order and a
    Replacer without seed; [analyzer] is the recognizer inside the
    NameDetector and [g] the state of the unseeded generator. *)
Definition initialize_sanitizer {G : Type} (analyzer : Analyzer) (g : G)
  : Sanitizer.t G :=
  Sanitizer.init
    [EmailDetector.detect; PhoneDetector.detect;
     NameDetector.detect analyzer; CreditCardDetector.detect]
    (Replacer.init g).

(** ** cli.py *)



Module Cli.
Section WithFaker.
Context {G : Type} {F : Faker G}.







End WithFaker.
End Cli.

(** * Vocabulary of the further properties *)

(** A string of ASCII characters: on these [upper] and [lower] are
    [str.upper()] and [str.lower()]. *)
Definition is_ascii (s : str) : bool :=
  forallb (fun c => Nat.ltb (code c) 128) s.

(** The span and score a detection carries. *)
Definition detection_report (d : DetectionResult) : Z * Z * float :=
  (start_pos d, end_pos d, confidence d).

Definition recognizer_report (r : RecognizerResult) : Z * Z * float :=
  (r_start r, r_end r, r_score r).

(** A recognizer result that spans a non-empty part of a text of length
    [len]. *)
Definition in_bounds (len : nat) (r : RecognizerResult) : Prop :=
  0 <= r_start r < r_end r /\ r_end r <= Z.of_nat len.

(** A recognizer that finds the person "John Doe" wherever a text starts
    with it. *)
Definition sample_analyzer : Analyzer :=
  fun text =>
    if prefixb (lit "John Doe") text
    then [MkRecognized 0 8 0.75%float]
    else [].

(** The string leaves below a value, each with the field name under which
    the walker meets it, in the order of the walk. *)
Fixpoint string_fields (value : json) (field_name : str) : list (str * str) :=
  match value with
  | JStr text => [(text, field_name)]
  | JList items => flat_map (fun item => string_fields item field_name) items
  | JDict items =>
      (fix below (l : list (str * json)) : list (str * str) :=
         match l with
         | [] => []
         | (key, nested_value) :: l' => string_fields nested_value key ++ below l'
         end) items
  | _ => []
  end.

Definition record_fields (records : list json) : list (str * str) :=
  flat_map (fun record => string_fields record []) records.

(** A value with every string leaf blanked: what is left is the structure,
    the keys and the leaves that are no strings. *)
Fixpoint shape (value : json) : json :=
  match value with
  | JStr _ => JStr []
  | JList items => JList (map shape items)
  | JDict items =>
      JDict ((fix below (l : list (str * json)) : list (str * json) :=
                match l with
                | [] => []
                | (key, nested_value) :: l' => (key, shape nested_value) :: below l'
                end) items)
  | _ => value
  end.

Definition shape_items (items : list (str * json)) : list (str * json) :=
  map (fun kv => (fst kv, shape (snd kv))) items.

Section WalkerVocabulary.
Context {G : Type} {F : Faker G}.

(** What the detectors of [st] find in a string leaf. *)
Definition found (st : Sanitizer.t G) (field : str * str)
  : list DetectionResult :=
  Sanitizer.all_detections (Sanitizer._detectors st) field.1 field.2.

Definition has_pii (st : Sanitizer.t G) (field : str * str) : bool :=
  match found st field with [] => false | _ => true end.

(** The number of string leaves in which something is found, and the
    number of detections in all of them. *)
Definition fields_with_pii (st : Sanitizer.t G) (fields : list (str * str)) : Z :=
  Z.of_nat (length (List.filter (has_pii st) fields)).

Definition detections_in (st : Sanitizer.t G) (fields : list (str * str)) : Z :=
  Z.of_nat (length (flat_map (found st) fields)).

(** The walker's state after one string leaf. *)
Definition visit (st : Sanitizer.t G) (field : str * str) : Sanitizer.t G :=
  snd (Sanitizer._sanitize_string field.1 field.2 st).

(** Every replacement cached in [st] is cached in [st'], unchanged. *)
Definition cache_within (st st' : Sanitizer.t G) : Prop :=
  forall (k : str * PIIType) (y : str),
    Replacer._cache (Sanitizer._replacer st) !! k = Some y ->
    Replacer._cache (Sanitizer._replacer st') !! k = Some y.

(** A second walk gives the values of the first and leaves the Replacer
    alone. *)
Definition repeats {A : Type} (first second : A * Sanitizer.t G)
    (s2 : Sanitizer.t G) : Prop :=
  fst second = fst first
  /\ Sanitizer._replacer (snd second) = Sanitizer._replacer s2
  /\ Sanitizer._detectors (snd second) = Sanitizer._detectors s2.

End WalkerVocabulary.

(** The two records of the sample input: one e-mail address occurs in
    both, and one string holds a phone number and an e-mail address. *)
Definition sample_records : list json :=
  [JDict [(lit "id", JInt 1);
          (lit "email", JStr (lit "ann@corp.io"));
          (lit "note", JStr (lit "call 555-123-4567 or bob@corp.io"))];
   JDict [(lit "id", JInt 2);
          (lit "contact", JList [JStr (lit "ann@corp.io"); JStr (lit "none")])]].

(** A machine whose input file holds the sample records and on which
    writing succeeds. *)
Definition sample_world : world :=
  MkWorld (fun _ => true) (fun _ => true)
    (fun _ => LoadOk (JList sample_records))
    (fun _ => None) (fun _ => None)
    (fun data => DumpOk (lit "[...]")).

(** A machine whose input file holds one JSON object, not an array. *)
Definition object_root_world : world :=
  MkWorld (fun _ => true) (fun _ => true)
    (fun _ => LoadOk (JDict [(lit "email", JStr (lit "ann@corp.io"))]))
    (fun _ => None) (fun _ => None)
    (fun data => DumpOk (lit "[...]")).

(** A machine whose input file holds an array with a record and a number. *)
Definition mixed_array_world : world :=
  MkWorld (fun _ => true) (fun _ => true)
    (fun _ => LoadOk (JList [JDict [(lit "email", JStr (lit "ann@corp.io"))];
                             JInt 5]))
    (fun _ => None) (fun _ => None)
    (fun data => DumpOk (lit "[...]")).



(** ** What the patterns accept *)

(** The strings a pattern can consume, word boundaries left aside. *)
Fixpoint lang (r : regex) (w : str) : Prop :=
  match r with
  | RChar p => exists c, w = [c] /\ p c = true
  | RRep p lo hi =>
      (lo <= length w)%nat
      /\ match hi with Some h => (length w <= h)%nat | None => True end
      /\ forallb p w = true
  | RWordB => w = []
  | RSeq r1 r2 => exists w1 w2, w = w1 ++ w2 /\ lang r1 w1 /\ lang r2 w2
  | RAlt r1 r2 => lang r1 w \/ lang r2 w
  end.

(** local@domain.tld, with the character classes of the e-mail pattern. *)
Definition email_shape (w : str) : Prop :=
  exists local domain tld : str,
    w = local ++ lit "@" ++ domain ++ lit "." ++ tld
    /\ local <> [] /\ forallb EmailDetector.local_part local = true
    /\ domain <> [] /\ forallb EmailDetector.domain_part domain = true
    /\ (2 <= length tld)%nat /\ forallb EmailDetector.tld_part tld = true.

(** A run of digits, of the given lengths. *)
Definition digit_group (lo hi : nat) (w : str) : Prop :=
  (lo <= length w <= hi)%nat /\ forallb is_digit w = true.

(** Nothing, or one separator of the card pattern. *)
Definition card_separator (w : str) : Prop :=
  (length w <= 1)%nat /\ forallb CreditCardDetector.sep w = true.

(** The two layouts of the card pattern: 4-4-4-(3 to 7) and 4-6-5 digits,
    with at most one separator between two groups. *)
Definition card_shape (w : str) : Prop :=
  (exists g1 s1 g2 s2 g3 s3 g4 : str,
     w = g1 ++ s1 ++ g2 ++ s2 ++ g3 ++ s3 ++ g4
     /\ digit_group 4 4 g1 /\ digit_group 4 4 g2 /\ digit_group 4 4 g3
     /\ digit_group 3 7 g4
     /\ card_separator s1 /\ card_separator s2 /\ card_separator s3)
  \/ (exists g1 s1 g2 s2 g3 : str,
        w = g1 ++ s1 ++ g2 ++ s2 ++ g3
        /\ digit_group 4 4 g1 /\ digit_group 6 6 g2 /\ digit_group 5 5 g3
        /\ card_separator s1 /\ card_separator s2).

(** A detection ends before the next one starts. *)
Definition precedes (a b : DetectionResult) : Prop := end_pos a <= start_pos b.

(** The detection the card detector builds from a match. *)
Definition card_of_match (m : rmatch_obj) : DetectionResult :=
  MkDetection CREDIT_CARD (m_group m) 1%float (m_start m) (m_end m).

(** The digits of a candidate pass the Luhn check. *)
Definition passes_luhn (m : rmatch_obj) : bool :=
  CreditCardDetector._luhn_check (strip_separators (m_group m)).

(** ** Phone numbers the Replacer formats *)

(** Two characters the phone patterns cannot tell apart: two digits, or
    the same character. *)
Definition same_class (c c' : ascii) : Prop := both_digits c c' \/ c = c'.

(** [f"({a}) {b}-{c}"] and [f"{a}-{b}-{c}"] *)
Definition paren_phone (a b c : str) : str :=
  lit "(" ++ a ++ lit ") " ++ b ++ lit "-" ++ c.
Definition dash_phone (a b c : str) : str :=
  a ++ lit "-" ++ b ++ lit "-" ++ c.

(** The match object for the span [(a, b)] of [text]. *)
Definition match_of_span (text : str) (ab : Z * Z) : rmatch_obj :=
  MkMatch (fst ab) (snd ab) (slice text (Z.to_nat (fst ab)) (Z.to_nat (snd ab))).

(** ** Records of names *)

(** A recognizer that takes every text for one person's name. *)
Definition whole_text_analyzer : Analyzer :=
  fun text => [MkRecognized 0 (Z.of_nat (length text)) 0.75%float].

(** A text that the recognizer takes, as a whole, for a person's name and
    in which the pattern detectors have nothing to find. *)
Definition whole_name (analyzer : Analyzer) (text : str) : Prop :=
  forallb is_space text = false
  /\ has_char "@" text = false
  /\ PhoneDetector.digit_count text < 10
  /\ exists score,
       analyzer text = [MkRecognized 0 (Z.of_nat (length text)) score].

(** The items of a record whose values are all strings, from its
    (key, text) pairs. *)
Definition string_items (fields : list (str * str)) : list (str * json) :=
  map (fun kt => (fst kt, JStr (snd kt))) fields.

Section RecordVocabulary.
Context {G : Type} {F : Faker G}.

(** The replacement the Replacer of [st] gives for the name [text] met
    under [key]. *)
Definition answer (st : Sanitizer.t G) (key text : str) : str :=
  fst (Replacer.get_or_create_replacement text
         (NameDetector._determine_name_type text key) (Sanitizer._replacer st)).

End RecordVocabulary.

(** The values for the three name fields of a record, given the
    replacements of the first and of the last name. *)
Definition linked_names (fake_first fake_last : str) (kt : str * str)
  : str * str :=
  (fst kt,
   if str_eqb (fst kt) (lit "first_name") then fake_first
   else if str_eqb (fst kt) (lit "last_name") then fake_last
   else fake_first ++ lit " " ++ fake_last).


(** * The consistency cache of the Replacer *)

Section ReplacerCache.
Context {G : Type} {F : Faker G}.
Implicit Types (r : Replacer.t G) (t : PIIType).

(** The generators leave the primary cache alone. *)
Lemma generate_cache (v : str) t r :
  Replacer._cache (snd (Replacer.generate v t r)) = Replacer._cache r.
Proof.
  destruct t; simpl;
    unfold Replacer._generate_email, Replacer._generate_phone,
      Replacer._generate_full_name, Replacer._generate_first_name,
      Replacer._generate_last_name, Replacer._generate_credit_card;
    repeat (match goal with
            | |- context [let '(_, _) := ?e in _] => destruct e
            | |- context [match ?e with _ => _ end] => destruct e
            end; simpl); reflexivity.
Qed.

Lemma get_or_create_hit (v : str) t r (x : str) :
  Replacer._cache r !! (v, t) = Some x ->
  Replacer.get_or_create_replacement v t r = (x, r).
Proof. intros H. unfold Replacer.get_or_create_replacement. now rewrite H. Qed.

Lemma get_or_create_stores (v : str) t r :
  Replacer._cache (snd (Replacer.get_or_create_replacement v t r)) !! (v, t)
  = Some (fst (Replacer.get_or_create_replacement v t r)).
Proof.
  unfold Replacer.get_or_create_replacement.
  destruct (Replacer._cache r !! (v, t)) eqn:E; simpl; [exact E|].
  destruct (Replacer.generate v t r) as [fake r']; simpl.
  apply lookup_insert_eq.
Qed.

Lemma get_or_create_keeps (v : str) t r (k : str * PIIType) (y : str) :
  Replacer._cache r !! k = Some y ->
  Replacer._cache (snd (Replacer.get_or_create_replacement v t r)) !! k = Some y.
Proof.
  intros H. unfold Replacer.get_or_create_replacement.
  destruct (Replacer._cache r !! (v, t)) eqn:E; simpl; [exact H|].
  pose proof (generate_cache v t r) as Hc.
  destruct (Replacer.generate v t r) as [fake r']; simpl in *.
  rewrite lookup_insert_ne; [now rewrite Hc|].
  intros Heq. subst k. congruence.
Qed.

Lemma run_calls_keeps calls r (k : str * PIIType) (y : str) :
  Replacer._cache r !! k = Some y ->
  Replacer._cache (run_calls calls r) !! k = Some y.
Proof.
  revert r. induction calls as [|[v t] calls IH]; intros r H; simpl; [exact H|].
  apply IH. now apply get_or_create_keeps.
Qed.

(** C1. Within one Replacer instance a call of
    [get_or_create_replacement v t] leaves the returned value in the cache
    under [(v, t)]; entries that were in the cache stay what they were; and
    after any further calls on the same instance both
    [get_or_create_replacement v t] and [replace] on a detection carrying
    [(v, t)] return that same string and leave the instance unchanged. *)
Theorem replacer_cache_is_stable (v : str) t r
    (calls : list (str * PIIType)) (c : float) (s e : Z) :
  let x := fst (Replacer.get_or_create_replacement v t r) in
  let r1 := snd (Replacer.get_or_create_replacement v t r) in
  let r2 := run_calls calls r1 in
  Replacer._cache r1 !! (v, t) = Some x
  /\ (forall (k : str * PIIType) (y : str),
        Replacer._cache r !! k = Some y -> Replacer._cache r2 !! k = Some y)
  /\ Replacer._cache r2 !! (v, t) = Some x
  /\ Replacer.get_or_create_replacement v t r2 = (x, r2)
  /\ Replacer.replace (MkDetection t v c s e) r2 = (x, r2).
Proof.
  intros x r1 r2.
  assert (H1 : Replacer._cache r1 !! (v, t) = Some x)
    by apply get_or_create_stores.
  assert (H2 : Replacer._cache r2 !! (v, t) = Some x)
    by now apply run_calls_keeps.
  repeat split; try assumption.
  - intros k y Hk. apply run_calls_keeps. now apply get_or_create_keeps.
  - now apply get_or_create_hit.
  - unfold Replacer.replace; simpl. now apply get_or_create_hit.
Qed.

End ReplacerCache.

(** * Character and string facts *)

Section CaseFacts.

Ltac by_cases_on_char c := destruct c as [[] [] [] [] [] [] [] []]; reflexivity.

Lemma is_lower_char_upper c : is_lower (char_upper c) = false.
Proof. by_cases_on_char c. Qed.

Lemma is_upper_char_lower c : is_upper (char_lower c) = false.
Proof. by_cases_on_char c. Qed.

Lemma is_upper_char_upper c : is_upper (char_upper c) = is_alpha c.
Proof. by_cases_on_char c. Qed.

Lemma is_lower_char_lower c : is_lower (char_lower c) = is_alpha c.
Proof. by_cases_on_char c. Qed.

Lemma no_lower_upper s : no_lower (upper s) = true.
Proof.
  induction s as [|c s IH]; simpl; [reflexivity|].
  now rewrite is_lower_char_upper, IH.
Qed.

Lemma no_upper_lower s : no_upper (lower s) = true.
Proof.
  induction s as [|c s IH]; simpl; [reflexivity|].
  now rewrite is_upper_char_lower, IH.
Qed.

Lemma existsb_upper_upper s : existsb is_upper (upper s) = existsb is_alpha s.
Proof.
  induction s as [|c s IH]; simpl; [reflexivity|].
  now rewrite is_upper_char_upper, IH.
Qed.

Lemma existsb_lower_lower s : existsb is_lower (lower s) = existsb is_alpha s.
Proof.
  induction s as [|c s IH]; simpl; [reflexivity|].
  now rewrite is_lower_char_lower, IH.
Qed.

Lemma isupper_upper s : isupper (upper s) = existsb is_alpha s.
Proof.
  unfold isupper. fold (no_lower (upper s)).
  now rewrite no_lower_upper, existsb_upper_upper.
Qed.

Lemma islower_lower s : islower (lower s) = existsb is_alpha s.
Proof.
  unfold islower. fold (no_upper (lower s)).
  now rewrite no_upper_lower, existsb_lower_lower.
Qed.

(** [_preserve_case] is the three-way classification of [case_follows]. *)
Lemma preserve_case_follows original fake :
  case_follows original fake (Replacer._preserve_case original fake).
Proof.
  unfold case_follows, case_of, Replacer._preserve_case.
  destruct (isupper original).
  - split; [reflexivity|]. split; [apply no_lower_upper | apply isupper_upper].
  - destruct (islower original).
    + split; [reflexivity|].
      split; [apply no_upper_lower | apply islower_lower].
    + reflexivity.
Qed.

End CaseFacts.

(** * Name generation *)

Section NameGeneration.
Context {G : Type} {F : Faker G}.
Implicit Types (r : Replacer.t G) (t : PIIType).

Lemma names_kept_refl r : names_kept r r.
Proof. split; auto. Qed.

Lemma insert_keeps (m : gmap (list ascii) (list ascii)) (k0 v0 k y : str) :
  m !! k0 = None -> m !! k = Some y -> <[k0 := v0]> m !! k = Some y.
Proof.
  intros Hn Hk. rewrite lookup_insert_ne; [exact Hk|].
  intros Heq. subst k0. congruence.
Qed.

Lemma generate_first_name_spec (v : str) r :
  names_kept r (snd (Replacer._generate_first_name v r))
  /\ exists fake,
     generated_name FIRST_NAME v r (snd (Replacer._generate_first_name v r)) fake
     /\ fst (Replacer._generate_first_name v r) = Replacer._preserve_case v fake.
Proof.
  unfold Replacer._generate_first_name, generated_name.
  destruct (Replacer._first_name_map r !! lower v) as [f|] eqn:E; simpl.
  - split; [apply names_kept_refl|]. exists f. auto.
  - destruct (first_name (Replacer._faker r)) as [f g]; simpl. split.
    + split; simpl; intros k y Hk; [now apply insert_keeps | exact Hk].
    + exists f. split; [apply lookup_insert_eq | reflexivity].
Qed.

Lemma generate_last_name_spec (v : str) r :
  names_kept r (snd (Replacer._generate_last_name v r))
  /\ exists fake,
     generated_name LAST_NAME v r (snd (Replacer._generate_last_name v r)) fake
     /\ fst (Replacer._generate_last_name v r) = Replacer._preserve_case v fake.
Proof.
  unfold Replacer._generate_last_name, generated_name.
  destruct (Replacer._last_name_map r !! lower v) as [f|] eqn:E; simpl.
  - split; [apply names_kept_refl|]. exists f. auto.
  - destruct (last_name (Replacer._faker r)) as [f g]; simpl. split.
    + split; simpl; intros k y Hk; [exact Hk | now apply insert_keeps].
    + exists f. split; [apply lookup_insert_eq | reflexivity].
Qed.

Lemma generate_full_name_spec (v : str) r :
  names_kept r (snd (Replacer._generate_full_name v r))
  /\ exists fake,
     generated_name FULL_NAME v r (snd (Replacer._generate_full_name v r)) fake
     /\ fst (Replacer._generate_full_name v r) = Replacer._preserve_case v fake.
Proof.
  unfold Replacer._generate_full_name, generated_name.
  destruct (2 <=? length (str_split v))%nat.
  - destruct (Replacer._first_name_map r !! lower (List.hd [] (str_split v)))
    as [f|] eqn:Ef;
    destruct (Replacer._last_name_map r !! lower (List.last (str_split v) []))
    as [l|] eqn:El; simpl.
    + split; [apply names_kept_refl|].
      exists (Replacer.join_names f l). split; [|reflexivity]. exists f, l. auto.
    + destruct (last_name (Replacer._faker r)) as [l g]; simpl. split.
      * split; simpl; intros k y Hk; [exact Hk | now apply insert_keeps].
      * exists (Replacer.join_names f l). split; [|reflexivity].
        exists f, l. split; [exact Ef|]. split; [apply lookup_insert_eq | reflexivity].
    + destruct (first_name (Replacer._faker r)) as [f g]; simpl. split.
      * split; simpl; intros k y Hk; [now apply insert_keeps | exact Hk].
      * exists (Replacer.join_names f l). split; [|reflexivity].
        exists f, l. split; [apply lookup_insert_eq|]. split; [exact El | reflexivity].
    + destruct (first_name (Replacer._faker r)) as [f g1]; simpl.
      destruct (last_name g1) as [l g2]; simpl. split.
      * split; simpl; intros k y Hk; now apply insert_keeps.
      * exists (Replacer.join_names f l). split; [|reflexivity].
        exists f, l. split; [apply lookup_insert_eq|].
        split; [apply lookup_insert_eq | reflexivity].
  - destruct (name (Replacer._faker r)) as [n g]; simpl. split.
    + split; simpl; auto.
    + exists n. split; reflexivity.
Qed.

Lemma generate_cased (v : str) t r :
  is_name_type t = true ->
  exists fake, fst (Replacer.generate v t r) = Replacer._preserve_case v fake.
Proof.
  destruct t; try discriminate; intros _; simpl.
  - destruct (generate_full_name_spec v r) as [_ (fake & _ & H)]. eauto.
  - destruct (generate_first_name_spec v r) as [_ (fake & _ & H)]. eauto.
  - destruct (generate_last_name_spec v r) as [_ (fake & _ & H)]. eauto.
Qed.

Lemma get_or_create_cased (v : str) t r :
  names_cased r ->
  names_cased (snd (Replacer.get_or_create_replacement v t r)).
Proof.
  intros Hc. unfold Replacer.get_or_create_replacement.
  destruct (Replacer._cache r !! (v, t)) eqn:E; simpl; [exact Hc|].
  pose proof (generate_cache v t r) as Hcache.
  pose proof (generate_cased v t r) as Hnew.
  destruct (Replacer.generate v t r) as [fake r']; simpl in *.
  intros t0 v0 x0 Hx Ht0. simpl in Hx.
  destruct (decide ((v, t) = (v0, t0))) as [Heq|Hne].
  - inversion Heq; subst v0 t0. rewrite lookup_insert_eq in Hx.
    inversion Hx; subst x0. now apply Hnew.
  - rewrite lookup_insert_ne in Hx by exact Hne. rewrite Hcache in Hx.
    now apply (Hc t0 v0 x0).
Qed.

Lemma run_calls_cased calls r : names_cased r -> names_cased (run_calls calls r).
Proof.
  revert r. induction calls as [|[v t] calls IH]; intros r H; simpl; [exact H|].
  apply IH. now apply get_or_create_cased.
Qed.

Lemma reachable_cased (g : G) calls (original : str) t :
  is_name_type t = true ->
  cased_replacement (run_calls calls (Replacer.init g)) original t.
Proof.
  intros Ht. set (r := run_calls calls (Replacer.init g)).
  assert (Hr : names_cased r).
  { apply run_calls_cased. intros t0 v x H. simpl in H.
    rewrite lookup_empty in H. discriminate. }
  destruct (get_or_create_cased original t r Hr t original _
              (get_or_create_stores original t r) Ht) as [fake Hfake].
  exists fake. rewrite Hfake. apply preserve_case_follows.
Qed.

(** C7. For each of the three name generators the returned string is
    [_preserve_case] applied to the name as generated (the entry of the name
    maps, or the two entries joined by a space, or the whole name drawn for a
    one-word full name): when the original is all uppercase the result is
    that name uppercased and holds no lowercase letter; when it is all
    lowercase the result is that name lowercased and holds no uppercase
    letter; otherwise the result is that name unchanged.  The same holds of
    every name replacement an instance returns after any calls, whether
    generated or read from the cache. *)
Theorem name_case_is_preserved (original : str) r (g : G)
    (calls : list (str * PIIType)) :
  (exists fake,
      generated_name FIRST_NAME original r
        (snd (Replacer._generate_first_name original r)) fake
      /\ case_follows original fake
           (fst (Replacer._generate_first_name original r)))
  /\ (exists fake,
        generated_name LAST_NAME original r
          (snd (Replacer._generate_last_name original r)) fake
        /\ case_follows original fake
             (fst (Replacer._generate_last_name original r)))
  /\ (exists fake,
        generated_name FULL_NAME original r
          (snd (Replacer._generate_full_name original r)) fake
        /\ case_follows original fake
             (fst (Replacer._generate_full_name original r)))
  /\ cased_replacement (run_calls calls (Replacer.init g)) original FIRST_NAME
  /\ cased_replacement (run_calls calls (Replacer.init g)) original LAST_NAME
  /\ cased_replacement (run_calls calls (Replacer.init g)) original FULL_NAME.
Proof.
  split; [|split; [|split]].
  - destruct (generate_first_name_spec original r) as [_ [fake [Hg Hr]]].
    exists fake. split; [exact Hg|]. rewrite Hr. apply preserve_case_follows.
  - destruct (generate_last_name_spec original r) as [_ [fake [Hg Hr]]].
    exists fake. split; [exact Hg|]. rewrite Hr. apply preserve_case_follows.
  - destruct (generate_full_name_spec original r) as [_ [fake [Hg Hr]]].
    exists fake. split; [exact Hg|]. rewrite Hr. apply preserve_case_follows.
  - repeat split; now apply reachable_cased.
Qed.

End NameGeneration.

(** * Cross-field name linkage *)

Section SplitFacts.

Lemma split_ws_aux_token (s cur rest : str) :
  existsb is_space s = false ->
  split_ws_aux cur (s ++ rest) = split_ws_aux (rev s ++ cur) rest.
Proof.
  revert cur. induction s as [|c s IH]; intros cur H; simpl in *; [reflexivity|].
  apply orb_false_iff in H as [Hc Hs]. rewrite Hc, IH by exact Hs.
  now rewrite <- app_assoc.
Qed.

Lemma single_token_inv (s : str) :
  single_token s = true -> existsb is_space s = false /\ s <> [].
Proof.
  unfold single_token. intros H. apply andb_true_iff in H as [H1 H2].
  apply negb_true_iff in H1. split; [exact H1|].
  intros ->. discriminate.
Qed.

Lemma rev_not_nil (s : str) : s <> [] -> exists c s', rev s = c :: s'.
Proof.
  intros H. destruct (rev s) as [|c s'] eqn:E; [|eauto].
  apply (f_equal (@rev ascii)) in E. rewrite rev_involutive in E. now subst.
Qed.

Lemma str_split_two_tokens (a b : str) :
  single_token a = true -> single_token b = true ->
  str_split (a ++ lit " " ++ b) = [a; b].
Proof.
  intros Ha Hb.
  apply single_token_inv in Ha as [Ha Ha'], Hb as [Hb Hb'].
  unfold str_split. rewrite split_ws_aux_token by exact Ha.
  rewrite app_nil_r. destruct (rev_not_nil a Ha') as (c & a' & Ea).
  change (lit " " ++ b) with (" "%char :: b). simpl split_ws_aux at 1.
  rewrite Ea. change (is_space " ") with true. cbv iota.
  rewrite <- Ea, rev_involutive. f_equal.
  rewrite <- (app_nil_r b) at 1. rewrite split_ws_aux_token by exact Hb.
  rewrite app_nil_r. destruct (rev_not_nil b Hb') as (d & b' & Eb).
  simpl. rewrite Eb. now rewrite <- Eb, rev_involutive.
Qed.

Lemma forallb_negb_existsb (p : ascii -> bool) (s : str) :
  forallb (fun c => negb (p c)) s = negb (existsb p s).
Proof.
  induction s as [|c s IH]; simpl; [reflexivity|].
  rewrite IH. now destruct (p c).
Qed.

Lemma isupper_alt (s : str) :
  isupper s = negb (existsb is_lower s) && existsb is_upper s.
Proof. unfold isupper. now rewrite forallb_negb_existsb. Qed.

Lemma islower_alt (s : str) :
  islower s = negb (existsb is_upper s) && existsb is_lower s.
Proof. unfold islower. now rewrite forallb_negb_existsb. Qed.

Lemma existsb_spaced (p : ascii -> bool) (a b : str) :
  p " "%char = false ->
  existsb p (a ++ lit " " ++ b) = existsb p a || existsb p b.
Proof.
  intros H. rewrite !existsb_app. change (existsb p (lit " ")) with (p " "%char || false).
  now rewrite H.
Qed.

(** With one case pattern on both sides, casing the joined name is casing
    each half. *)
Lemma preserve_case_join (a b fa fb : str) :
  case_of a = case_of b ->
  Replacer._preserve_case (a ++ lit " " ++ b) (Replacer.join_names fa fb)
  = Replacer._preserve_case a fa ++ lit " " ++ Replacer._preserve_case b fb.
Proof.
  unfold case_of, Replacer._preserve_case, Replacer.join_names.
  rewrite !isupper_alt, !islower_alt.
  rewrite !(existsb_spaced is_lower), !(existsb_spaced is_upper) by reflexivity.
  destruct (existsb is_lower a), (existsb is_upper a),
    (existsb is_lower b), (existsb is_upper b); simpl; intros H;
    try discriminate H; try reflexivity; unfold upper, lower;
    now rewrite !map_app.
Qed.

End SplitFacts.

Section Linkage.
Context {G : Type} {F : Faker G}.
Implicit Types (r : Replacer.t G) (t : PIIType).

Lemma generate_names_kept (v : str) t r :
  names_kept r (snd (Replacer.generate v t r)).
Proof.
  destruct t; simpl.
  - unfold Replacer._generate_email.
    destruct (email (Replacer._faker r)); split; simpl; auto.
  - unfold Replacer._generate_phone.
    destruct (phone_number (Replacer._faker r)).
    repeat match goal with
           | |- context [if ?b then _ else _] => destruct b
           end; split; simpl; auto.
  - apply generate_full_name_spec.
  - apply generate_first_name_spec.
  - apply generate_last_name_spec.
  - unfold Replacer._generate_credit_card.
    destruct (credit_card_number (Replacer._faker r)); split; simpl; auto.
Qed.

Lemma generated_name_kept t (v fake : str) r0 r r' r1 :
  names_kept r r' ->
  (t = FULL_NAME -> (2 <= length (str_split v))%nat) ->
  generated_name t v r0 r fake -> generated_name t v r1 r' fake.
Proof.
  intros [K1 K2] Hlen. destruct t; try (simpl; auto; fail).
  unfold generated_name.
  destruct (Nat.leb_spec 2 (length (str_split v))) as [_|Hlt].
  - intros (f & l & Hf & Hl & ->). exists f, l. auto.
  - specialize (Hlen eq_refl). lia.
Qed.

Lemma get_or_create_consistent (v : str) t r :
  names_consistent r ->
  names_consistent (snd (Replacer.get_or_create_replacement v t r)).
Proof.
  intros Hc. unfold Replacer.get_or_create_replacement.
  destruct (Replacer._cache r !! (v, t)) eqn:E; simpl; [exact Hc|].
  pose proof (generate_cache v t r) as Hcache.
  pose proof (generate_names_kept v t r) as Hkept.
  assert (Hnew : match t with
                 | FIRST_NAME | LAST_NAME | FULL_NAME =>
                     exists fake,
                       generated_name t v r (snd (Replacer.generate v t r)) fake
                       /\ fst (Replacer.generate v t r)
                          = Replacer._preserve_case v fake
                 | _ => True
                 end).
  { destruct t; simpl; auto.
    - apply generate_full_name_spec.
    - apply generate_first_name_spec.
    - apply generate_last_name_spec. }
  destruct (Replacer.generate v t r) as [fake r']; simpl in *.
  intros t0 v0 x0 Hx. simpl in Hx.
  destruct (decide ((v, t) = (v0, t0))) as [Heq|Hne].
  - inversion Heq; subst v0 t0. rewrite lookup_insert_eq in Hx.
    inversion Hx; subst x0.
    destruct t; auto.
    intros Hlen. destruct Hnew as (fk & Hg & ->). exists fk. split; [|reflexivity].
    eapply generated_name_kept; [| |exact Hg]; [split; auto | auto].
  - rewrite lookup_insert_ne in Hx by exact Hne. rewrite Hcache in Hx.
    specialize (Hc t0 v0 x0 Hx).
    destruct t0; auto.
    + intros Hlen. destruct (Hc Hlen) as (fk & Hg & ->). exists fk.
      split; [|reflexivity].
      eapply generated_name_kept; [| |exact Hg]; [exact Hkept | auto].
    + destruct Hc as (fk & Hg & ->). exists fk. split; [|reflexivity].
      eapply generated_name_kept; [| |exact Hg]; [exact Hkept | discriminate].
    + destruct Hc as (fk & Hg & ->). exists fk. split; [|reflexivity].
      eapply generated_name_kept; [| |exact Hg]; [exact Hkept | discriminate].
Qed.

Lemma init_consistent (g : G) : names_consistent (Replacer.init g).
Proof. intros t v x H. simpl in H. rewrite lookup_empty in H. discriminate. Qed.

Lemma run_calls_consistent calls r :
  names_consistent r -> names_consistent (run_calls calls r).
Proof.
  revert r. induction calls as [|[v t] calls IH]; intros r H; simpl; [exact H|].
  apply IH. now apply get_or_create_consistent.
Qed.

(** Three replacements in a row on a consistent instance. *)
Lemma linked_from_consistent r (ka kb : str * PIIType) (a b : str) :
  names_consistent r ->
  single_token a = true -> single_token b = true -> case_of a = case_of b ->
  (ka = (a, FIRST_NAME) /\ kb = (b, LAST_NAME)
   \/ ka = (b, LAST_NAME) /\ kb = (a, FIRST_NAME)) ->
  let r1 := snd (Replacer.get_or_create_replacement ka.1 ka.2 r) in
  let r2 := snd (Replacer.get_or_create_replacement kb.1 kb.2 r1) in
  fst (Replacer.get_or_create_replacement (a ++ lit " " ++ b) FULL_NAME r2)
  = fst (Replacer.get_or_create_replacement a FIRST_NAME r2)
      ++ lit " " ++ fst (Replacer.get_or_create_replacement b LAST_NAME r2).
Proof.
  intros Hc Ha Hb Hcase Hk r1 r2.
  assert (Hc2 : names_consistent r2)
    by (apply get_or_create_consistent, get_or_create_consistent, Hc).
  set (full := a ++ lit " " ++ b).
  set (r3 := snd (Replacer.get_or_create_replacement full FULL_NAME r2)).
  assert (Hc3 : names_consistent r3) by now apply get_or_create_consistent.
  assert (Ha2 : exists xa, Replacer._cache r2 !! (a, FIRST_NAME) = Some xa).
  { destruct Hk as [[-> ->]|[-> ->]]; simpl in *.
    - eexists. apply get_or_create_keeps, get_or_create_stores.
    - eexists. apply get_or_create_stores. }
  assert (Hb2 : exists xb, Replacer._cache r2 !! (b, LAST_NAME) = Some xb).
  { destruct Hk as [[-> ->]|[-> ->]]; simpl in *.
    - eexists. apply get_or_create_stores.
    - eexists. apply get_or_create_keeps, get_or_create_stores. }
  destruct Ha2 as [xa Hxa], Hb2 as [xb Hxb].
  rewrite (get_or_create_hit a FIRST_NAME r2 xa Hxa).
  rewrite (get_or_create_hit b LAST_NAME r2 xb Hxb). simpl.
  pose proof (get_or_create_stores full FULL_NAME r2) as Hfull. fold r3 in Hfull.
  pose proof (Hc3 FIRST_NAME a xa
                (get_or_create_keeps full FULL_NAME r2 _ _ Hxa)) as (fa & Hfa & ->).
  pose proof (Hc3 LAST_NAME b xb
                (get_or_create_keeps full FULL_NAME r2 _ _ Hxb)) as (fb & Hfb & ->).
  pose proof (Hc3 FULL_NAME full _ Hfull) as Hf. simpl in Hfa, Hfb.
  pose proof (str_split_two_tokens a b Ha Hb) as Hsplit. fold full in Hsplit.
  cbv beta iota delta [generated_name] in Hf. rewrite !Hsplit in Hf.
  destruct (Hf (le_n 2)) as (fk & (f' & l' & Hf' & Hl' & ->) & Hx).
  simpl in Hf', Hl'. rewrite Hx. fold r3 in Hfa, Hfb.
  rewrite Hfa in Hf'. rewrite Hfb in Hl'.
  inversion Hf'; inversion Hl'; subst f' l'.
  exact (preserve_case_join a b fa fb Hcase).
Qed.

(** C4. On an instance reached from a fresh Replacer by any calls, for a
    first name and a last name that are single tokens (non-empty, no white
    space) of one case pattern: replacing the first name, then the last
    name, then "first last" as a full name gives the first-name replacement,
    one space and the last-name replacement; and so does the run in which
    the last name is replaced before the first name. *)
Theorem cross_field_name_linkage (g : G) (calls : list (str * PIIType))
    (first last : str) :
  single_token first = true -> single_token last = true ->
  case_of first = case_of last ->
  linked_first_then_last (run_calls calls (Replacer.init g)) first last
  /\ linked_last_then_first (run_calls calls (Replacer.init g)) first last.
Proof.
  intros Ha Hb Hcase.
  assert (Hc : names_consistent (run_calls calls (Replacer.init g)))
    by apply run_calls_consistent, init_consistent.
  set (r := run_calls calls (Replacer.init g)) in *.
  split.
  - unfold linked_first_then_last.
    pose proof (linked_from_consistent r (first, FIRST_NAME) (last, LAST_NAME)
                  first last Hc Ha Hb Hcase (or_introl (conj eq_refl eq_refl))) as H.
    simpl in H.
    pose proof (get_or_create_stores first FIRST_NAME r) as S1.
    destruct (Replacer.get_or_create_replacement first FIRST_NAME r)
      as [fake_first r1]; simpl in *.
    pose proof (get_or_create_stores last LAST_NAME r1) as S2.
    pose proof (get_or_create_keeps last LAST_NAME r1 _ _ S1) as S1'.
    destruct (Replacer.get_or_create_replacement last LAST_NAME r1)
      as [fake_last r2]; simpl in *.
    rewrite (get_or_create_hit _ _ _ _ S1'), (get_or_create_hit _ _ _ _ S2) in H.
    destruct (Replacer.get_or_create_replacement _ FULL_NAME r2). exact H.
  - unfold linked_last_then_first.
    pose proof (linked_from_consistent r (last, LAST_NAME) (first, FIRST_NAME)
                  first last Hc Ha Hb Hcase (or_intror (conj eq_refl eq_refl))) as H.
    simpl in H.
    pose proof (get_or_create_stores last LAST_NAME r) as S1.
    destruct (Replacer.get_or_create_replacement last LAST_NAME r)
      as [fake_last r1]; simpl in *.
    pose proof (get_or_create_stores first FIRST_NAME r1) as S2.
    pose proof (get_or_create_keeps first FIRST_NAME r1 _ _ S1) as S1'.
    destruct (Replacer.get_or_create_replacement first FIRST_NAME r1)
      as [fake_first r2]; simpl in *.
    rewrite (get_or_create_hit _ _ _ _ S1'), (get_or_create_hit _ _ _ _ S2) in H.
    destruct (Replacer.get_or_create_replacement _ FULL_NAME r2). exact H.
Qed.

End Linkage.

Lemma cross_field_name_linkage_witness :
  single_token (lit "John") = true /\ single_token (lit "Doe") = true
  /\ case_of (lit "John") = case_of (lit "Doe")
  /\ linked_first_then_last
       (run_calls [(lit "ann@corp.io", EMAIL)] (Replacer.init 0%nat))
       (lit "John") (lit "Doe")
  /\ linked_last_then_first
       (run_calls [(lit "ann@corp.io", EMAIL)] (Replacer.init 0%nat))
       (lit "John") (lit "Doe").
Proof.
  split; [reflexivity|]. split; [reflexivity|]. split; [reflexivity|].
  apply (cross_field_name_linkage 0%nat [(lit "ann@corp.io", EMAIL)]
           (lit "John") (lit "Doe")); reflexivity.
Defined.

(** A lowercase first name with an uppercase last name: the standalone
    replacements are "michael" and "RIVERA", the full name "john SMITH" has
    neither pattern and is replaced by "Michael Rivera". *)
Lemma linkage_fails_across_case_patterns :
  single_token (lit "john") = true /\ single_token (lit "SMITH") = true
  /\ ~ linked_first_then_last (Replacer.init 0%nat) (lit "john") (lit "SMITH").
Proof.
  split; [reflexivity|]. split; [reflexivity|].
  vm_compute. discriminate.
Qed.

(** * Phone numbers made of digits only *)

Section PhoneDigits.
Context {G : Type} {F : Faker G}.

Lemma is_char_eq (x c : ascii) : is_char x c = true -> c = x.
Proof.
  unfold is_char, code. intros H. apply Nat.eqb_eq in H.
  rewrite <- (ascii_nat_embedding c), <- (ascii_nat_embedding x). now f_equal.
Qed.

Lemma digits_have_no (x : ascii) (s : str) :
  is_digit x = false -> forallb is_digit s = true -> has_char x s = false.
Proof.
  intros Hx. unfold has_char. induction s as [|c s IH]; simpl; [reflexivity|].
  intros H. apply andb_true_iff in H as [Hc Hs]. rewrite (IH Hs), orb_false_r.
  destruct (is_char x c) eqn:E; [|reflexivity].
  apply is_char_eq in E. subst c. congruence.
Qed.

Lemma isdigit_forallb (s : str) : isdigit s = true -> forallb is_digit s = true.
Proof. destruct s; [discriminate | auto]. Qed.

Lemma digits_of_digits (s : str) : forallb is_digit (digits_of s) = true.
Proof.
  unfold digits_of. induction s as [|c s IH]; simpl; [reflexivity|].
  destruct (is_digit c) eqn:E; simpl; rewrite ?E; exact IH.
Qed.

Lemma forallb_firstn (p : ascii -> bool) (n : nat) (s : str) :
  forallb p s = true -> forallb p (firstn n s) = true.
Proof.
  revert n. induction s as [|c s IH]; intros [|n]; simpl; auto.
  intros H. apply andb_true_iff in H as [Hc Hs]. now rewrite Hc, IH.
Qed.

(** C8. For an original made of digits only that is not yet cached,
    [get_or_create_replacement original PHONE] returns the first
    [len(original)] digits of the generated phone number: digits only, of
    length the smaller of the original's length and the number of digits
    generated (nothing is padded). *)
Theorem phone_digits_only_replacement (original : str) (r : Replacer.t G) :
  isdigit original = true ->
  Replacer._cache r !! (original, PHONE) = None ->
  let digits := digits_of (fst (phone_number (Replacer._faker r))) in
  let result := fst (Replacer.get_or_create_replacement original PHONE r) in
  result = firstn (length original) digits
  /\ forallb is_digit result = true
  /\ length result = Nat.min (length original) (length digits).
Proof.
  intros Hd Hmiss digits result.
  assert (Hr : result = firstn (length original) digits).
  { unfold result, Replacer.get_or_create_replacement. rewrite Hmiss.
    simpl. unfold Replacer._generate_phone. unfold digits.
    destruct (phone_number (Replacer._faker r)) as [fake_phone g]; simpl.
    pose proof (isdigit_forallb original Hd) as Hall.
    rewrite (digits_have_no "+" original), (digits_have_no "(" original),
      (digits_have_no "-" original) by (reflexivity || exact Hall).
    simpl. rewrite Hd. simpl. unfold slice. simpl. now rewrite Nat.sub_0_r. }
  rewrite Hr. split; [reflexivity|]. split.
  - apply forallb_firstn, digits_of_digits.
  - apply length_firstn.
Qed.

End PhoneDigits.

Lemma phone_digits_only_replacement_witness :
  isdigit (lit "5551234567") = true
  /\ Replacer._cache (Replacer.init 0%nat) !! (lit "5551234567", PHONE) = None
  /\ fst (Replacer.get_or_create_replacement (lit "5551234567") PHONE
            (Replacer.init 0%nat)) = lit "2125550147".
Proof.
  split; [reflexivity|]. split; [reflexivity|].
  exact (proj1 (phone_digits_only_replacement (lit "5551234567")
                  (Replacer.init 0%nat) eq_refl eq_refl)).
Defined.

(** A 13-digit original while the generator yields "(212)555-0147": the
    replacement is "2125550147", ten digits long. *)
Lemma phone_replacement_shorter_than_original :
  isdigit (lit "5551234567890") = true
  /\ Replacer._cache (Replacer.init 0%nat) !! (lit "5551234567890", PHONE) = None
  /\ length (fst (Replacer.get_or_create_replacement (lit "5551234567890") PHONE
                    (Replacer.init 0%nat)))
     <> length (lit "5551234567890").
Proof.
  split; [reflexivity|]. split; [reflexivity|].
  vm_compute. discriminate.
Qed.

(** * Structure preservation by the walker *)

Section JsonInduction.
Variable P : json -> Prop.
Hypothesis Hnull : P JNull.
Hypothesis Hbool : forall b, P (JBool b).
Hypothesis Hint : forall n, P (JInt n).
Hypothesis Hfloat : forall x, P (JFloat x).
Hypothesis Hstr : forall s, P (JStr s).
Hypothesis Hlist : forall items, Forall P items -> P (JList items).
Hypothesis Hdict :
  forall items, Forall (fun kv => P (snd kv)) items -> P (JDict items).

Lemma json_induction : forall v, P v.
Proof.
  fix IH 1. intros [| b | n | x | s | items | items].
  - exact Hnull.
  - apply Hbool.
  - apply Hint.
  - apply Hfloat.
  - apply Hstr.
  - apply Hlist. induction items as [|v items IHitems]; constructor.
    + apply IH.
    + exact IHitems.
  - apply Hdict. induction items as [|[k v] items IHitems]; constructor.
    + apply IH.
    + exact IHitems.
Qed.

End JsonInduction.

Section Structure.
Context {G : Type} {F : Faker G}.
Implicit Types (st : Sanitizer.t G).

Lemma well_formed_list items :
  well_formed (JList items) <-> Forall well_formed items.
Proof.
  induction items as [|v items IH]; simpl.
  - split; auto.
  - split.
    + intros [Hv Hr]. constructor; [exact Hv | now apply IH].
    + intros H. inversion H; subst. split; [assumption | now apply IH].
Qed.

Lemma well_formed_dict items :
  well_formed (JDict items)
  <-> List.NoDup (map fst items) /\ Forall (fun kv => well_formed (snd kv)) items.
Proof.
  simpl. apply and_iff_compat_l.
  induction items as [|[k v] items IH]; simpl.
  - split; auto.
  - split.
    + intros [Hv Hr]. constructor; [exact Hv | now apply IH].
    + intros H. inversion H; subst. split; [assumption | now apply IH].
Qed.

Lemma string_free_dict items :
  string_free (JDict items) = forallb (fun kv => string_free (snd kv)) items.
Proof.
  simpl. induction items as [|[k v] items IH]; simpl; [reflexivity|].
  now rewrite IH.
Qed.

Lemma dict_set_fresh (d : list (str * json)) (key : str) (value : json) :
  ~ In key (map fst d) -> dict_set d key value = d ++ [(key, value)].
Proof.
  induction d as [|[k v] d IH]; simpl; intros H; [reflexivity|].
  destruct (decide (k = key)) as [->|Hne]; [exfalso; auto|].
  rewrite IH; auto.
Qed.

(** Filling a fresh dict from items with distinct keys, by a function that
    returns each value and the state as they are, rebuilds the items. *)
Lemma walk_items_identity (f : json -> str -> Sanitizer.t G -> json * Sanitizer.t G)
    (items sanitized : list (str * json)) st :
  Forall (fun kv => forall s, f (snd kv) (fst kv) s = (snd kv, s)) items ->
  List.NoDup (map fst (sanitized ++ items)) ->
  Sanitizer.walk_items f items sanitized st = (sanitized ++ items, st).
Proof.
  revert sanitized. induction items as [|[k v] items IH]; intros acc Hf Hnd; simpl.
  - now rewrite app_nil_r.
  - inversion Hf as [|? ? Hkv Hrest]; subst. simpl in Hkv. rewrite Hkv.
    rewrite dict_set_fresh.
    + rewrite IH; [now rewrite <- app_assoc | exact Hrest |].
      now rewrite <- app_assoc.
    + rewrite map_app in Hnd. simpl in Hnd. apply NoDup_remove_2 in Hnd.
      intros Hin. apply Hnd. apply in_or_app. now left.
Qed.

Lemma walk_list_identity (f : json -> Sanitizer.t G -> json * Sanitizer.t G)
    (items : list json) st :
  Forall (fun v => forall s, f v s = (v, s)) items ->
  Sanitizer.walk_list f items st = (items, st).
Proof.
  induction items as [|v items IH]; intros Hf; simpl; [reflexivity|].
  inversion Hf as [|? ? Hv Hrest]; subst. now rewrite Hv, IH.
Qed.

Lemma sanitize_value_identity (value : json) :
  well_formed value -> string_free value = true ->
  forall field_name st,
    Sanitizer.sanitize_value value field_name st = (value, st).
Proof.
  induction value as [| b | n | x | s | items IH | items IH] using json_induction;
    intros Hwf Hsf field_name st; try reflexivity.
  - discriminate Hsf.
  - simpl. rewrite walk_list_identity; [reflexivity|].
    apply well_formed_list in Hwf. simpl in Hsf.
    rewrite forallb_forall in Hsf.
    rewrite List.Forall_forall in *. intros v Hin s. apply IH; auto.
  - simpl Sanitizer.sanitize_value. apply well_formed_dict in Hwf as [Hnd Hwf].
    rewrite string_free_dict, forallb_forall in Hsf.
    rewrite walk_items_identity; [reflexivity| |exact Hnd].
    rewrite List.Forall_forall in *. intros kv Hin s. apply IH; auto.
Qed.

Lemma sanitize_records_identity (records : list json) st :
  Forall plain_record records ->
  Sanitizer.sanitize_records records st = (Ok records, st).
Proof.
  induction records as [|record records IH]; intros H; [reflexivity|].
  inversion H as [|? ? (Hrec & Hwf & Hsf) Hrest]; subst.
  destruct record; try discriminate Hrec. simpl Sanitizer.sanitize_records.
  apply well_formed_dict in Hwf as [Hnd Hwf].
  rewrite string_free_dict, forallb_forall in Hsf.
  rewrite walk_items_identity; [now rewrite IH | | exact Hnd].
  rewrite List.Forall_forall in *. intros kv Hin s.
  apply sanitize_value_identity; auto.
Qed.

(** C5. A well-formed value without string leaves comes back from
    [sanitize_value] equal to itself, keys in the same order and containers
    of the same shape, and so does a list of such records from
    [sanitize_records]; counters and Replacer are left as they were. *)
Theorem structure_is_preserved (value : json) (records : list json)
    (field_name : str) st :
  well_formed value -> string_free value = true ->
  Forall plain_record records ->
  Sanitizer.sanitize_value value field_name st = (value, st)
  /\ Sanitizer.sanitize_records records st = (Ok records, st).
Proof.
  intros Hwf Hsf Hrec. split.
  - now apply sanitize_value_identity.
  - now apply sanitize_records_identity.
Qed.

End Structure.

Lemma sample_record_plain : plain_record sample_record.
Proof.
  split; [reflexivity|]. split; [|reflexivity].
  simpl. repeat split;
    repeat (constructor; [cbv; intuition discriminate|]); constructor.
Defined.

Lemma structure_is_preserved_witness :
  well_formed sample_record /\ string_free sample_record = true
  /\ Forall plain_record [sample_record; JDict []]
  /\ Sanitizer.sanitize_value sample_record (lit "payload") sample_sanitizer
     = (sample_record, sample_sanitizer)
  /\ Sanitizer.sanitize_records [sample_record; JDict []] sample_sanitizer
     = (Ok [sample_record; JDict []], sample_sanitizer).
Proof.
  assert (Hrecs : Forall plain_record [sample_record; JDict []]).
  { constructor; [exact sample_record_plain|]. constructor; [|constructor].
    split; [reflexivity|]. split; [|reflexivity]. simpl. split; constructor. }
  split; [exact (proj1 (proj2 sample_record_plain))|].
  split; [reflexivity|]. split; [exact Hrecs|].
  apply (structure_is_preserved sample_record [sample_record; JDict []]
           (lit "payload") sample_sanitizer).
  - exact (proj1 (proj2 sample_record_plain)).
  - reflexivity.
  - exact Hrecs.
Defined.

(** * Failed runs *)

Section FailedRun.
Context {G : Type} {F : Faker G}.
Implicit Types (st : Sanitizer.t G) (disk : gmap (list ascii) (list ascii)).

Lemma new_JSONParseError_message (message : str) (line column : Z) :
  exists m, m <> [] /\ new_JSONParseError message line column = JSONParseError m.
Proof.
  unfold new_JSONParseError. eexists. split; [|reflexivity].
  destruct message; discriminate.
Qed.

(** [_read_json_file] raises one of the package's two input errors, with a
    message. *)
Lemma read_raises (w : world) (input_path : str) (e : exn) :
  @Sanitizer._read_json_file w input_path = Raise e ->
  exists m, m <> [] /\ (e = FileNotFoundError m \/ e = JSONParseError m).
Proof.
  unfold Sanitizer._read_json_file.
  destruct (path_exists w input_path); simpl;
    [|intros H; inversion H; eexists; split; [|left; reflexivity]; discriminate].
  destruct (path_is_file w input_path); simpl;
    [|intros H; inversion H; eexists; split; [|left; reflexivity]; discriminate].
  destruct (open_and_load w input_path) as [e0|data].
  - destruct e0;
      try (intros H; inversion H; eexists; split; [|left; reflexivity];
           discriminate).
    intros H; inversion H. unfold new_JSONParseError.
    eexists; split; [|right; reflexivity]. discriminate.
  - unfold new_JSONParseError.
    destruct data; intros H; inversion H;
      eexists; (split; [|left; reflexivity]); discriminate.
Qed.

Lemma sanitize_records_raises (records : list json) st st' (e : exn) :
  Sanitizer.sanitize_records records st = (Raise e, st') ->
  exists m, e = AttributeError m.
Proof.
  revert st. induction records as [|record records IH]; intros st; simpl.
  - discriminate.
  - destruct record; try (intros H; inversion H; eauto; fail).
    destruct (Sanitizer.walk_items Sanitizer.sanitize_value items [] st)
      as [d st1].
    destruct (Sanitizer.sanitize_records records st1) as [[rs|e1] st2] eqn:E;
      intros H; inversion H; subst. eapply IH. exact E.
Qed.

Lemma write_raises (w : world) (output_path : str) (data : list json)
    disk disk' (e : exn) :
  @Sanitizer._write_json_file w output_path data disk = (Raise e, disk') ->
  (exists m, m <> [] /\ e = InvalidOutputPathError m)
  /\ (disk' = disk \/ partial_dump w output_path disk disk').
Proof.
  unfold Sanitizer._write_json_file, Sanitizer.write_error.
  destruct (mkdir_parents w output_path) as [e0|] eqn:Em.
  { intros H; inversion H; subst. split; [|now left].
    destruct e0; eexists; (split; [|reflexivity]); discriminate. }
  destruct (open_for_writing w output_path) as [e0|] eqn:Eo.
  { intros H; inversion H; subst. split; [|now left].
    destruct e0; eexists; (split; [|reflexivity]); discriminate. }
  destruct (json_dump w data) as [text|written e0] eqn:Ed;
    intros H; inversion H; subst. split.
  - destruct e0; eexists; (split; [|reflexivity]); discriminate.
  - right. exists data, written, e0. auto.
Qed.

(** What [_read_json_file] returns, in terms of the machine: the records,
    when the path exists, is a file and holds a JSON array that loads; an
    exception in every other case. *)
Lemma read_outcome (w : world) (input_path : str) :
  match @Sanitizer._read_json_file w input_path with
  | Ok records =>
      path_exists w input_path = true /\ path_is_file w input_path = true
      /\ open_and_load w input_path = LoadOk (JList records)
  | Raise _ =>
      path_exists w input_path = false \/ path_is_file w input_path = false
      \/ (exists e, open_and_load w input_path = LoadRaise e)
      \/ (exists root, open_and_load w input_path = LoadOk root
                       /\ is_array root = false)
  end.
Proof.
  unfold Sanitizer._read_json_file.
  destruct (path_exists w input_path); cbn [negb]; [|now left].
  destruct (path_is_file w input_path); cbn [negb]; [|right; now left].
  destruct (open_and_load w input_path) as [e|root].
  - assert (H : exists e0, LoadRaise e = LoadRaise e0) by now exists e.
    destruct e; do 2 right; now left.
  - destruct root;
      try (do 3 right; eexists; split; [reflexivity|reflexivity]).
    now repeat split.
Qed.

(** What [sanitize_records] returns: the sanitized records when every
    element is a JSON object, an exception when one is not. *)
Lemma records_outcome (records : list json) st :
  match fst (Sanitizer.sanitize_records records st) with
  | Ok _ => Forall (fun r => is_record r = true) records
  | Raise _ => Exists (fun r => is_record r = false) records
  end.
Proof.
  revert st. induction records as [|record records IH]; intros st.
  - constructor.
  - destruct record; try (now constructor).
    cbn [Sanitizer.sanitize_records].
    destruct (Sanitizer.walk_items Sanitizer.sanitize_value items [] st)
      as [d st1].
    specialize (IH st1).
    destruct (Sanitizer.sanitize_records records st1) as [[rs|e] st2];
      cbn [fst] in *; [now constructor|now apply Exists_cons_tl].
Qed.

(** C6. A run of [sanitize_file] fails when the input path does not exist
    or is no file, when opening or parsing it raises, when its JSON root
    is no array, when an element of the array is no JSON object, or when
    creating the output directory, opening the output file or dumping
    raises. Every such run returns a result with [success = false], the
    three counters zero and a non-empty error message; the disk is as it
    was before the run, unless the failure came out of [json.dump], in
    which case the output file holds what had been written when the
    exception was raised. And these are all the failures: a run that
    returns [success = false] is one of them. *)
Theorem failed_run_reports_nothing (w : world) (input_path output_path : str)
    st disk :
  let result := (Sanitizer.sanitize_file w input_path output_path st disk).1.1 in
  let disk' := (Sanitizer.sanitize_file w input_path output_path st disk).2 in
  (failing_run w input_path output_path st ->
   success result = false
   /\ records_processed result = 0
   /\ pii_fields_detected result = 0
   /\ pii_replacements_made result = 0
   /\ (exists message, error_message result = Some message /\ message <> [])
   /\ (disk' = disk \/ partial_dump w output_path disk disk'))
  /\ (success result = false -> failing_run w input_path output_path st).
Proof.
  unfold failing_run, sanitized_of, Sanitizer.sanitize_file.
  pose proof (read_outcome w input_path) as Hread.
  destruct (Sanitizer._read_json_file w input_path) as [records|e] eqn:Er.
  2:{ apply read_raises in Er as (m & Hm & [-> | ->]); cbn;
        (split; [intros _; repeat split; auto;
                 eexists; (split; [reflexivity | exact Hm])|]);
        intros _; destruct Hread as [H | [H | [H | H]]]; tauto. }
  destruct Hread as (Hexists & Hfile & Hload).
  set (st0 := Sanitizer.Mk (Sanitizer._detectors st) (Sanitizer._replacer st) 0 0).
  pose proof (records_outcome records st0) as Hrecords.
  destruct (Sanitizer.sanitize_records records st0) as [[sanitized|e] st1] eqn:Es;
    cbn [fst] in Hrecords.
  2:{ apply sanitize_records_raises in Es as (m & ->). cbn. split.
      - intros _. repeat split; auto.
        eexists; split; [reflexivity | discriminate].
      - intros _. do 4 right. exists records. split; [exact Hload|now left]. }
  destruct (Sanitizer._write_json_file w output_path sanitized disk)
    as [[u|e] disk1] eqn:Ew.
  - cbn. split; [|discriminate]. intros Hfail. exfalso.
    unfold Sanitizer._write_json_file in Ew.
    destruct (mkdir_parents w output_path) eqn:Em; [discriminate|].
    destruct (open_for_writing w output_path) eqn:Eo; [discriminate|].
    destruct (json_dump w sanitized) eqn:Ed; [|discriminate].
    destruct Hfail as [H | [H | [(e & H) | [(root & H & Hroot) | H]]]].
    + congruence.
    + congruence.
    + congruence.
    + rewrite Hload in H. inversion H; subst root. discriminate Hroot.
    + destruct H as (records' & H & Hcause).
      rewrite Hload in H. inversion H; subst records'.
      destruct Hcause as [H1 | [H1 | [H1 | (written & e & H1)]]].
      * apply List.Exists_exists in H1 as (r & Hr & Hno).
        rewrite List.Forall_forall in Hrecords. specialize (Hrecords r Hr).
        congruence.
      * now apply H1.
      * now apply H1.
      * rewrite Es in H1. cbn [fst] in H1. congruence.
  - cbn. pose proof Ew as Ew'.
    apply write_raises in Ew as [(m & Hm & ->) Hd]. split.
    + intros _. repeat split; auto. eexists; split; [reflexivity | exact Hm].
    + intros _. do 4 right. exists records. split; [exact Hload|]. right.
      unfold Sanitizer._write_json_file in Ew'.
      destruct (mkdir_parents w output_path); [left; discriminate|].
      destruct (open_for_writing w output_path);
        [right; left; discriminate|].
      destruct (json_dump w sanitized) as [text|written e] eqn:Ed;
        [discriminate|].
      do 2 right. exists written, e. rewrite Es. exact Ed.
Qed.

End FailedRun.

Lemma failed_run_reports_nothing_witness :
  let run := Sanitizer.sanitize_file empty_world (lit "in.json")
               (lit "out.json") sample_sanitizer ∅ in
  failing_run empty_world (lit "in.json") (lit "out.json") sample_sanitizer
  /\ success run.1.1 = false
  /\ records_processed run.1.1 = 0
  /\ pii_fields_detected run.1.1 = 0
  /\ pii_replacements_made run.1.1 = 0
  /\ (exists message, error_message run.1.1 = Some message /\ message <> [])
  /\ (run.2 = ∅ \/ partial_dump empty_world (lit "out.json") ∅ run.2).
Proof.
  assert (Hfail : failing_run empty_world (lit "in.json") (lit "out.json")
                    sample_sanitizer) by (left; reflexivity).
  split; [exact Hfail|].
  exact (proj1 (failed_run_reports_nothing empty_world (lit "in.json")
                  (lit "out.json") sample_sanitizer ∅) Hfail).
Defined.

(** The disk fills up during the dump: the run fails, and the output file,
    absent before the run, now holds the beginning of the sanitized text. *)
Lemma failed_run_leaves_partial_output :
  let run := Sanitizer.sanitize_file full_disk_world (lit "in.json")
               (lit "out.json") sample_sanitizer ∅ in
  success run.1.1 = false
  /\ (∅ : gmap (list ascii) (list ascii)) !! lit "out.json" = None
  /\ run.2 !! lit "out.json" = Some (lit "[").
Proof. vm_compute. repeat split. Qed.

(** * The stable sort *)

Section SortingFacts.
Context {A : Type} (before : A -> A -> bool).

Lemma sort_insert_perm (x : A) (l : list A) :
  Permutation (sort_insert before x l) (x :: l).
Proof.
  induction l as [|y l IH]; simpl; [reflexivity|].
  destruct (before x y); [reflexivity|].
  rewrite IH. apply perm_swap.
Qed.

Lemma stable_sort_perm (l : list A) : Permutation (stable_sort before l) l.
Proof.
  induction l as [|x l IH]; simpl; [reflexivity|].
  rewrite sort_insert_perm. now constructor.
Qed.

Lemma stable_sort_Forall (P : A -> Prop) (l : list A) :
  Forall P l -> Forall P (stable_sort before l).
Proof.
  intros H. eapply Permutation_Forall; [|exact H].
  symmetry. apply stable_sort_perm.
Qed.


Hypothesis before_total : forall x y, before x y = true \/ before y x = true.
Hypothesis before_trans :
  forall x y z, before x y = true -> before y z = true -> before x z = true.

Lemma sort_insert_sorted (x : A) (l : list A) :
  StronglySorted (fun a b => before a b = true) l ->
  StronglySorted (fun a b => before a b = true) (sort_insert before x l).
Proof.
  induction 1 as [|y l Hs IH Hy]; simpl.
  - constructor; constructor.
  - destruct (before x y) eqn:E.
    + constructor; [now constructor|]. constructor; [exact E|].
      eapply List.Forall_impl; [|exact Hy]. intros z Hz. now apply (before_trans x y z).
    + constructor; [exact IH|].
      eapply Permutation_Forall; [symmetry; apply sort_insert_perm|].
      constructor; [|exact Hy].
      destruct (before_total x y) as [H|H]; [congruence | exact H].
Qed.

Lemma stable_sort_sorted (l : list A) :
  StronglySorted (fun a b => before a b = true) (stable_sort before l).
Proof.
  induction l as [|x l IH]; simpl; [constructor|].
  now apply sort_insert_sorted.
Qed.

End SortingFacts.

(** * The matcher stays inside the text *)

Section MatcherFacts.

Lemma backtrack_some (k : nat -> option nat) (i lo n e : nat) :
  backtrack k i lo n = Some e ->
  exists m, (lo <= m <= n)%nat /\ k (i + m)%nat = Some e.
Proof.
  induction n as [|n IH]; simpl.
  - destruct (Nat.ltb_spec 0 lo) as [|Hlo]; [discriminate|].
    destruct (k (i + 0)%nat) eqn:E; [|discriminate].
    intros He; inversion He; subst. exists 0%nat. split; [lia | exact E].
  - destruct (Nat.ltb_spec (S n) lo) as [|Hlo]; [discriminate|].
    destruct (k (i + S n)%nat) eqn:E.
    + intros He; inversion He; subst. exists (S n). split; [lia | exact E].
    + intros He. destruct (IH He) as (m & Hm & Hk).
      exists m. split; [lia | exact Hk].
Qed.

Lemma run_length_le (p : ascii -> bool) (l : str) :
  (run_length p l <= length l)%nat.
Proof. induction l as [|c l IH]; simpl; [lia|]. destruct (p c); simpl; lia. Qed.

Lemma greedy_count_le (p : ascii -> bool) (hi : option nat) (l : str) :
  (greedy_count p hi l <= length l)%nat.
Proof.
  pose proof (run_length_le p l). destruct hi; simpl; lia.
Qed.

(** A successful match hands its continuation an index inside the text, at
    least [min_len r] further. *)
Lemma rmatch_bounds (r : regex) (s : str) :
  forall (i : nat) (k : nat -> option nat) (e : nat),
    (i <= length s)%nat -> rmatch r s i k = Some e ->
    exists j, (i + min_len r <= j <= length s)%nat /\ k j = Some e.
Proof.
  induction r as [p | p lo hi | | r1 IH1 r2 IH2 | r1 IH1 r2 IH2];
    intros i k e Hi H; simpl in *.
  - destruct (nth_error s i) as [c|] eqn:E; [|discriminate].
    destruct (p c); [|discriminate].
    assert (i < length s)%nat by (apply nth_error_Some; congruence).
    exists (S i). split; [lia | exact H].
  - apply backtrack_some in H as (m & Hm & Hk).
    pose proof (greedy_count_le p hi (skipn i s)) as Hg.
    rewrite length_skipn in Hg.
    exists (i + m)%nat. split; [lia | exact Hk].
  - destruct (at_boundary s i); [|discriminate].
    exists i. split; [lia | exact H].
  - apply IH1 in H as (j1 & Hj1 & H); [|exact Hi].
    apply IH2 in H as (j2 & Hj2 & H); [|lia].
    exists j2. split; [lia | exact H].
  - destruct (rmatch r1 s i k) as [e1|] eqn:E1.
    + inversion H; subst. apply IH1 in E1 as (j & Hj & Hk); [|exact Hi].
      exists j. split; [lia | exact Hk].
    + apply IH2 in H as (j & Hj & Hk); [|exact Hi].
      exists j. split; [lia | exact Hk].
Qed.

(** Every match object of the scan covers the text between its two
    indices. *)
Lemma scan_matches (r : regex) (s : str) (fuel p : nat) :
  Forall (fun m => exists a b : nat,
              m = MkMatch (Z.of_nat a) (Z.of_nat b) (slice s a b)
              /\ (a + min_len r <= b <= length s)%nat)
         (scan r s fuel p).
Proof.
  revert p. induction fuel as [|fuel IH]; intros p; simpl; [constructor|].
  destruct (Nat.ltb_spec (length s) p) as [|Hp]; [constructor|].
  destruct (rmatch r s p Some) as [e|] eqn:E; [|apply IH].
  constructor; [|apply IH].
  apply rmatch_bounds in E as (j & Hj & Hk); [|exact Hp].
  inversion Hk; subst. exists p, e. split; [reflexivity | exact Hj].
Qed.

(** The fuel of [finditer] is enough: more of it finds nothing more. *)
Lemma scan_fuel (r : regex) (s : str) (fuel extra p : nat) :
  (length s < p + fuel)%nat ->
  scan r s (fuel + extra) p = scan r s fuel p.
Proof.
  revert p. induction fuel as [|fuel IH]; intros p Hp.
  - simpl. destruct extra as [|extra]; [reflexivity|]. simpl.
    destruct (Nat.ltb_spec (length s) p); [reflexivity | lia].
  - simpl. destruct (Nat.ltb_spec (length s) p) as [|Hle]; [reflexivity|].
    destruct (rmatch r s p Some) as [e|] eqn:E.
    + apply rmatch_bounds in E as (j & Hj & Hk); [|exact Hle].
      inversion Hk; subst. f_equal. apply IH.
      destruct (Nat.eqb_spec e p); lia.
    + apply IH. lia.
Qed.

Lemma finditer_fuel (r : regex) (s : str) (extra : nat) :
  scan r s (S (length s) + extra) 0 = finditer r s.
Proof. apply scan_fuel. lia. Qed.

Lemma finditer_spans (r : regex) (s : str) :
  (0 < min_len r)%nat ->
  Forall (fun m => 0 <= m_start m < m_end m
                   /\ m_end m <= Z.of_nat (length s)
                   /\ m_group m = slice s (Z.to_nat (m_start m)) (Z.to_nat (m_end m)))
         (finditer r s).
Proof.
  intros Hmin. unfold finditer.
  eapply List.Forall_impl; [|apply scan_matches].
  intros m (a & b & -> & Hab). simpl. rewrite !Nat2Z.id.
  split; [lia|]. split; [lia | reflexivity].
Qed.

End MatcherFacts.

(** * Spans of the detections *)

Section Spans.

Lemma detection_of_match_ok (text : str) (t : PIIType) (m : rmatch_obj) :
  0 <= m_start m < m_end m
  /\ m_end m <= Z.of_nat (length text)
  /\ m_group m = slice text (Z.to_nat (m_start m)) (Z.to_nat (m_end m)) ->
  span_ok text (MkDetection t (m_group m) 1%float (m_start m) (m_end m)).
Proof. intros H. exact H. Qed.

Lemma email_spans (text field_name : str) :
  Forall (span_ok text) (EmailDetector.detect text field_name).
Proof.
  unfold EmailDetector.detect. apply Forall_map.
  eapply List.Forall_impl; [|apply finditer_spans; vm_compute; lia].
  intros m Hm. now apply detection_of_match_ok.
Qed.

Lemma card_spans (text field_name : str) :
  Forall (span_ok text) (CreditCardDetector.detect text field_name).
Proof.
  unfold CreditCardDetector.detect. apply Forall_flat_map.
  eapply List.Forall_impl; [|apply (finditer_spans CreditCardDetector.CARD_PATTERN);
                                 vm_compute; lia].
  intros m Hm.
  destruct (negb _); [constructor|]. destruct (negb _); [constructor|].
  constructor; [|constructor]. now apply detection_of_match_ok.
Qed.

Lemma phone_pool_spans (text : str) :
  Forall (fun m => span_ok text (phone_detection m))
         (PhoneDetector.all_matches text).
Proof.
  unfold PhoneDetector.all_matches. apply Forall_flat_map.
  assert (Hpat : Forall (fun r => (0 < min_len r)%nat) PhoneDetector.PHONE_PATTERNS)
    by (repeat constructor; vm_compute; lia).
  eapply List.Forall_impl; [|exact Hpat]. intros r Hr. apply Forall_flat_map.
  eapply List.Forall_impl; [|apply finditer_spans; exact Hr].
  intros m Hm. destruct (_ || _); [constructor|].
  constructor; [|constructor]. exact Hm.
Qed.

Lemma select_Forall (P : DetectionResult -> Prop) (ms : list (Z * Z * str)) :
  Forall (fun m => P (phone_detection m)) ms ->
  forall used results, Forall P results ->
    Forall P (PhoneDetector.select ms used results).
Proof.
  induction 1 as [|[[s e] g] ms Hm Hms IH]; intros used results Hr; simpl.
  - exact Hr.
  - destruct (existsb _ used); [now apply IH|].
    apply IH. apply Forall_app. split; [exact Hr|]. constructor; [exact Hm|constructor].
Qed.

Lemma phone_spans (text field_name : str) :
  Forall (span_ok text) (PhoneDetector.detect text field_name).
Proof.
  unfold PhoneDetector.detect. apply stable_sort_Forall.
  apply select_Forall; [|constructor].
  apply stable_sort_Forall, phone_pool_spans.
Qed.

(** C10. Every detection returned by the email, phone and credit-card
    detectors has [0 <= start_pos < end_pos <= len(text)] and carries as
    [original_value] the slice [text[start_pos:end_pos]]. *)
Theorem detections_carry_their_span (text field_name : str) :
  Forall (span_ok text) (EmailDetector.detect text field_name)
  /\ Forall (span_ok text) (PhoneDetector.detect text field_name)
  /\ Forall (span_ok text) (CreditCardDetector.detect text field_name).
Proof.
  split; [apply email_spans|]. split; [apply phone_spans | apply card_spans].
Qed.

End Spans.

(** * Overlap resolution in the phone detector *)

Section PhoneOverlap.









Lemma kept_or_shadowed_perm (l l' : list DetectionResult) m :
  Permutation l l' -> kept_or_shadowed l m -> kept_or_shadowed l' m.
Proof.
  intros Hp [H|H]; [left | right].
  - eapply Permutation_in; eassumption.
  - apply List.Exists_exists in H as (d & Hd & Ho). apply List.Exists_exists.
    exists d. split; [eapply Permutation_in; eassumption | exact Ho].
Qed.









End PhoneOverlap.

(** * Substring tests around a space *)

Section Substrings.

Lemma prefixb_before_space (sub a b : str) :
  has_char " " sub = false ->
  prefixb sub (a ++ " "%char :: b) = prefixb sub a.
Proof.
  revert a. induction sub as [|x sub IH]; intros a H; [now destruct a|].
  unfold has_char in H. simpl in H. apply orb_false_iff in H as [Hx Hs].
  destruct a as [|y a]; cbn [app prefixb].
  - unfold is_char in Hx. now rewrite Hx.
  - now rewrite (IH a Hs).
Qed.

Lemma contains_cons (sub : str) (y : ascii) (s : str) :
  contains sub (y :: s) = prefixb sub (y :: s) || contains sub s.
Proof.
  unfold contains. simpl find_sub.
  destruct (prefixb sub (y :: s)); [reflexivity|].
  now destruct (find_sub sub s).
Qed.

(** A string without a space that occurs in [a ++ " " ++ b] occurs in [a]
    or in [b]. *)
Lemma contains_around_space (sub a b : str) :
  has_char " " sub = false -> sub <> [] ->
  contains sub (a ++ " "%char :: b) = contains sub a || contains sub b.
Proof.
  intros Hs Hne. induction a as [|y a IH].
  - simpl app. rewrite contains_cons.
    pose proof (prefixb_before_space sub [] b Hs) as Hp. simpl app in Hp.
    rewrite Hp. destruct sub; [contradiction|reflexivity].
  - simpl app. rewrite !contains_cons, IH.
    pose proof (prefixb_before_space sub (y :: a) b Hs) as Hp. simpl app in Hp.
    rewrite Hp. now rewrite orb_assoc.
Qed.

End Substrings.

(** * Right-to-left splicing in the walker *)

Section Splicing.
Context {G : Type} {F : Faker G}.
Implicit Types (st : Sanitizer.t G) (r : Replacer.t G).

Lemma apply_detection_text (d : DetectionResult) (txt : str) st :
  fst (Sanitizer.apply_detection d (txt, st))
  = let fake := fst (Replacer.replace d (Sanitizer._replacer st)) in
    if valid_span d
    then slice_to txt (start_pos d) ++ fake ++ slice_from txt (end_pos d)
    else replace_first txt (original_value d) fake.
Proof.
  unfold Sanitizer.apply_detection, valid_span.
  now destruct (Replacer.replace d (Sanitizer._replacer st)).
Qed.

Lemma by_start_desc_sorted (l : list DetectionResult) :
  StronglySorted (fun a b => start_pos b <= start_pos a)
    (stable_sort Sanitizer.by_start_desc l).
Proof.
  assert (Hs : StronglySorted (fun a b => Sanitizer.by_start_desc a b = true)
                 (stable_sort Sanitizer.by_start_desc l)).
  { apply stable_sort_sorted.
    - intros x y. unfold Sanitizer.by_start_desc.
      destruct (Z.leb_spec (start_pos y) (start_pos x)),
        (Z.leb_spec (start_pos x) (start_pos y)); auto; lia.
    - intros x y z. unfold Sanitizer.by_start_desc. rewrite !Z.leb_le. lia. }
  induction Hs as [|d l' Hs IH Hd]; constructor; [exact IH|].
  eapply List.Forall_impl; [|exact Hd]. intros b Hb. now apply Z.leb_le.
Qed.

Lemma contact_detections :
  Sanitizer.all_detections [EmailDetector.detect; PhoneDetector.detect]
    contact_text []
  = [contact_email; contact_phone].
Proof. vm_compute. reflexivity. Qed.

(** The example, for any Replacer: the phone number is replaced first, the
    e-mail address second, each at its span. *)
Lemma contact_sanitized r (fields made : Z) :
  let st := Sanitizer.Mk [EmailDetector.detect; PhoneDetector.detect] r
              fields made in
  let fake_phone := fst (Replacer.replace contact_phone r) in
  let r1 := snd (Replacer.replace contact_phone r) in
  let fake_email := fst (Replacer.replace contact_email r1) in
  let r2 := snd (Replacer.replace contact_email r1) in
  Sanitizer._sanitize_string contact_text [] st
  = (lit "Contact " ++ fake_email ++ lit " or " ++ fake_phone,
     Sanitizer.Mk [EmailDetector.detect; PhoneDetector.detect] r2
       (fields + 1) (made + 2)).
Proof.
  intros st fake_phone r1 fake_email r2.
  subst st fake_phone r1 fake_email r2.
  unfold Sanitizer._sanitize_string. cbn [Sanitizer._detectors].
  rewrite contact_detections.
  change (stable_sort Sanitizer.by_start_desc [contact_email; contact_phone])
    with [contact_phone; contact_email].
  cbn [fold_left]. unfold Sanitizer.apply_detection.
  cbn [Sanitizer._replacer Sanitizer._detectors Sanitizer._pii_fields_detected
       Sanitizer._pii_replacements_made].
  destruct (Replacer.replace contact_phone r) as [fp r1].
  cbn [fst snd Sanitizer._replacer Sanitizer._detectors
       Sanitizer._pii_fields_detected Sanitizer._pii_replacements_made].
  destruct (Replacer.replace contact_email r1) as [fe r2].
  simpl. rewrite app_nil_r. do 2 f_equal. lia.
Qed.

(** The loop is the text steps over the replacements asked in order. *)
Lemma fold_apply_detection (ds : list DetectionResult) (txt : str) st :
  fold_left (fun acc d => Sanitizer.apply_detection d acc) ds (txt, st)
  = (fold_left text_step
       (combine ds (fst (replacements ds (Sanitizer._replacer st)))) txt,
     Sanitizer.Mk (Sanitizer._detectors st)
       (snd (replacements ds (Sanitizer._replacer st)))
       (Sanitizer._pii_fields_detected st)
       (Sanitizer._pii_replacements_made st + Z.of_nat (length ds))).
Proof.
  revert txt st. induction ds as [|d ds IH]; intros txt st.
  - simpl. destruct st; simpl. now rewrite Z.add_0_r.
  - cbn [fold_left replacements]. unfold Sanitizer.apply_detection at 2.
    destruct (Replacer.replace d (Sanitizer._replacer st)) as [fake r1].
    rewrite IH. cbn [Sanitizer._replacer Sanitizer._detectors
                     Sanitizer._pii_fields_detected
                     Sanitizer._pii_replacements_made].
    destruct (replacements ds r1) as [fakes r2]. cbn [fst snd combine fold_left].
    f_equal. f_equal. cbn [length]. rewrite Nat2Z.inj_succ. lia.
Qed.

(** Written right to left over spans that follow one another without
    overlap, the replacements land on the spans of the original text. *)
Lemma splices_land_on_their_spans (text : str)
    (asc : list (DetectionResult * str)) :
  forall pos, 0 <= pos -> spans_in_order text pos asc ->
    fold_left text_step (rev asc) text
    = slice_to text pos ++ substituted text pos asc.
Proof.
  induction asc as [|[d fake] asc IH]; intros pos Hpos Hord; simpl in *.
  - unfold slice_to, slice_from. now rewrite firstn_skipn.
  - destruct Hord as [Hd Hord]. rewrite fold_left_app. simpl fold_left.
    rewrite (IH (end_pos d)) by (lia || exact Hord).
    unfold text_step, valid_span.
    replace (start_pos d >=? 0) with true by (symmetry; apply Z.geb_le; lia).
    replace (end_pos d >? start_pos d) with true
      by (symmetry; apply Z.gtb_lt; lia).
    simpl andb. cbv iota.
    assert (Hend : end_pos d <= Z.of_nat (length text)).
    { clear -Hord Hd. revert Hord. generalize (end_pos d). clear.
      induction asc as [|[d' f'] asc IH]; simpl; intros z H; [exact H|].
      destruct H as [H1 H2]. apply IH in H2. lia. }
    unfold slice_to, slice_from, slice.
    assert (Hlen : length (firstn (Z.to_nat (end_pos d)) text) = Z.to_nat (end_pos d))
      by (rewrite length_firstn; lia).
    rewrite firstn_app, Hlen, firstn_firstn.
    replace (Z.to_nat (start_pos d) - Z.to_nat (end_pos d))%nat with 0%nat by lia.
    replace (Nat.min (Z.to_nat (start_pos d)) (Z.to_nat (end_pos d)))
      with (Z.to_nat (start_pos d)) by lia.
    simpl firstn at 2. rewrite app_nil_r.
    rewrite skipn_app, Hlen, Nat.sub_diag, skipn_all2 by lia. simpl.
    rewrite <- (firstn_skipn (Z.to_nat pos) (firstn (Z.to_nat (start_pos d)) text))
      at 1.
    rewrite firstn_firstn.
    replace (Nat.min (Z.to_nat pos) (Z.to_nat (start_pos d)))
      with (Z.to_nat pos) by lia.
    rewrite <- app_assoc. f_equal. f_equal.
    rewrite skipn_firstn_comm. reflexivity.
Qed.

(** The walker's loop over detections whose spans follow one another
    without overlap returns the text with every span replaced. *)
Lemma walker_output_is_substitution (text : str) (ds : list DetectionResult) st :
  let fakes := fst (replacements ds (Sanitizer._replacer st)) in
  spans_in_order text 0 (rev (combine ds fakes)) ->
  fst (fold_left (fun acc d => Sanitizer.apply_detection d acc) ds (text, st))
  = substituted text 0 (rev (combine ds fakes)).
Proof.
  intros fakes Hord. rewrite fold_apply_detection. cbn [fst]. fold fakes.
  rewrite <- (rev_involutive (combine ds fakes)) at 1.
  now rewrite (splices_land_on_their_spans text _ 0) by (lia || exact Hord).
Qed.

(** C9. The detections of all detectors are processed in descending order
    of [start_pos]; each turn writes its replacement over the span
    [start_pos, end_pos) when [start_pos >= 0] and [end_pos > start_pos] and
    otherwise replaces the first occurrence of the original value; when the
    spans follow one another inside the text without overlap, the result is
    the text with every span replaced by its replacement.  For the
    text "Contact john@example.com or 555-123-4567" and the email and phone
    detectors there are two detections and the result is "Contact ", the
    e-mail replacement, " or ", the phone replacement; when neither
    replacement contains an original value, the result contains none. *)
Theorem walker_splices_right_to_left (detectors : list Detector)
    (text field_name : str) st r (fields made : Z) :
  let fake_phone := fst (Replacer.replace contact_phone r) in
  let fake_email :=
    fst (Replacer.replace contact_email (snd (Replacer.replace contact_phone r))) in
  contains (original_value contact_email) fake_email = false ->
  contains (original_value contact_email) fake_phone = false ->
  contains (original_value contact_phone) fake_email = false ->
  contains (original_value contact_phone) fake_phone = false ->
  let detections := Sanitizer.all_detections detectors text field_name in
  let ordered := stable_sort Sanitizer.by_start_desc detections in
  let counted :=
    Sanitizer.Mk (Sanitizer._detectors st) (Sanitizer._replacer st)
      (Sanitizer._pii_fields_detected st + 1) (Sanitizer._pii_replacements_made st) in
  let example :=
    Sanitizer._sanitize_string contact_text []
      (Sanitizer.Mk [EmailDetector.detect; PhoneDetector.detect] r
         fields made) in
  Permutation ordered detections
  /\ StronglySorted (fun a b => start_pos b <= start_pos a) ordered
  /\ (Sanitizer._detectors st = detectors ->
      Sanitizer._sanitize_string text field_name st
      = match detections with
        | [] => (text, st)
        | _ => fold_left (fun acc d => Sanitizer.apply_detection d acc)
                 ordered (text, counted)
        end)
  /\ (forall d txt s,
        fst (Sanitizer.apply_detection d (txt, s))
        = if valid_span d
          then slice_to txt (start_pos d)
                 ++ fst (Replacer.replace d (Sanitizer._replacer s))
                 ++ slice_from txt (end_pos d)
          else replace_first txt (original_value d)
                 (fst (Replacer.replace d (Sanitizer._replacer s))))
  /\ (let spliced :=
        rev (combine ordered
               (fst (replacements ordered (Sanitizer._replacer counted)))) in
      spans_in_order text 0 spliced ->
      fst (fold_left (fun acc d => Sanitizer.apply_detection d acc)
             ordered (text, counted))
      = substituted text 0 spliced)
  /\ Sanitizer.all_detections [EmailDetector.detect; PhoneDetector.detect]
       contact_text []
     = [contact_email; contact_phone]
  /\ fst example = lit "Contact " ++ fake_email ++ lit " or " ++ fake_phone
  /\ Sanitizer._pii_fields_detected (snd example) = fields + 1
  /\ Sanitizer._pii_replacements_made (snd example) = made + 2
  /\ contains (original_value contact_email) (fst example) = false
  /\ contains (original_value contact_phone) (fst example) = false.
Proof.
  intros fake_phone fake_email He1 He2 Hp1 Hp2 detections ordered counted example.
  split; [apply stable_sort_perm|]. split; [apply by_start_desc_sorted|].
  split.
  { intros <-. unfold Sanitizer._sanitize_string. fold detections.
    destruct detections; reflexivity. }
  split; [intros d txt s; apply apply_detection_text|].
  split; [apply (walker_output_is_substitution text ordered counted)|].
  split; [apply contact_detections|].
  pose proof (contact_sanitized r fields made) as Hex. simpl in Hex.
  fold fake_phone in Hex. fold fake_email in Hex.
  unfold example. rewrite Hex. cbn [fst snd Sanitizer._pii_fields_detected
                                     Sanitizer._pii_replacements_made].
  split; [reflexivity|]. split; [reflexivity|]. split; [reflexivity|].
  split.
  - change (contains (original_value contact_email)
              (lit "Contact" ++ " "%char ::
                 (fake_email ++ " "%char :: (lit "or" ++ " "%char :: fake_phone)))
            = false).
    rewrite !contains_around_space by (reflexivity || discriminate).
    rewrite He1, He2. reflexivity.
  - change (contains (original_value contact_phone)
              (lit "Contact" ++ " "%char ::
                 (fake_email ++ " "%char :: (lit "or" ++ " "%char :: fake_phone)))
            = false).
    rewrite !contains_around_space by (reflexivity || discriminate).
    rewrite Hp1, Hp2. reflexivity.
Qed.

End Splicing.

Lemma walker_splices_right_to_left_witness :
  let r := Replacer.init 0%nat in
  let out :=
    fst (Sanitizer._sanitize_string contact_text []
           (Sanitizer.Mk [EmailDetector.detect; PhoneDetector.detect] r 0 0)) in
  contains (lit "john@example.com") (lit "kevin52@example.net") = false
  /\ contains (lit "john@example.com") (lit "212-555-0147") = false
  /\ contains (lit "555-123-4567") (lit "kevin52@example.net") = false
  /\ contains (lit "555-123-4567") (lit "212-555-0147") = false
  /\ out = lit "Contact kevin52@example.net or 212-555-0147"
  /\ contains (lit "john@example.com") out = false
  /\ contains (lit "555-123-4567") out = false.
Proof.
  intros r out.
  destruct (walker_splices_right_to_left
              [EmailDetector.detect; PhoneDetector.detect] contact_text []
              (Sanitizer.Mk [EmailDetector.detect; PhoneDetector.detect] r 0 0)
              r 0 0)
    as (_ & _ & _ & _ & _ & _ & Hout & _ & _ & He & Hp);
    try (vm_compute; reflexivity).
  do 4 (split; [vm_compute; reflexivity|]).
  split; [unfold out; rewrite Hout; vm_compute; reflexivity|].
  split; [exact He | exact Hp].
Defined.

(** The generator yields "555.123.4567": written in the dash style of the
    original it is the original phone number itself, which the sanitized
    string then contains. *)
Lemma walker_can_write_an_original_back :
  let out :=
    fst (Sanitizer._sanitize_string contact_text []
           (Sanitizer.Mk [EmailDetector.detect; PhoneDetector.detect]
              (Replacer.init 1%nat) 0 0)) in
  length (Sanitizer.all_detections [EmailDetector.detect; PhoneDetector.detect]
            contact_text []) = 2%nat
  /\ out = lit "Contact alice.martin@example.org or 555-123-4567"
  /\ contains (lit "555-123-4567") out = true.
Proof. vm_compute. repeat split. Qed.

(** * Credit-card numbers *)

(** C2. The Luhn check accepts "4532015112830366" and rejects
    "4532015112830367"; the detector reports the first with confidence 1.0
    and not the second.  The 13-digit number "4222222222222" and the
    14-digit number "30569309025904" both pass the Luhn check, and the
    detector returns nothing for either: the pattern needs 15 digits. *)
Theorem card_of_13_digits_is_missed (field_name : str) :
  CreditCardDetector._luhn_check (lit "4532015112830366") = true
  /\ CreditCardDetector.detect (lit "4532015112830366") field_name
     = [MkDetection CREDIT_CARD (lit "4532015112830366") 1%float 0 16]
  /\ CreditCardDetector._luhn_check (lit "4532015112830367") = false
  /\ CreditCardDetector.detect (lit "4532015112830367") field_name = []
  /\ CreditCardDetector._luhn_check (lit "4222222222222") = true
  /\ CreditCardDetector.detect (lit "4222222222222") field_name = []
  /\ CreditCardDetector._luhn_check (lit "30569309025904") = true
  /\ CreditCardDetector.detect (lit "30569309025904") field_name = [].
Proof. repeat split; vm_compute; reflexivity. Qed.

(** * The matcher sees a text through its character classes *)

Section Classes.
Variable R : ascii -> ascii -> Prop.
Hypothesis R_word : forall c c', R c c' -> is_word c = is_word c'.

Lemma nth_error_related (s s' : str) (i : nat) :
  Forall2 R s s' ->
  match nth_error s i, nth_error s' i with
  | Some c, Some c' => R c c'
  | None, None => True
  | _, _ => False
  end.
Proof.
  intros H. revert i. induction H as [|c c' s s' Hc Hs IH]; intros [|i]; simpl; auto.
  apply IH.
Qed.

Lemma skipn_related (s s' : str) (i : nat) :
  Forall2 R s s' -> Forall2 R (skipn i s) (skipn i s').
Proof.
  intros H. revert i. induction H as [|c c' s s' Hc Hs IH]; intros [|i]; simpl;
    auto; constructor; auto.
Qed.

Lemma run_length_related (p : ascii -> bool) (s s' : str) :
  (forall c c', R c c' -> p c = p c') ->
  Forall2 R s s' -> run_length p s = run_length p s'.
Proof.
  intros Hp. induction 1 as [|c c' s s' Hc Hs IH]; simpl; [reflexivity|].
  rewrite (Hp c c' Hc), IH. reflexivity.
Qed.

Lemma word_at_related (s s' : str) (i : nat) :
  Forall2 R s s' -> word_at s i = word_at s' i.
Proof.
  intros H. unfold word_at. pose proof (nth_error_related s s' i H) as Hn.
  destruct (nth_error s i), (nth_error s' i); try contradiction; auto.
Qed.

Lemma backtrack_ext (k k' : nat -> option nat) (i lo n : nat) :
  (forall j, k j = k' j) -> backtrack k i lo n = backtrack k' i lo n.
Proof.
  intros Hk. induction n as [|n IH]; simpl; rewrite Hk; [reflexivity|].
  now rewrite IH.
Qed.

(** Two texts that are related character by character are matched alike. *)
Lemma rmatch_related (r : regex) (s s' : str) :
  Forall2 R s s' -> respects R r ->
  forall (i : nat) (k k' : nat -> option nat),
    (forall j, k j = k' j) -> rmatch r s i k = rmatch r s' i k'.
Proof.
  intros Hs. induction r as [p | p lo hi | | r1 IH1 r2 IH2 | r1 IH1 r2 IH2];
    intros Hr i k k' Hk; simpl in *.
  - pose proof (nth_error_related s s' i Hs) as Hn.
    destruct (nth_error s i) as [c|], (nth_error s' i) as [c'|];
      try contradiction; [|reflexivity].
    rewrite (Hr c c' Hn). destruct (p c'); auto.
  - unfold greedy_count.
    rewrite (run_length_related p (skipn i s) (skipn i s') Hr (skipn_related s s' i Hs)).
    now apply backtrack_ext.
  - unfold at_boundary. rewrite (word_at_related s s' i Hs).
    destruct i as [|i]; [|rewrite (word_at_related s s' i Hs)];
      destruct (xorb _ _); auto.
  - destruct Hr as [Hr1 Hr2]. apply IH1; [exact Hr1|].
    intros j. now apply IH2.
  - destruct Hr as [Hr1 Hr2].
    rewrite (IH1 Hr1 i k k' Hk), (IH2 Hr2 i k k' Hk). reflexivity.
Qed.

Lemma scan_related (r : regex) (s s' : str) (fuel p : nat) :
  Forall2 R s s' -> respects R r ->
  map m_span (scan r s fuel p) = map m_span (scan r s' fuel p).
Proof.
  intros Hs Hr. revert p. induction fuel as [|fuel IH]; intros p; simpl;
    [reflexivity|].
  rewrite <- (Forall2_length _ _ _ Hs).
  destruct (Nat.ltb (length s) p); [reflexivity|].
  rewrite <- (rmatch_related r s s' Hs Hr p Some Some (fun j => eq_refl)).
  destruct (rmatch r s p Some) as [e|]; simpl; [|apply IH].
  now rewrite IH.
Qed.

End Classes.

(** * Runs of digits in front of the card pattern *)

Section CardRuns.

Lemma digit_is_word c : is_digit c = true -> is_word c = true.
Proof. destruct c as [[] [] [] [] [] [] [] []]; intros H; (discriminate H || reflexivity). Qed.

Lemma digit_not_sep c : is_digit c = true -> CreditCardDetector.sep c = false.
Proof. destruct c as [[] [] [] [] [] [] [] []]; intros H; (discriminate H || reflexivity). Qed.

Lemma card_pattern_respects : respects both_digits CreditCardDetector.CARD_PATTERN.
Proof.
  assert (Hd : forall c c', both_digits c c' -> is_digit c = is_digit c')
    by (intros c c' [H1 H2]; congruence).
  assert (Hs : forall c c', both_digits c c' ->
                            CreditCardDetector.sep c = CreditCardDetector.sep c')
    by (intros c c' [H1 H2]; now rewrite !digit_not_sep).
  simpl. repeat split; assumption.
Qed.

Lemma digits_related (s : str) :
  forallb is_digit s = true ->
  Forall2 both_digits s (repeat "0"%char (length s)).
Proof.
  induction s as [|c s IH]; simpl; intros H; constructor.
  - apply andb_true_iff in H as [Hc _]. split; [exact Hc | reflexivity].
  - apply IH. now apply andb_true_iff in H as [_ Hs].
Qed.

(** Where the pattern matches in a text of 13 to 19 digits: the whole text
    from 15 digits on, nowhere below. *)
Lemma card_pattern_on_run (s : str) :
  forallb is_digit s = true -> (13 <= length s <= 19)%nat ->
  map m_span (finditer CreditCardDetector.CARD_PATTERN s)
  = if (15 <=? length s)%nat then [(0, Z.of_nat (length s))] else [].
Proof.
  intros Hd Hlen. unfold finditer.
  rewrite (scan_related both_digits
             (fun c c' H => eq_trans (digit_is_word c (proj1 H))
                              (eq_sym (digit_is_word c' (proj2 H))))
             _ s (repeat "0"%char (length s)) _ _
             (digits_related s Hd) card_pattern_respects).
  assert (Hn : In (length s) [13; 14; 15; 16; 17; 18; 19]%nat) by (simpl; lia).
  simpl in Hn.
  repeat (destruct Hn as [<-|Hn]; [vm_compute; reflexivity|]).
  contradiction.
Qed.

Lemma single_match (r : regex) (s : str) (n : nat) :
  map m_span (finditer r s) = [(0, Z.of_nat n)] ->
  finditer r s = [MkMatch 0 (Z.of_nat n) (slice s 0 n)].
Proof.
  unfold finditer. pose proof (scan_matches r s (S (length s)) 0) as H.
  destruct (scan r s (S (length s)) 0) as [|m [|m' l]]; try discriminate.
  inversion H as [|? ? (a & b & -> & _) _]; subst.
  unfold m_span. simpl. intros E. inversion E as [[Ha Hb]].
  apply (Nat2Z.inj a 0) in Ha. apply Nat2Z.inj in Hb. now subst.
Qed.

Lemma strip_separators_digits (s : str) :
  forallb is_digit s = true -> strip_separators s = s.
Proof.
  unfold strip_separators. induction s as [|c s IH]; simpl; [reflexivity|].
  intros H. apply andb_true_iff in H as [Hc Hs].
  pose proof (digit_not_sep c Hc) as Hsep. unfold CreditCardDetector.sep in Hsep.
  rewrite Hsep. simpl. now rewrite IH.
Qed.

Lemma double_odd_terms (l : str) (i : nat) (pre : str) :
  length pre = i ->
  CreditCardDetector.double_odd i (map digit_value l)
  = map (luhn_term (pre ++ l)) (seq i (length l)).
Proof.
  revert i pre. induction l as [|c l IH]; intros i pre Hi; simpl; [reflexivity|].
  f_equal.
  - unfold luhn_term. rewrite app_nth2 by lia.
    rewrite Hi, Nat.sub_diag. reflexivity.
  - rewrite (IH (S i) (pre ++ [c])).
    + now rewrite <- app_assoc.
    + rewrite length_app. simpl. lia.
Qed.

Lemma sum_fold_right (l : list Z) :
  CreditCardDetector.sum l = fold_right Z.add 0 l.
Proof.
  unfold CreditCardDetector.sum.
  assert (H : forall a, fold_left Z.add l a = a + fold_right Z.add 0 l).
  { induction l as [|x l IH]; intros a; simpl; [lia|]. rewrite IH. lia. }
  now rewrite H.
Qed.

(** On a string of digits the check of the detector is the checksum of the
    specification. *)
Lemma luhn_check_is_luhn_valid (digits : str) :
  isdigit digits = true ->
  CreditCardDetector._luhn_check digits = luhn_valid digits.
Proof.
  intros Hd. unfold CreditCardDetector._luhn_check, luhn_valid. rewrite Hd.
  cbn [negb]. rewrite sum_fold_right.
  now rewrite (double_odd_terms (rev digits) 0 []).
Qed.

(** What the detector does with a text that is one run of 13 to 19 digits:
    from 15 digits on the run is reported exactly when its Luhn checksum
    holds; a run of 13 or 14 digits is never reported. *)
Lemma card_run_detection (text field_name : str) :
  forallb is_digit text = true -> (13 <= length text <= 19)%nat ->
  CreditCardDetector.detect text field_name
  = if (15 <=? length text)%nat && CreditCardDetector._luhn_check text
    then [MkDetection CREDIT_CARD text 1%float 0 (Z.of_nat (length text))]
    else [].
Proof.
  intros Hd Hlen. unfold CreditCardDetector.detect.
  pose proof (card_pattern_on_run text Hd Hlen) as Hspan.
  destruct (Nat.leb_spec 15 (length text)) as [H15|H15]; simpl andb.
  - apply single_match in Hspan. rewrite Hspan.
    assert (Hslice : slice text 0 (length text) = text)
      by (unfold slice; rewrite Nat.sub_0_r; apply firstn_all).
    rewrite Hslice. cbn [flat_map m_group m_start m_end].
    rewrite (strip_separators_digits text Hd).
    replace ((13 <=? Z.of_nat (length text)) && (Z.of_nat (length text) <=? 19))
      with true by (symmetry; apply andb_true_iff; split; apply Z.leb_le; lia).
    cbn [negb]. destruct (CreditCardDetector._luhn_check text); reflexivity.
  - destruct (finditer CreditCardDetector.CARD_PATTERN text); [reflexivity|].
    discriminate Hspan.
Qed.

End CardRuns.


(** * The name detector *)

Section NameDetectorFacts.

Lemma char_lower_upper c : char_lower (char_upper c) = char_lower c.
Proof. destruct c as [[] [] [] [] [] [] [] []]; reflexivity. Qed.

Lemma char_lower_lower c : char_lower (char_lower c) = char_lower c.
Proof. destruct c as [[] [] [] [] [] [] [] []]; reflexivity. Qed.

Lemma char_upper_lower c : char_upper (char_lower c) = char_upper c.
Proof. destruct c as [[] [] [] [] [] [] [] []]; reflexivity. Qed.

Lemma char_upper_upper c : char_upper (char_upper c) = char_upper c.
Proof. destruct c as [[] [] [] [] [] [] [] []]; reflexivity. Qed.

Lemma lower_upper (s : str) : lower (upper s) = lower s.
Proof.
  unfold lower, upper. rewrite map_map. apply map_ext. apply char_lower_upper.
Qed.

Lemma lower_lower (s : str) : lower (lower s) = lower s.
Proof.
  unfold lower. rewrite map_map. apply map_ext. apply char_lower_lower.
Qed.

Lemma field_lower_joined (x : ascii) (a b : str) :
  x = "_"%char \/ x = "-"%char ->
  NameDetector.field_lower (a ++ x :: b) = NameDetector.field_lower (a ++ b).
Proof.
  intros Hx. unfold NameDetector.field_lower, remove_char, lower.
  rewrite !map_app, !List.filter_app. f_equal.
  destruct Hx as [-> | ->]; reflexivity.
Qed.

Lemma determine_by_field_lower (name_text f f' : str) :
  NameDetector.field_lower f = NameDetector.field_lower f' ->
  NameDetector._determine_name_type name_text f
  = NameDetector._determine_name_type name_text f'.
Proof.
  intros H. unfold NameDetector._determine_name_type, NameDetector.hinted.
  now rewrite H.
Qed.

(** X1. For field names of ASCII characters, the type given to a name
    depends on the field name only up to the case of its letters and up to
    underscores and dashes: upper-casing or lower-casing the field name,
    or putting a "_" or a "-" anywhere into it, leaves the type as it
    was. *)
Theorem name_hints_ignore_case_and_separators (name_text f a b : str) :
  is_ascii f = true -> is_ascii a = true -> is_ascii b = true ->
  NameDetector._determine_name_type name_text (upper f)
  = NameDetector._determine_name_type name_text f
  /\ NameDetector._determine_name_type name_text (lower f)
     = NameDetector._determine_name_type name_text f
  /\ NameDetector._determine_name_type name_text (a ++ lit "_" ++ b)
     = NameDetector._determine_name_type name_text (a ++ b)
  /\ NameDetector._determine_name_type name_text (a ++ lit "-" ++ b)
     = NameDetector._determine_name_type name_text (a ++ b).
Proof.
  intros _ _ _.
  split; [|split; [|split]]; apply determine_by_field_lower.
  - unfold NameDetector.field_lower. now rewrite lower_upper.
  - unfold NameDetector.field_lower. now rewrite lower_lower.
  - apply (field_lower_joined "_"). now left.
  - apply (field_lower_joined "-"). now right.
Qed.

Lemma name_hints_ignore_case_and_separators_witness :
  is_ascii (lit "Surname") = true /\ is_ascii (lit "last") = true
  /\ is_ascii (lit "name") = true
  /\ NameDetector._determine_name_type (lit "Doe") (lit "SURNAME") = LAST_NAME
  /\ NameDetector._determine_name_type (lit "Doe") (lit "last_name")
     = LAST_NAME
  /\ NameDetector._determine_name_type (lit "Doe") (lit "last-name")
     = LAST_NAME.
Proof.
  destruct (name_hints_ignore_case_and_separators (lit "Doe") (lit "Surname")
              (lit "last") (lit "name") eq_refl eq_refl eq_refl)
    as (Hupper & _ & Hunderscore & Hdash).
  split; [reflexivity|]. split; [reflexivity|]. split; [reflexivity|].
  split; [exact Hupper|]. split; [exact Hunderscore|exact Hdash].
Defined.

Lemma determine_is_name_type (name_text field_name : str) :
  is_name_type (NameDetector._determine_name_type name_text field_name) = true.
Proof.
  unfold NameDetector._determine_name_type.
  repeat match goal with
         | |- context [if ?b then _ else _] => destruct b
         end; reflexivity.
Qed.

Lemma hinted_In (hints : list str) (field_name : str) :
  NameDetector.hinted hints field_name = true <->
  In (NameDetector.field_lower field_name) hints.
Proof.
  unfold NameDetector.hinted, str_eqb. rewrite existsb_exists. split.
  - intros (hint & Hin & Heq). apply bool_decide_eq_true in Heq. now subst.
  - intros Hin. exists (NameDetector.field_lower field_name).
    split; [exact Hin|]. now apply bool_decide_eq_true.
Qed.

(** No field name is a hint of two kinds. *)
Lemma hints_exclusive (field_name : str) :
  (NameDetector.hinted NameDetector.full_name_hints field_name = true ->
   NameDetector.hinted NameDetector.first_name_hints field_name = false
   /\ NameDetector.hinted NameDetector.last_name_hints field_name = false)
  /\ (NameDetector.hinted NameDetector.first_name_hints field_name = true ->
      NameDetector.hinted NameDetector.last_name_hints field_name = false).
Proof.
  split; intros H; apply hinted_In in H; unfold NameDetector.hinted;
    cbn [NameDetector.full_name_hints NameDetector.first_name_hints In] in H;
    repeat (destruct H as [<- | H]; [vm_compute; auto|]); contradiction.
Qed.

(** X2. How a name gets its type. The result is always one of the three
    name types. No field name is a hint of two kinds, so the order of the
    three tests of the field name is immaterial: a full-name hint gives
    FULL_NAME whatever the number of words, a first-name hint FIRST_NAME,
    and LAST_NAME is given exactly under a last-name hint. Under a field
    name that is no hint the type is FULL_NAME for two or more words of
    the name and FIRST_NAME otherwise. *)
Theorem name_type_classification (name_text field_name : str) :
  let t := NameDetector._determine_name_type name_text field_name in
  let full := NameDetector.hinted NameDetector.full_name_hints field_name in
  let first := NameDetector.hinted NameDetector.first_name_hints field_name in
  let last := NameDetector.hinted NameDetector.last_name_hints field_name in
  is_name_type t = true
  /\ (full = true -> t = FULL_NAME /\ first = false /\ last = false)
  /\ (first = true -> t = FIRST_NAME /\ full = false /\ last = false)
  /\ (last = true <-> t = LAST_NAME)
  /\ (full = false -> first = false -> last = false ->
      t = if (2 <=? length (str_split name_text))%nat
          then FULL_NAME else FIRST_NAME).
Proof.
  intros t full first last.
  destruct (hints_exclusive field_name) as [Hfull Hfirst].
  fold full first last in Hfull, Hfirst.
  split; [apply determine_is_name_type|].
  subst t. unfold NameDetector._determine_name_type. fold full first last.
  destruct full, first, last;
    try (destruct (Hfull eq_refl) as [? ?]; discriminate);
    try (specialize (Hfirst eq_refl); discriminate);
    try (destruct (2 <=? length (str_split name_text))%nat);
    repeat split; intros; try reflexivity; try discriminate.
Qed.

Lemma lstrip_spaces (s : str) : forallb is_space s = true -> lstrip s = [].
Proof.
  induction s as [|c s IH]; [reflexivity|]. cbn [forallb lstrip].
  intros H. apply andb_true_iff in H as [-> H]. auto.
Qed.

Lemma lstrip_keeps_blankness (s : str) :
  forallb is_space (lstrip s) = forallb is_space s.
Proof.
  induction s as [|c s IH]; [reflexivity|]. cbn [lstrip].
  destruct (is_space c) eqn:Hc; cbn [forallb]; rewrite ?Hc; auto.
Qed.

Lemma lstrip_nil (s : str) : lstrip s = [] -> forallb is_space s = true.
Proof.
  intros H. rewrite <- lstrip_keeps_blankness, H. reflexivity.
Qed.

Lemma forallb_rev {A} (p : A -> bool) (l : list A) :
  forallb p (rev l) = forallb p l.
Proof.
  induction l as [|x l IH]; [reflexivity|]. cbn [rev forallb].
  rewrite forallb_app, IH. cbn [forallb]. rewrite andb_true_r. apply andb_comm.
Qed.

Lemma str_strip_blank (s : str) :
  str_strip s = [] <-> forallb is_space s = true.
Proof.
  unfold str_strip. split.
  - intros H. apply (f_equal (@rev ascii)) in H. rewrite rev_involutive in H.
    cbn [rev] in H. apply lstrip_nil in H. rewrite forallb_rev in H.
    now rewrite lstrip_keeps_blankness in H.
  - intros H. now rewrite (lstrip_spaces _ H).
Qed.

Lemma py_slice_in_bounds (text : str) (a b : Z) :
  0 <= a <= b -> b <= Z.of_nat (length text) ->
  py_slice text a b = slice text (Z.to_nat a) (Z.to_nat b).
Proof.
  intros Ha Hb. unfold py_slice, slice_index.
  destruct (Z.ltb_spec a 0); [lia|]. destruct (Z.ltb_spec b 0); [lia|].
  now rewrite !Z.min_l by lia.
Qed.

(** X3. The name detector reports nothing for a text of white space only,
    whatever the analyzer finds. For any other text it reports one
    detection per analyzer result, in the analyzer's order, with the
    result's span and score, a name type, and as original the slice
    [text[start:end]]; and when the results span non-empty parts of the
    text, each detection's span lies in the text and its original is the
    text between its two positions. *)
Theorem name_detections_follow_the_analyzer
  (analyzer : Analyzer) (text field_name : str) :
  let found := NameDetector.detect analyzer text field_name in
  (forallb is_space text = true -> found = [])
  /\ (forallb is_space text = false ->
      map detection_report found = map recognizer_report (analyzer text)
      /\ map original_value found
         = map (fun r => py_slice text (r_start r) (r_end r)) (analyzer text)
      /\ Forall (fun d => is_name_type (pii_type d) = true) found
      /\ (Forall (in_bounds (length text)) (analyzer text) ->
          Forall (span_ok text) found)).
Proof.
  intros found. subst found. unfold NameDetector.detect. split.
  - intros Hblank. apply str_strip_blank in Hblank. now rewrite Hblank.
  - intros Hblank. destruct (str_strip text) as [|c rest] eqn:Hstrip.
    { apply str_strip_blank in Hstrip. congruence. }
    split; [|split; [|split]].
    + rewrite map_map. apply map_ext. reflexivity.
    + rewrite map_map. apply map_ext. reflexivity.
    + apply Forall_map, Forall_forall. intros r _. cbn [pii_type].
      apply determine_is_name_type.
    + intros Hin. apply Forall_map. revert Hin. apply List.Forall_impl.
      intros r [Hlt Hle]. unfold span_ok.
      cbn [start_pos end_pos original_value].
      split; [exact Hlt|]. split; [exact Hle|].
      apply py_slice_in_bounds; lia.
Qed.

Lemma name_detections_follow_the_analyzer_witness :
  NameDetector.detect sample_analyzer (lit "  ") (lit "customer") = []
  /\ NameDetector.detect sample_analyzer (lit "John Doe") (lit "customer")
     = [MkDetection FULL_NAME (lit "John Doe") 0.75%float 0 8]
  /\ Forall (in_bounds (length (lit "John Doe")))
       (sample_analyzer (lit "John Doe"))
  /\ Forall (span_ok (lit "John Doe"))
       (NameDetector.detect sample_analyzer (lit "John Doe") (lit "customer")).
Proof.
  assert (Hin : Forall (in_bounds (length (lit "John Doe")))
                  (sample_analyzer (lit "John Doe"))).
  { constructor; [|constructor]. unfold in_bounds. simpl. lia. }
  split.
  { apply (name_detections_follow_the_analyzer sample_analyzer (lit "  ")
             (lit "customer")). reflexivity. }
  split; [reflexivity|]. split; [exact Hin|].
  destruct (name_detections_follow_the_analyzer sample_analyzer
              (lit "John Doe") (lit "customer")) as [_ H].
  destruct (H eq_refl) as (_ & _ & _ & Hspans). exact (Hspans Hin).
Defined.

End NameDetectorFacts.

(** * The output file name of the web front end *)

Section OutputFilename.

Lemma lstrip_idempotent (s : str) : lstrip (lstrip s) = lstrip s.
Proof.
  induction s as [|c s IH]; [reflexivity|]. cbn [lstrip].
  destruct (is_space c) eqn:Hc; [exact IH|]. cbn [lstrip]. now rewrite Hc.
Qed.

Lemma lstrip_snoc (s : str) (c : ascii) :
  is_space c = false -> lstrip (s ++ [c]) = lstrip s ++ [c].
Proof.
  intros Hc. induction s as [|x s IH]; cbn [app lstrip].
  - now rewrite Hc.
  - destruct (is_space x); [exact IH|reflexivity].
Qed.

Lemma lstrip_head (s : str) :
  lstrip s = [] \/ exists c rest, lstrip s = c :: rest /\ is_space c = false.
Proof.
  induction s as [|c s IH]; [now left|]. cbn [lstrip].
  destruct (is_space c) eqn:Hc; [exact IH|]. right. now exists c, s.
Qed.

(** What [strip] returns: nothing, or a string whose first and last
    characters are no white space. *)
Lemma str_strip_shape (s : str) :
  str_strip s = []
  \/ exists c middle, str_strip s = c :: middle /\ is_space c = false
                      /\ lstrip (rev (c :: middle)) = rev (c :: middle).
Proof.
  unfold str_strip. destruct (lstrip_head s) as [-> | (c & rest & -> & Hc)].
  { now left. }
  right. cbn [rev]. rewrite (lstrip_snoc _ _ Hc), rev_app_distr. cbn [rev app].
  exists c, (rev (lstrip (rev rest))). split; [reflexivity|]. split; [exact Hc|].
  cbn [rev]. rewrite rev_involutive, (lstrip_snoc _ _ Hc).
  now rewrite lstrip_idempotent.
Qed.

Lemma str_strip_fixed (c : ascii) (middle : str) :
  is_space c = false -> lstrip (rev (c :: middle)) = rev (c :: middle) ->
  str_strip (c :: middle) = c :: middle.
Proof.
  intros Hc Hrev. unfold str_strip. cbn [lstrip]. rewrite Hc, Hrev.
  apply rev_involutive.
Qed.

Lemma str_strip_idempotent (s : str) : str_strip (str_strip s) = str_strip s.
Proof.
  destruct (str_strip_shape s) as [-> | (c & middle & -> & Hc & Hrev)].
  - reflexivity.
  - now apply str_strip_fixed.
Qed.

Lemma prefixb_app (p q : str) : prefixb p (p ++ q) = true.
Proof.
  induction p as [|x p IH]; [reflexivity|]. cbn [app prefixb].
  now rewrite Nat.eqb_refl, IH.
Qed.

Lemma endswith_app (s suffix : str) : endswith (s ++ suffix) suffix = true.
Proof. unfold endswith. rewrite rev_app_distr. apply prefixb_app. Qed.

Lemma validate_fixed (c : ascii) (middle : str) :
  str_strip (c :: middle) = c :: middle ->
  endswith (c :: middle) (lit ".json") = true ->
  validate_output_filename (c :: middle) = Filename (c :: middle).
Proof.
  intros Hfix Hends. unfold validate_output_filename. now rewrite Hfix, Hends.
Qed.

(** X4. [validate_output_filename] raises its ValueError exactly for a
    file name of white space only (the empty one included). Any other
    name comes back stripped of surrounding white space and ending in
    ".json", the extension being added only when it is missing; and
    validating the returned name again changes nothing. *)
Theorem output_filename_is_normalised (filename : str) :
  match validate_output_filename filename with
  | ValueError message =>
      forallb is_space filename = true
      /\ message = lit "Output filename cannot be empty"
  | Filename name =>
      forallb is_space filename = false
      /\ endswith name (lit ".json") = true
      /\ str_strip name = name
      /\ name = (if endswith (str_strip filename) (lit ".json")
                 then str_strip filename
                 else str_strip filename ++ lit ".json")
      /\ validate_output_filename name = Filename name
  end.
Proof.
  unfold validate_output_filename at 1.
  destruct filename as [|c0 filename0]; [now split|].
  set (filename := c0 :: filename0).
  destruct (str_strip_shape filename) as [Hnil | (c & middle & Heq & Hc & Hrev)].
  { rewrite Hnil. split; [|reflexivity]. now apply str_strip_blank. }
  rewrite Heq.
  assert (Hblank : forallb is_space filename = false).
  { destruct (forallb is_space filename) eqn:Hb; [|reflexivity].
    apply str_strip_blank in Hb. congruence. }
  assert (Hfix : str_strip (c :: middle) = c :: middle)
    by now apply str_strip_fixed.
  destruct (endswith (c :: middle) (lit ".json")) eqn:Hends; cbn [negb].
  - split; [exact Hblank|]. split; [exact Hends|]. split; [exact Hfix|].
    split; [reflexivity|]. now apply validate_fixed.
  - assert (Hfix' : str_strip ((c :: middle) ++ lit ".json")
                    = (c :: middle) ++ lit ".json").
    { cbn [app]. apply str_strip_fixed; [exact Hc|].
      change (c :: middle ++ lit ".json") with ((c :: middle) ++ lit ".json").
      rewrite rev_app_distr. reflexivity. }
    split; [exact Hblank|]. split; [apply endswith_app|].
    split; [exact Hfix'|]. split; [reflexivity|].
    apply (validate_fixed c (middle ++ lit ".json") Hfix').
    apply (endswith_app (c :: middle)).
Qed.

End OutputFilename.

(** * More on the Replacer's names *)

Section NameConsistency.
Context {G : Type} {F : Faker G}.
Implicit Types (r : Replacer.t G) (t : PIIType).

Lemma run_calls_app calls calls' r :
  run_calls (calls ++ calls') r = run_calls calls' (run_calls calls r).
Proof.
  revert r. induction calls as [|[v t] calls IH]; intros r; simpl; auto.
Qed.

(** What the cache holds after one call. *)
Lemma get_or_create_cache (v : str) t r (k : str * PIIType) :
  is_Some (Replacer._cache
             (snd (Replacer.get_or_create_replacement v t r)) !! k)
  <-> is_Some (Replacer._cache r !! k) \/ k = (v, t).
Proof.
  unfold Replacer.get_or_create_replacement.
  destruct (Replacer._cache r !! (v, t)) eqn:E; simpl.
  - split; [now left|]. intros [H | ->]; [exact H|]. now rewrite E.
  - pose proof (generate_cache v t r) as Hc.
    destruct (Replacer.generate v t r) as [fake r']; simpl in *.
    destruct (decide ((v, t) = k)) as [<-|Hne].
    + rewrite lookup_insert_eq. split; [now right|]. intros _. now eexists.
    + rewrite lookup_insert_ne by exact Hne. rewrite Hc.
      split; [now left|]. intros [H | ->]; [exact H|]. congruence.
Qed.

Lemma run_calls_cache calls r (k : str * PIIType) :
  is_Some (Replacer._cache (run_calls calls r) !! k)
  <-> is_Some (Replacer._cache r !! k) \/ In k calls.
Proof.
  revert r. induction calls as [|[v t] calls IH]; intros r; simpl.
  - tauto.
  - rewrite IH, get_or_create_cache. intuition congruence.
Qed.

(** X5. After any sequence of replacements on a fresh Replacer, the
    primary cache holds an entry for exactly the (value, type) pairs that
    were asked for: no request is forgotten, and generating a full name
    adds no entry for its first or last name. *)
Theorem cache_holds_exactly_the_requests (g : G)
    (calls : list (str * PIIType)) (k : str * PIIType) :
  is_Some (Replacer._cache (run_calls calls (Replacer.init g)) !! k)
  <-> In k calls.
Proof.
  rewrite run_calls_cache. cbn [Replacer.init Replacer._cache].
  rewrite lookup_empty. split; [|now right].
  intros [[x Hx] | H]; [discriminate|exact H].
Qed.

Lemma preserve_case_by_pattern (v v' fake : str) :
  case_of v = case_of v' ->
  Replacer._preserve_case v fake = Replacer._preserve_case v' fake.
Proof.
  unfold case_of, Replacer._preserve_case.
  destruct (isupper v), (islower v), (isupper v'), (islower v');
    intros H; try reflexivity; discriminate.
Qed.

Lemma lower_preserve_case (v fake : str) :
  lower (Replacer._preserve_case v fake) = lower fake.
Proof.
  unfold Replacer._preserve_case.
  destruct (isupper v); [apply lower_upper|].
  destruct (islower v); [apply lower_lower|reflexivity].
Qed.

(** Two cached standalone names whose originals differ in case only come
    from one generated name. *)
Lemma cached_names_share_fake r t (v v' x x' : str) :
  names_consistent r -> t = FIRST_NAME \/ t = LAST_NAME ->
  lower v = lower v' ->
  Replacer._cache r !! (v, t) = Some x ->
  Replacer._cache r !! (v', t) = Some x' ->
  exists fake, x = Replacer._preserve_case v fake
               /\ x' = Replacer._preserve_case v' fake.
Proof.
  intros Hc Ht Hlow Hx Hx'.
  pose proof (Hc t v x Hx) as H. pose proof (Hc t v' x' Hx') as H'.
  destruct Ht as [-> | ->]; destruct H as (fk & Hg & ->);
    destruct H' as (fk' & Hg' & ->); simpl in Hg, Hg';
    rewrite Hlow in Hg; rewrite Hg in Hg'; inversion Hg'; subst fk';
    now exists fk.
Qed.

(** X6. First and last names are matched without regard to case: on an
    instance reached from a fresh Replacer by any calls, two originals of
    the same name type that differ only in the case of their letters get
    one generated name, each in the case of its own original, so their two
    replacements are equal up to case. *)
Theorem names_match_up_to_case (g : G) (calls : list (str * PIIType))
    (t : PIIType) (v v' : str) :
  t = FIRST_NAME \/ t = LAST_NAME ->
  lower v = lower v' ->
  let r := run_calls calls (Replacer.init g) in
  let '(x, r1) := Replacer.get_or_create_replacement v t r in
  let '(x', _) := Replacer.get_or_create_replacement v' t r1 in
  (exists fake, x = Replacer._preserve_case v fake
                /\ x' = Replacer._preserve_case v' fake)
  /\ lower x = lower x'.
Proof.
  intros Ht Hlow r.
  pose proof (get_or_create_stores v t r) as Hx.
  destruct (Replacer.get_or_create_replacement v t r) as [x r1] eqn:E1.
  simpl in Hx.
  pose proof (get_or_create_stores v' t r1) as Hx'.
  pose proof (get_or_create_keeps v' t r1 _ _ Hx) as Hx1.
  assert (Hc : names_consistent
                 (snd (Replacer.get_or_create_replacement v' t r1))).
  { apply get_or_create_consistent. replace r1 with
      (snd (Replacer.get_or_create_replacement v t r)) by now rewrite E1.
    apply get_or_create_consistent, run_calls_consistent, init_consistent. }
  destruct (Replacer.get_or_create_replacement v' t r1) as [x' r2] eqn:E2.
  simpl in *.
  destruct (cached_names_share_fake r2 t v v' x x' Hc Ht Hlow Hx1 Hx')
    as (fk & -> & ->).
  split; [now exists fk|]. now rewrite !lower_preserve_case.
Qed.

(** Two cached full names of two or more words with the same first and
    last word, up to case, and the same case pattern are equal. *)
Lemma cached_full_names_agree r (v v' x x' : str) :
  names_consistent r ->
  (2 <= length (str_split v))%nat -> (2 <= length (str_split v'))%nat ->
  lower (List.hd [] (str_split v)) = lower (List.hd [] (str_split v')) ->
  lower (List.last (str_split v) []) = lower (List.last (str_split v') []) ->
  case_of v = case_of v' ->
  Replacer._cache r !! (v, FULL_NAME) = Some x ->
  Replacer._cache r !! (v', FULL_NAME) = Some x' ->
  x = x'.
Proof.
  intros Hc Hlen Hlen' Hhd Hlast Hcase Hx Hx'.
  destruct (Hc FULL_NAME v x Hx Hlen) as (fk & Hg & ->).
  destruct (Hc FULL_NAME v' x' Hx' Hlen') as (fk' & Hg' & ->).
  cbv beta iota zeta delta [generated_name] in Hg, Hg'.
  apply Nat.leb_le in Hlen, Hlen'. rewrite Hlen in Hg. rewrite Hlen' in Hg'.
  destruct Hg as (f & l & Hf & Hl & ->), Hg' as (f' & l' & Hf' & Hl' & ->).
  rewrite Hhd, Hf' in Hf. rewrite Hlast, Hl' in Hl.
  inversion Hf; inversion Hl; subst.
  now apply preserve_case_by_pattern.
Qed.

(** X7. Only the first and the last word of a full name count: on an
    instance reached from a fresh Replacer by any calls, two full names of
    two or more words that agree, up to case, in their first word and in
    their last word, and have the same case pattern, get the same
    replacement, whatever stands between the two words. *)
Theorem full_names_ignore_middle_words (g : G) (calls : list (str * PIIType))
    (v v' : str) :
  (2 <= length (str_split v))%nat -> (2 <= length (str_split v'))%nat ->
  lower (List.hd [] (str_split v)) = lower (List.hd [] (str_split v')) ->
  lower (List.last (str_split v) []) = lower (List.last (str_split v') []) ->
  case_of v = case_of v' ->
  let r := run_calls calls (Replacer.init g) in
  let '(x, r1) := Replacer.get_or_create_replacement v FULL_NAME r in
  let '(x', _) := Replacer.get_or_create_replacement v' FULL_NAME r1 in
  x = x'.
Proof.
  intros Hlen Hlen' Hhd Hlast Hcase r.
  pose proof (get_or_create_stores v FULL_NAME r) as Hx.
  destruct (Replacer.get_or_create_replacement v FULL_NAME r) as [x r1] eqn:E1.
  simpl in Hx.
  pose proof (get_or_create_stores v' FULL_NAME r1) as Hx'.
  pose proof (get_or_create_keeps v' FULL_NAME r1 _ _ Hx) as Hx1.
  assert (Hc : names_consistent
                 (snd (Replacer.get_or_create_replacement v' FULL_NAME r1))).
  { apply get_or_create_consistent. replace r1 with
      (snd (Replacer.get_or_create_replacement v FULL_NAME r))
      by now rewrite E1.
    apply get_or_create_consistent, run_calls_consistent, init_consistent. }
  destruct (Replacer.get_or_create_replacement v' FULL_NAME r1)
    as [x' r2] eqn:E2.
  simpl in *.
  exact (cached_full_names_agree r2 v v' x x' Hc Hlen Hlen' Hhd Hlast Hcase
           Hx1 Hx').
Qed.

(** The cached replacements of a first name, a last name and the full name
    made of the two are linked, however they came into the cache. *)
Lemma cached_names_linked r (a b xa xb xf : str) :
  names_consistent r ->
  single_token a = true -> single_token b = true -> case_of a = case_of b ->
  Replacer._cache r !! (a, FIRST_NAME) = Some xa ->
  Replacer._cache r !! (b, LAST_NAME) = Some xb ->
  Replacer._cache r !! (a ++ lit " " ++ b, FULL_NAME) = Some xf ->
  xf = xa ++ lit " " ++ xb.
Proof.
  intros Hc Ha Hb Hcase Hxa Hxb Hxf.
  destruct (Hc FIRST_NAME a xa Hxa) as (fa & Hfa & ->).
  destruct (Hc LAST_NAME b xb Hxb) as (fb & Hfb & ->).
  pose proof (Hc FULL_NAME _ xf Hxf) as Hf. simpl in Hfa, Hfb.
  pose proof (str_split_two_tokens a b Ha Hb) as Hsplit.
  cbv beta iota delta [generated_name] in Hf. rewrite !Hsplit in Hf.
  destruct (Hf (le_n 2)) as (fk & (f' & l' & Hf' & Hl' & ->) & ->).
  simpl in Hf', Hl'. rewrite Hfa in Hf'. rewrite Hfb in Hl'.
  inversion Hf'; inversion Hl'; subst f' l'.
  exact (preserve_case_join a b fa fb Hcase).
Qed.

(** X8. Name linkage does not depend on the order of the requests: when a
    first name, a last name (single tokens of one case pattern) and the
    full name "first last" have all been replaced on one fresh Replacer,
    in any order and among any other requests, the replacement of the full
    name is the replacement of the first name, one space and the
    replacement of the last name. *)
Theorem names_link_in_any_order (g : G) (calls : list (str * PIIType))
    (first last : str) :
  single_token first = true -> single_token last = true ->
  case_of first = case_of last ->
  In (first, FIRST_NAME) calls -> In (last, LAST_NAME) calls ->
  In (first ++ lit " " ++ last, FULL_NAME) calls ->
  let r := run_calls calls (Replacer.init g) in
  fst (Replacer.get_or_create_replacement (first ++ lit " " ++ last)
         FULL_NAME r)
  = fst (Replacer.get_or_create_replacement first FIRST_NAME r)
      ++ lit " "
      ++ fst (Replacer.get_or_create_replacement last LAST_NAME r).
Proof.
  intros Ha Hb Hcase Hina Hinb Hinf r.
  assert (Hc : names_consistent r)
    by apply run_calls_consistent, init_consistent.
  destruct (proj2 (run_calls_cache calls (Replacer.init g) _)
              (or_intror Hina)) as [xa Hxa].
  destruct (proj2 (run_calls_cache calls (Replacer.init g) _)
              (or_intror Hinb)) as [xb Hxb].
  destruct (proj2 (run_calls_cache calls (Replacer.init g) _)
              (or_intror Hinf)) as [xf Hxf].
  fold r in Hxa, Hxb, Hxf.
  rewrite (get_or_create_hit _ _ r _ Hxa), (get_or_create_hit _ _ r _ Hxb),
    (get_or_create_hit _ _ r _ Hxf). cbn [fst].
  exact (cached_names_linked r first last xa xb xf Hc Ha Hb Hcase Hxa Hxb Hxf).
Qed.

End NameConsistency.

Lemma names_match_up_to_case_witness :
  lower (lit "John") = lower (lit "JOHN")
  /\ (let r := run_calls [(lit "Doe", LAST_NAME)] (Replacer.init 0%nat) in
      let '(x, r1) :=
        Replacer.get_or_create_replacement (lit "John") FIRST_NAME r in
      let '(x', _) :=
        Replacer.get_or_create_replacement (lit "JOHN") FIRST_NAME r1 in
      (exists fake, x = Replacer._preserve_case (lit "John") fake
                    /\ x' = Replacer._preserve_case (lit "JOHN") fake)
      /\ lower x = lower x').
Proof.
  split; [reflexivity|].
  apply (names_match_up_to_case 0%nat [(lit "Doe", LAST_NAME)] FIRST_NAME
           (lit "John") (lit "JOHN")); [now left|reflexivity].
Defined.

Lemma full_names_ignore_middle_words_witness :
  str_split (lit "John Quincy Doe") = [lit "John"; lit "Quincy"; lit "Doe"]
  /\ str_split (lit "JOHN  Doe") = [lit "JOHN"; lit "Doe"]
  /\ case_of (lit "John Quincy Doe") = case_of (lit "JOHN  Doe")
  /\ (let r := run_calls [(lit "Doe", LAST_NAME)] (Replacer.init 0%nat) in
      let '(x, r1) :=
        Replacer.get_or_create_replacement (lit "John Quincy Doe") FULL_NAME r in
      let '(x', _) :=
        Replacer.get_or_create_replacement (lit "JOHN  Doe") FULL_NAME r1 in
      x = x').
Proof.
  split; [reflexivity|]. split; [reflexivity|]. split; [reflexivity|].
  apply (full_names_ignore_middle_words 0%nat [(lit "Doe", LAST_NAME)]
           (lit "John Quincy Doe") (lit "JOHN  Doe"));
    try reflexivity; simpl; lia.
Defined.

Lemma names_link_in_any_order_witness :
  let calls := [(lit "John Doe", FULL_NAME); (lit "ann@corp.io", EMAIL);
                (lit "Doe", LAST_NAME); (lit "John", FIRST_NAME)] in
  let r := run_calls calls (Replacer.init 0%nat) in
  single_token (lit "John") = true /\ single_token (lit "Doe") = true
  /\ case_of (lit "John") = case_of (lit "Doe")
  /\ fst (Replacer.get_or_create_replacement (lit "John Doe") FULL_NAME r)
     = fst (Replacer.get_or_create_replacement (lit "John") FIRST_NAME r)
         ++ lit " "
         ++ fst (Replacer.get_or_create_replacement (lit "Doe") LAST_NAME r).
Proof.
  intros calls r.
  split; [reflexivity|]. split; [reflexivity|]. split; [reflexivity|].
  apply (names_link_in_any_order 0%nat calls (lit "John") (lit "Doe"));
    try reflexivity; subst calls; simpl; tauto.
Defined.

(** * The walker's bookkeeping *)

Section WalkerState.
Context {G : Type} {F : Faker G}.
Implicit Types (st : Sanitizer.t G).

Lemma cache_within_refl st : cache_within st st.
Proof. intros k y H. exact H. Qed.

Lemma cache_within_trans st1 st2 st3 :
  cache_within st1 st2 -> cache_within st2 st3 -> cache_within st1 st3.
Proof. intros H12 H23 k y H. apply H23, H12, H. Qed.

(** One turn of the replacement loop: the counter goes up by one, the
    detectors stay, the cache only grows. *)
Lemma apply_detection_state (d : DetectionResult) (text : str) st :
  let st' := snd (Sanitizer.apply_detection d (text, st)) in
  Sanitizer._detectors st' = Sanitizer._detectors st
  /\ Sanitizer._pii_fields_detected st' = Sanitizer._pii_fields_detected st
  /\ Sanitizer._pii_replacements_made st'
     = Sanitizer._pii_replacements_made st + 1
  /\ cache_within st st'.
Proof.
  unfold Sanitizer.apply_detection, Replacer.replace.
  pose proof (get_or_create_keeps (original_value d) (pii_type d)
                (Sanitizer._replacer st)) as Hkeep.
  destruct (Replacer.get_or_create_replacement (original_value d)
              (pii_type d) (Sanitizer._replacer st)) as [fake r'].
  cbn. repeat split. intros k y H. cbn. now apply Hkeep.
Qed.

Lemma fold_apply_state (ds : list DetectionResult) (text : str) st :
  let st' :=
    snd (fold_left (fun acc d => Sanitizer.apply_detection d acc) ds (text, st)) in
  Sanitizer._detectors st' = Sanitizer._detectors st
  /\ Sanitizer._pii_fields_detected st' = Sanitizer._pii_fields_detected st
  /\ Sanitizer._pii_replacements_made st'
     = Sanitizer._pii_replacements_made st + Z.of_nat (length ds)
  /\ cache_within st st'.
Proof.
  revert text st. induction ds as [|d ds IH]; intros text st.
  - cbn. repeat split; [lia|apply cache_within_refl].
  - cbn [fold_left].
    pose proof (apply_detection_state d text st) as (Hd & Hf & Hr & Hc).
    destruct (Sanitizer.apply_detection d (text, st)) as [text1 st1].
    cbn [snd] in *.
    destruct (IH text1 st1) as (Hd' & Hf' & Hr' & Hc').
    cbv zeta. rewrite Hd', Hf', Hr', Hd, Hf, Hr.
    repeat split; [cbn [length]; lia|].
    eapply cache_within_trans; eassumption.
Qed.

(** One string leaf: what [_sanitize_string] does to the state. *)
Lemma visit_state st (field : str * str) :
  Sanitizer._detectors (visit st field) = Sanitizer._detectors st
  /\ Sanitizer._pii_fields_detected (visit st field)
     = Sanitizer._pii_fields_detected st + (if has_pii st field then 1 else 0)
  /\ Sanitizer._pii_replacements_made (visit st field)
     = Sanitizer._pii_replacements_made st
       + Z.of_nat (length (found st field))
  /\ cache_within st (visit st field).
Proof.
  unfold visit, has_pii, found, Sanitizer._sanitize_string.
  destruct (Sanitizer.all_detections (Sanitizer._detectors st) field.1 field.2)
    as [|d ds] eqn:E.
  - cbn. repeat split; [lia|lia|apply cache_within_refl].
  - set (st0 := Sanitizer.Mk _ _ _ _).
    destruct (fold_apply_state (stable_sort Sanitizer.by_start_desc (d :: ds))
                field.1 st0) as (Hd & Hf & Hr & Hc).
    rewrite (Permutation_length (stable_sort_perm _ (d :: ds))) in Hr.
    repeat split; [exact Hd|exact Hf|exact Hr|exact Hc].
Qed.

Lemma visits_state st (fields : list (str * str)) :
  let st' := fold_left visit fields st in
  Sanitizer._detectors st' = Sanitizer._detectors st
  /\ Sanitizer._pii_fields_detected st'
     = Sanitizer._pii_fields_detected st + fields_with_pii st fields
  /\ Sanitizer._pii_replacements_made st'
     = Sanitizer._pii_replacements_made st + detections_in st fields
  /\ cache_within st st'.
Proof.
  revert st. induction fields as [|field fields IH]; intros st.
  - cbn. unfold fields_with_pii, detections_in. cbn.
    repeat split; [lia|lia|apply cache_within_refl].
  - cbn [fold_left].
    destruct (visit_state st field) as (Hd & Hf & Hr & Hc).
    destruct (IH (visit st field)) as (Hd' & Hf' & Hr' & Hc').
    cbv zeta. rewrite Hd', Hf', Hr', Hd, Hf, Hr.
    assert (Hsame : forall f, found (visit st field) f = found st f)
      by (intros f; unfold found; now rewrite Hd).
    assert (Hpii : forall f, has_pii (visit st field) f = has_pii st f)
      by (intros f; unfold has_pii; now rewrite Hsame).
    unfold fields_with_pii, detections_in. cbn [List.filter flat_map].
    rewrite (List.filter_ext _ _ Hpii), (flat_map_ext _ _ Hsame).
    rewrite length_app.
    repeat split;
      [destruct (has_pii st field); cbn [length]; lia | lia |].
    eapply cache_within_trans; eassumption.
Qed.

Lemma walk_list_state (f : json -> Sanitizer.t G -> json * Sanitizer.t G)
    (fields_of : json -> list (str * str)) (items : list json) st :
  Forall (fun item => forall s, snd (f item s) = fold_left visit (fields_of item) s)
    items ->
  snd (Sanitizer.walk_list f items st)
  = fold_left visit (flat_map fields_of items) st.
Proof.
  revert st. induction items as [|item items IH]; intros st Hf; [reflexivity|].
  inversion Hf as [|? ? Hitem Hrest]; subst. cbn [Sanitizer.walk_list flat_map].
  specialize (Hitem st). destruct (f item st) as [v st1]. cbn [snd] in Hitem.
  specialize (IH st1 Hrest).
  destruct (Sanitizer.walk_list f items st1) as [vs st2]. cbn [snd] in *.
  now rewrite fold_left_app, <- Hitem.
Qed.

Lemma walk_items_state
    (f : json -> str -> Sanitizer.t G -> json * Sanitizer.t G)
    (items sanitized : list (str * json)) st :
  Forall (fun kv => forall s,
            snd (f (snd kv) (fst kv) s)
            = fold_left visit (string_fields (snd kv) (fst kv)) s) items ->
  snd (Sanitizer.walk_items f items sanitized st)
  = fold_left visit (string_fields (JDict items) []) st.
Proof.
  revert sanitized st.
  induction items as [|[k v] items IH]; intros acc st Hf; [reflexivity|].
  inversion Hf as [|? ? Hkv Hrest]; subst. cbn [Sanitizer.walk_items].
  specialize (Hkv st). cbn [fst snd] in Hkv.
  destruct (f v k st) as [v1 st1]. cbn [snd] in Hkv.
  rewrite (IH _ st1 Hrest). cbn [string_fields].
  now rewrite fold_left_app, <- Hkv.
Qed.

(** The state after a walk is the state after its string leaves, one by
    one. *)
Lemma sanitize_value_state (value : json) :
  forall (field_name : str) st,
    snd (Sanitizer.sanitize_value value field_name st)
    = fold_left visit (string_fields value field_name) st.
Proof.
  induction value as [| b | n | x | s | items IH | items IH]
    using json_induction; intros field_name st; try reflexivity.
  - cbn [Sanitizer.sanitize_value string_fields fold_left]. unfold visit.
    cbn [fst snd]. now destruct (Sanitizer._sanitize_string s field_name st).
  - cbn [Sanitizer.sanitize_value].
    pose proof (walk_list_state
                  (fun v s => Sanitizer.sanitize_value v field_name s)
                  (fun item => string_fields item field_name) items st) as H.
    destruct (Sanitizer.walk_list _ items st) as [l st']. cbn [snd] in *.
    apply H. revert IH. apply List.Forall_impl. intros item Hitem s. apply Hitem.
  - cbn [Sanitizer.sanitize_value].
    pose proof (walk_items_state
                  (fun v key s => Sanitizer.sanitize_value v key s)
                  items [] st) as H.
    destruct (Sanitizer.walk_items _ items [] st) as [d st']. cbn [snd] in *.
    apply H. revert IH. apply List.Forall_impl. intros [k v] Hkv s. apply Hkv.
Qed.

Lemma sanitize_records_state (records : list json) st (out : list json) st' :
  Sanitizer.sanitize_records records st = (Ok out, st') ->
  st' = fold_left visit (record_fields records) st
  /\ length out = length records.
Proof.
  revert st out st'.
  induction records as [|record records IH]; intros st out st' H.
  - cbn in H. inversion H; subst. now split.
  - destruct record; try discriminate H. cbn [Sanitizer.sanitize_records] in H.
    pose proof (sanitize_value_state (JDict items) [] st) as Hstate.
    cbn [Sanitizer.sanitize_value] in Hstate.
    change (fun v key s => Sanitizer.sanitize_value v key s)
      with (@Sanitizer.sanitize_value G F) in Hstate.
    destruct (Sanitizer.walk_items Sanitizer.sanitize_value items [] st)
      as [d st1]. cbn [snd] in Hstate.
    destruct (Sanitizer.sanitize_records records st1) as [[rs|e] st2] eqn:E;
      [|discriminate H].
    inversion H; subst. destruct (IH _ _ _ E) as [-> Hlen].
    unfold record_fields. cbn [flat_map length].
    rewrite fold_left_app. fold (record_fields records). now rewrite Hlen.
Qed.

Lemma fields_at_most_detections st (fields : list (str * str)) :
  0 <= fields_with_pii st fields <= detections_in st fields.
Proof.
  unfold fields_with_pii, detections_in. split; [lia|].
  apply inj_le. induction fields as [|field fields IH]; [reflexivity|].
  cbn [List.filter flat_map]. rewrite length_app. unfold has_pii at 1.
  destruct (found st field); cbn [length]; lia.
Qed.

(** X9. The statistics of a successful run are exact: [records_processed]
    is the number of records read, [pii_fields_detected] the number of
    string values (at any depth) in which some detector found something,
    and [pii_replacements_made] the number of detections in all string
    values together; so the second never exceeds the third. *)
Theorem statistics_count_the_detections (w : world)
    (input_path output_path : str) st
    (disk : gmap (list ascii) (list ascii)) (records : list json) :
  Sanitizer._read_json_file w input_path = Ok records ->
  let result := (Sanitizer.sanitize_file w input_path output_path st disk).1.1 in
  success result = true ->
  records_processed result = Z.of_nat (length records)
  /\ pii_fields_detected result = fields_with_pii st (record_fields records)
  /\ pii_replacements_made result = detections_in st (record_fields records)
  /\ 0 <= pii_fields_detected result <= pii_replacements_made result.
Proof.
  intros Hread result. subst result. unfold Sanitizer.sanitize_file.
  rewrite Hread. set (st0 := Sanitizer.Mk _ _ 0 0).
  destruct (Sanitizer.sanitize_records records st0) as [[out|e] st'] eqn:E;
    [|destruct e; discriminate].
  destruct (Sanitizer._write_json_file w output_path out disk)
    as [[[]|e] disk']; [|destruct e; discriminate].
  intros _. cbn.
  destruct (sanitize_records_state _ _ _ _ E) as [-> _].
  destruct (visits_state st0 (record_fields records)) as (_ & Hf & Hr & _).
  cbv zeta in Hf, Hr. rewrite Hf, Hr.
  change (fields_with_pii st0) with (fields_with_pii st).
  change (detections_in st0) with (detections_in st).
  pose proof (fields_at_most_detections st (record_fields records)).
  cbn. repeat split; lia.
Qed.

End WalkerState.

Lemma statistics_count_the_detections_witness :
  let result :=
    (Sanitizer.sanitize_file sample_world (lit "in.json") (lit "out.json")
       sample_sanitizer ∅).1.1 in
  (records_processed result = Z.of_nat (length sample_records)
   /\ pii_fields_detected result
      = fields_with_pii sample_sanitizer (record_fields sample_records)
   /\ pii_replacements_made result
      = detections_in sample_sanitizer (record_fields sample_records)
   /\ 0 <= pii_fields_detected result <= pii_replacements_made result)
  /\ fields_with_pii sample_sanitizer (record_fields sample_records) = 3
  /\ detections_in sample_sanitizer (record_fields sample_records) = 4.
Proof.
  split; [|split; vm_compute; reflexivity].
  apply (statistics_count_the_detections sample_world (lit "in.json")
           (lit "out.json") sample_sanitizer ∅ sample_records);
    [reflexivity | vm_compute; reflexivity].
Defined.

(** * What the walker leaves alone *)

Section WalkerShape.
Context {G : Type} {F : Faker G}.
Implicit Types (st : Sanitizer.t G).

Lemma shape_dict (items : list (str * json)) :
  shape (JDict items) = JDict (shape_items items).
Proof.
  cbn [shape]. f_equal.
  induction items as [|[k v] items IH]; [reflexivity|].
  cbn [shape_items map fst snd]. now rewrite IH.
Qed.

Lemma shape_items_keys (items : list (str * json)) :
  map fst (shape_items items) = map fst items.
Proof. unfold shape_items. rewrite map_map. reflexivity. Qed.

Lemma walk_items_shape
    (f : json -> str -> Sanitizer.t G -> json * Sanitizer.t G)
    (items sanitized : list (str * json)) st :
  Forall (fun kv => forall s, shape (fst (f (snd kv) (fst kv) s)) = shape (snd kv))
    items ->
  List.NoDup (map fst (sanitized ++ items)) ->
  shape_items (fst (Sanitizer.walk_items f items sanitized st))
  = shape_items sanitized ++ shape_items items.
Proof.
  revert sanitized st.
  induction items as [|[k v] items IH]; intros acc st Hf Hnd.
  - cbn. now rewrite app_nil_r.
  - inversion Hf as [|? ? Hkv Hrest]; subst. cbn [Sanitizer.walk_items].
    specialize (Hkv st). cbn [fst snd] in Hkv.
    destruct (f v k st) as [v1 st1]. cbn [fst] in Hkv.
    assert (Hfresh : ~ In k (map fst acc)).
    { rewrite map_app in Hnd. cbn [map fst] in Hnd.
      apply NoDup_remove_2 in Hnd. intros Hin. apply Hnd, in_or_app. now left. }
    rewrite (dict_set_fresh _ _ _ Hfresh).
    rewrite IH; [| exact Hrest |].
    + unfold shape_items. rewrite map_app, <- app_assoc. cbn [map app fst snd].
      now rewrite Hkv.
    + rewrite <- app_assoc. cbn [app].
      rewrite map_app in *. exact Hnd.
Qed.

Lemma sanitize_value_shape (value : json) :
  well_formed value ->
  forall (field_name : str) st,
    shape (fst (Sanitizer.sanitize_value value field_name st)) = shape value.
Proof.
  induction value as [| b | n | x | s | items IH | items IH]
    using json_induction; intros Hwf field_name st; try reflexivity.
  - cbn [Sanitizer.sanitize_value].
    now destruct (Sanitizer._sanitize_string s field_name st).
  - cbn [Sanitizer.sanitize_value]. apply well_formed_list in Hwf.
    assert (H : forall s, map shape
                (fst (Sanitizer.walk_list
                        (fun v s0 => Sanitizer.sanitize_value v field_name s0)
                        items s)) = map shape items).
    { induction items as [|item items IHitems]; intros s; [reflexivity|].
      inversion IH as [|? ? Hitem Hrest]; subst.
      inversion Hwf as [|? ? Hwitem Hwrest]; subst.
      cbn [Sanitizer.walk_list].
      specialize (Hitem Hwitem field_name s).
      destruct (Sanitizer.sanitize_value item field_name s) as [v s1].
      specialize (IHitems Hrest Hwrest s1).
      destruct (Sanitizer.walk_list _ items s1) as [vs s2].
      cbn [fst map] in *. now rewrite Hitem, IHitems. }
    specialize (H st).
    destruct (Sanitizer.walk_list _ items st) as [l st']. cbn [fst shape] in *.
    now rewrite H.
  - cbn [Sanitizer.sanitize_value].
    apply well_formed_dict in Hwf as [Hnd Hwf].
    pose proof (walk_items_shape
                  (fun v key s => Sanitizer.sanitize_value v key s)
                  items [] st) as H.
    destruct (Sanitizer.walk_items _ items [] st) as [d st']. cbn [fst] in *.
    rewrite !shape_dict, H; [reflexivity| |exact Hnd].
    rewrite List.Forall_forall in *. intros kv Hin s. now apply IH, Hwf.
Qed.

(** X10. The walker changes string leaves only: for a value whose dicts
    have distinct keys, the sanitized value and the original are equal
    once every string leaf is blanked, so keys and their order, list
    lengths, nesting and all leaves that are no strings are kept; and
    the state after the walk has the detectors it had, with a cache that
    holds at least what it held. *)
Theorem only_string_leaves_change (value : json) (field_name : str) st :
  well_formed value ->
  let '(sanitized, st') := Sanitizer.sanitize_value value field_name st in
  shape sanitized = shape value
  /\ Sanitizer._detectors st' = Sanitizer._detectors st
  /\ cache_within st st'.
Proof.
  intros Hwf.
  pose proof (sanitize_value_shape value Hwf field_name st) as Hshape.
  pose proof (sanitize_value_state value field_name st) as Hstate.
  destruct (Sanitizer.sanitize_value value field_name st) as [v st'].
  cbn [fst snd] in *. split; [exact Hshape|]. rewrite Hstate.
  destruct (visits_state st (string_fields value field_name))
    as (Hd & _ & _ & Hc). now split.
Qed.

End WalkerShape.

Lemma only_string_leaves_change_witness :
  well_formed (JList sample_records)
  /\ (let '(sanitized, st') :=
        Sanitizer.sanitize_value (JList sample_records) (lit "root")
          sample_sanitizer in
      shape sanitized = shape (JList sample_records)
      /\ Sanitizer._detectors st' = Sanitizer._detectors sample_sanitizer
      /\ cache_within sample_sanitizer st').
Proof.
  assert (Hwf : well_formed (JList sample_records)).
  { cbn. repeat split;
      repeat (constructor; [cbv; intuition discriminate|]); constructor. }
  split; [exact Hwf|].
  exact (only_string_leaves_change (JList sample_records) (lit "root")
           sample_sanitizer Hwf).
Defined.

(** * Sanitizing a value a second time *)

Section WalkerAgain.
Context {G : Type} {F : Faker G}.
Implicit Types (st : Sanitizer.t G).

Lemma cache_within_same_replacer st (s2 s2' : Sanitizer.t G) :
  cache_within st s2 ->
  Sanitizer._replacer s2' = Sanitizer._replacer s2 -> cache_within st s2'.
Proof. intros H Heq k y Hk. rewrite Heq. now apply H. Qed.

Lemma apply_detection_eq (d : DetectionResult) (text : str) st :
  Sanitizer.apply_detection d (text, st)
  = (let fake := fst (Replacer.replace d (Sanitizer._replacer st)) in
     if (start_pos d >=? 0) && (end_pos d >? start_pos d)
     then slice_to text (start_pos d) ++ fake ++ slice_from text (end_pos d)
     else replace_first text (original_value d) fake,
     Sanitizer.Mk (Sanitizer._detectors st)
       (snd (Replacer.replace d (Sanitizer._replacer st)))
       (Sanitizer._pii_fields_detected st)
       (Sanitizer._pii_replacements_made st + 1)).
Proof.
  unfold Sanitizer.apply_detection.
  now destruct (Replacer.replace d (Sanitizer._replacer st)).
Qed.

Lemma fold_apply_again (ds : list DetectionResult) (text : str) st
    (s2 : Sanitizer.t G) :
  cache_within
    (snd (fold_left (fun acc d => Sanitizer.apply_detection d acc) ds (text, st)))
    s2 ->
  repeats
    (fold_left (fun acc d => Sanitizer.apply_detection d acc) ds (text, st))
    (fold_left (fun acc d => Sanitizer.apply_detection d acc) ds (text, s2))
    s2.
Proof.
  revert text st s2. induction ds as [|d ds IH]; intros text st s2 Hc.
  - cbn. now repeat split.
  - cbn [fold_left] in *.
    pose proof (get_or_create_stores (original_value d) (pii_type d)
                  (Sanitizer._replacer st)) as Hstored.
    rewrite (apply_detection_eq d text st) in Hc |- *.
    rewrite (apply_detection_eq d text s2).
    unfold Replacer.replace in *. cbv zeta in *.
    set (x := fst (Replacer.get_or_create_replacement (original_value d)
                     (pii_type d) (Sanitizer._replacer st))) in *.
    set (text1 := if (start_pos d >=? 0) && (end_pos d >? start_pos d)
                  then slice_to text (start_pos d) ++ x
                         ++ slice_from text (end_pos d)
                  else replace_first text (original_value d) x) in *.
    set (st1 := Sanitizer.Mk (Sanitizer._detectors st) _ _ _) in *.
    destruct (fold_apply_state ds text1 st1) as (_ & _ & _ & Hmono).
    cbv zeta in Hmono.
    assert (Hhit : Replacer._cache (Sanitizer._replacer s2)
                     !! (original_value d, pii_type d) = Some x).
    { apply Hc, Hmono. exact Hstored. }
    rewrite (get_or_create_hit _ _ _ _ Hhit). cbn [fst snd]. fold text1.
    set (s2' := Sanitizer.Mk (Sanitizer._detectors s2) (Sanitizer._replacer s2)
                  _ _).
    destruct (IH text1 st1 s2') as (Hv & Hr & Hd).
    { now apply (cache_within_same_replacer _ s2). }
    now repeat split.
Qed.

Lemma sanitize_string_again (text field_name : str) st
    (s2 : Sanitizer.t G) :
  Sanitizer._detectors s2 = Sanitizer._detectors st ->
  cache_within (snd (Sanitizer._sanitize_string text field_name st)) s2 ->
  repeats (Sanitizer._sanitize_string text field_name st)
    (Sanitizer._sanitize_string text field_name s2) s2.
Proof.
  intros Hdet. unfold Sanitizer._sanitize_string. rewrite Hdet.
  destruct (Sanitizer.all_detections (Sanitizer._detectors st) text field_name)
    as [|d ds]; [now repeat split|].
  intros Hc.
  set (st0 := Sanitizer.Mk (Sanitizer._detectors st) (Sanitizer._replacer st)
                _ _) in *.
  set (s2' := Sanitizer.Mk (Sanitizer._detectors st) (Sanitizer._replacer s2)
                _ _).
  destruct (fold_apply_again (stable_sort Sanitizer.by_start_desc (d :: ds))
              text st0 s2') as (Hv & Hr & Hd).
  { now apply (cache_within_same_replacer _ s2). }
  repeat split; [exact Hv|exact Hr|]. rewrite Hd. cbn. now rewrite Hdet.
Qed.

Lemma sanitize_value_keeps (value : json) (field_name : str) st :
  Sanitizer._detectors (snd (Sanitizer.sanitize_value value field_name st))
  = Sanitizer._detectors st
  /\ cache_within st (snd (Sanitizer.sanitize_value value field_name st)).
Proof.
  rewrite sanitize_value_state.
  destruct (visits_state st (string_fields value field_name))
    as (Hd & _ & _ & Hc). now split.
Qed.

Lemma sanitize_value_again (value : json) :
  forall (field_name : str) st (s2 : Sanitizer.t G),
    Sanitizer._detectors s2 = Sanitizer._detectors st ->
    cache_within (snd (Sanitizer.sanitize_value value field_name st)) s2 ->
    repeats (Sanitizer.sanitize_value value field_name st)
      (Sanitizer.sanitize_value value field_name s2) s2.
Proof.
  induction value as [| b | n | x | s | items IH | items IH]
    using json_induction; intros field_name st s2 Hdet Hc;
    try (now repeat split).
  - cbn [Sanitizer.sanitize_value] in *.
    pose proof (sanitize_string_again s field_name st s2 Hdet) as H.
    destruct (Sanitizer._sanitize_string s field_name st) as [t1 st1].
    destruct (Sanitizer._sanitize_string s field_name s2) as [t2 s2'].
    destruct (H Hc) as (Hv & Hr & Hd). unfold repeats in *. cbn [fst snd] in *.
    repeat split; [now rewrite Hv|exact Hr|exact Hd].
  - cbn [Sanitizer.sanitize_value] in *.
    assert (H : forall st (s2 : Sanitizer.t G),
              Sanitizer._detectors s2 = Sanitizer._detectors st ->
              cache_within
                (snd (Sanitizer.walk_list
                        (fun v s => Sanitizer.sanitize_value v field_name s)
                        items st)) s2 ->
              repeats
                (Sanitizer.walk_list
                   (fun v s => Sanitizer.sanitize_value v field_name s) items st)
                (Sanitizer.walk_list
                   (fun v s => Sanitizer.sanitize_value v field_name s) items s2)
                s2).
    { clear st s2 Hdet Hc.
      induction items as [|item items IHitems]; intros st s2 Hdet Hc;
        [now repeat split|].
      inversion IH as [|? ? Hitem Hrest]; subst.
      cbn [Sanitizer.walk_list] in *.
      pose proof (sanitize_value_keeps item field_name st) as [Hd1 Hc1].
      specialize (Hitem field_name st s2 Hdet).
      destruct (Sanitizer.sanitize_value item field_name st) as [v1 st1].
      pose proof (sanitize_value_keeps (JList items) field_name st1)
        as [Hd2 Hc2].
      cbn [Sanitizer.sanitize_value] in Hd2, Hc2.
      specialize (IHitems Hrest st1).
      destruct (Sanitizer.walk_list _ items st1) as [vs st2].
      unfold repeats in *. cbn [fst snd] in *.
      destruct Hitem as (Hv & Hr & Hd).
      { eapply cache_within_trans; eassumption. }
      destruct (Sanitizer.sanitize_value item field_name s2) as [v2 s2'].
      unfold repeats in *. cbn [fst snd] in *. subst v2.
      destruct (IHitems s2') as (Hvs & Hrs & Hds).
      { now rewrite Hd, Hdet, Hd1. }
      { now apply (cache_within_same_replacer _ s2). }
      destruct (Sanitizer.walk_list _ items s2') as [vs2 s2''].
      unfold repeats in *. cbn [fst snd] in *. subst vs2.
      repeat split; [now rewrite Hrs|now rewrite Hds]. }
    specialize (H st s2 Hdet).
    destruct (Sanitizer.walk_list _ items st) as [l1 st1].
    destruct (Sanitizer.walk_list _ items s2) as [l2 s2'].
    destruct (H Hc) as (Hv & Hr & Hd). unfold repeats in *. cbn [fst snd] in *.
    repeat split; [now rewrite Hv|exact Hr|exact Hd].
  - cbn [Sanitizer.sanitize_value] in *.
    assert (H : forall acc st (s2 : Sanitizer.t G),
              Sanitizer._detectors s2 = Sanitizer._detectors st ->
              cache_within
                (snd (Sanitizer.walk_items
                        (fun v key s => Sanitizer.sanitize_value v key s)
                        items acc st)) s2 ->
              repeats
                (Sanitizer.walk_items
                   (fun v key s => Sanitizer.sanitize_value v key s)
                   items acc st)
                (Sanitizer.walk_items
                   (fun v key s => Sanitizer.sanitize_value v key s)
                   items acc s2)
                s2).
    { clear st s2 Hdet Hc.
      induction items as [|[k v] items IHitems]; intros acc st s2 Hdet Hc;
        [now repeat split|].
      inversion IH as [|? ? Hkv Hrest]; subst.
      cbn [Sanitizer.walk_items] in *. cbn [fst snd] in Hkv.
      pose proof (sanitize_value_keeps v k st) as [Hd1 Hc1].
      specialize (Hkv k st s2 Hdet).
      destruct (Sanitizer.sanitize_value v k st) as [v1 st1].
      unfold repeats in *. cbn [fst snd] in *.
      assert (Hc2 : cache_within st1
                      (snd (Sanitizer.walk_items
                              (fun v key s => Sanitizer.sanitize_value v key s)
                              items (dict_set acc k v1) st1))).
      { rewrite walk_items_state.
        - apply visits_state.
        - apply List.Forall_forall. intros kv _ s.
          apply sanitize_value_state. }
      destruct Hkv as (Hv & Hr & Hd).
      { eapply cache_within_trans; eassumption. }
      destruct (Sanitizer.sanitize_value v k s2) as [v2 s2'].
      unfold repeats in *. cbn [fst snd] in *. subst v2.
      destruct (IHitems Hrest (dict_set acc k v1) st1 s2') as (Hvs & Hrs & Hds).
      { now rewrite Hd, Hdet, Hd1. }
      { now apply (cache_within_same_replacer _ s2). }
      repeat split; [exact Hvs|now rewrite Hrs|now rewrite Hds]. }
    specialize (H [] st s2 Hdet).
    destruct (Sanitizer.walk_items _ items [] st) as [d1 st1].
    destruct (Sanitizer.walk_items _ items [] s2) as [d2 s2'].
    destruct (H Hc) as (Hv & Hr & Hd). unfold repeats in *. cbn [fst snd] in *.
    repeat split; [now rewrite Hv|exact Hr|exact Hd].
Qed.

(** X11. What was sanitized once is sanitized the same way ever after:
    when a value has been walked and the walker later has the same
    detectors and a cache that still holds what the cache held right after
    that walk (the cache only grows, so every later state of the run does),
    walking the value again gives the same sanitized value, and the
    Replacer is left as it was: nothing new is generated. *)
Theorem a_value_is_sanitized_the_same_way_again (value : json)
    (field_name : str) st (s2 : Sanitizer.t G) :
  Sanitizer._detectors s2 = Sanitizer._detectors st ->
  cache_within (snd (Sanitizer.sanitize_value value field_name st)) s2 ->
  fst (Sanitizer.sanitize_value value field_name s2)
  = fst (Sanitizer.sanitize_value value field_name st)
  /\ Sanitizer._replacer (snd (Sanitizer.sanitize_value value field_name s2))
     = Sanitizer._replacer s2.
Proof.
  intros Hdet Hc.
  destruct (sanitize_value_again value field_name st s2 Hdet Hc)
    as (Hv & Hr & _).
  now split.
Qed.

End WalkerAgain.

Lemma a_value_is_sanitized_the_same_way_again_witness :
  let value := JStr (lit "write to ann@corp.io") in
  let s1 := snd (Sanitizer.sanitize_value value (lit "note") sample_sanitizer) in
  let s2 := snd (Sanitizer.sanitize_value (JList sample_records) (lit "root") s1) in
  fst (Sanitizer.sanitize_value value (lit "note") sample_sanitizer)
  = JStr (lit "write to alice.martin@example.org")
  /\ fst (Sanitizer.sanitize_value value (lit "note") s2)
     = fst (Sanitizer.sanitize_value value (lit "note") sample_sanitizer)
  /\ Sanitizer._replacer (snd (Sanitizer.sanitize_value value (lit "note") s2))
     = Sanitizer._replacer s2.
Proof.
  intros value s1 s2. split; [vm_compute; reflexivity|].
  apply (a_value_is_sanitized_the_same_way_again value (lit "note")
           sample_sanitizer s2).
  - transitivity (Sanitizer._detectors s1); apply sanitize_value_keeps.
  - apply sanitize_value_keeps.
Defined.

(** * Runs over files *)

Section FileRuns.
Context {G : Type} {F : Faker G}.
Implicit Types (st : Sanitizer.t G) (disk : gmap (list ascii) (list ascii)).

Lemma write_touches_output_only (w : world) (output_path : str)
    (data : list json) disk (p : str) :
  p <> output_path ->
  (Sanitizer._write_json_file w output_path data disk).2 !! p = disk !! p.
Proof.
  intros Hp. unfold Sanitizer._write_json_file.
  destruct (mkdir_parents w output_path); [reflexivity|].
  destruct (open_for_writing w output_path); [reflexivity|].
  destruct (json_dump w data); cbn [snd];
    now rewrite lookup_insert_ne by congruence.
Qed.

Lemma sanitize_file_touches_output_only (w : world)
    (input_path output_path : str) st disk (p : str) :
  p <> output_path ->
  (Sanitizer.sanitize_file w input_path output_path st disk).2 !! p = disk !! p.
Proof.
  intros Hp. unfold Sanitizer.sanitize_file.
  destruct (Sanitizer._read_json_file w input_path) as [records|e];
    [|reflexivity].
  destruct (Sanitizer.sanitize_records records _) as [[sanitized|e] st1];
    [|reflexivity].
  pose proof (write_touches_output_only w output_path sanitized disk p Hp) as H.
  destruct (Sanitizer._write_json_file w output_path sanitized disk)
    as [[u|e] disk1]; exact H.
Qed.

Lemma sanitize_file_success (w : world) (input_path output_path : str) st disk :
  let run := Sanitizer.sanitize_file w input_path output_path st disk in
  success run.1.1 = true ->
  exists (records sanitized : list json) (text : str),
    Sanitizer._read_json_file w input_path = Ok records
    /\ fst (Sanitizer.sanitize_records records
              (Sanitizer.Mk (Sanitizer._detectors st)
                 (Sanitizer._replacer st) 0 0)) = Ok sanitized
    /\ length sanitized = length records
    /\ json_dump w sanitized = DumpOk text
    /\ run.2 = <[output_path := text]> disk.
Proof.
  unfold Sanitizer.sanitize_file.
  destruct (Sanitizer._read_json_file w input_path) as [records|e];
    [|destruct e; discriminate].
  set (st0 := Sanitizer.Mk _ _ 0 0).
  destruct (Sanitizer.sanitize_records records st0) as [[sanitized|e] st1] eqn:Es;
    [|destruct e; discriminate].
  destruct (sanitize_records_state _ _ _ _ Es) as [_ Hlen].
  unfold Sanitizer._write_json_file.
  destruct (mkdir_parents w output_path) as [e|]; [destruct e; discriminate|].
  destruct (open_for_writing w output_path) as [e|]; [destruct e; discriminate|].
  destruct (json_dump w sanitized) as [text|written e] eqn:Ed;
    [|destruct e; discriminate].
  intros _. exists records, sanitized, text. rewrite Es. now repeat split.
Qed.

(** X12. [sanitize_file] writes to the output path only: every other path
    of the disk, the input file among them when it is another path, holds
    after the run what it held before. After a successful run the output
    file holds the text that [json.dump] produced for the sanitized
    records, of which there are as many as records were read. *)
Theorem only_the_output_file_is_written (w : world)
    (input_path output_path : str) st disk :
  let run := Sanitizer.sanitize_file w input_path output_path st disk in
  (forall p : str, p <> output_path -> run.2 !! p = disk !! p)
  /\ (success run.1.1 = true ->
      exists (records sanitized : list json) (text : str),
        Sanitizer._read_json_file w input_path = Ok records
        /\ fst (Sanitizer.sanitize_records records
                  (Sanitizer.Mk (Sanitizer._detectors st)
                     (Sanitizer._replacer st) 0 0)) = Ok sanitized
        /\ length sanitized = length records
        /\ json_dump w sanitized = DumpOk text
        /\ run.2 = <[output_path := text]> disk).
Proof.
  split.
  - intros p. apply sanitize_file_touches_output_only.
  - apply sanitize_file_success.
Qed.

Lemma sanitize_records_stops (before after : list json) (r : json) st :
  Forall (fun v => is_record v = true) before -> is_record r = false ->
  fst (Sanitizer.sanitize_records (before ++ r :: after) st)
  = Raise (AttributeError
             (lit "'" ++ type_name r ++ lit "' object has no attribute 'items'")).
Proof.
  intros Hbefore Hr. revert st.
  induction before as [|v before IH]; intros st.
  - cbn [app]. destruct r; try reflexivity. discriminate Hr.
  - inversion Hbefore as [|? ? Hv Hrest]; subst.
    destruct v; try discriminate Hv.
    cbn [app Sanitizer.sanitize_records].
    destruct (Sanitizer.walk_items Sanitizer.sanitize_value items [] st)
      as [d st1].
    specialize (IH Hrest st1).
    destruct (Sanitizer.sanitize_records (before ++ r :: after) st1)
      as [[rs|e] st2]; cbn [fst] in *; [discriminate IH|exact IH].
Qed.

(** X13. An array element that is no JSON object makes the run fail before
    anything is written: when the input holds an array whose first element
    that is not an object is [r], [sanitize_file] returns the failure
    "Unexpected error during sanitization: '<type of r>' object has no
    attribute 'items'" and the disk is as it was. *)
Theorem non_object_record_fails_the_run (w : world)
    (input_path output_path : str) st disk
    (before after : list json) (r : json) :
  Sanitizer._read_json_file w input_path = Ok (before ++ r :: after) ->
  Forall (fun v => is_record v = true) before -> is_record r = false ->
  let run := Sanitizer.sanitize_file w input_path output_path st disk in
  run.1.1 = Sanitizer.failure
              (lit "Unexpected error during sanitization: '" ++ type_name r
                 ++ lit "' object has no attribute 'items'")
  /\ run.2 = disk.
Proof.
  intros Hread Hbefore Hr. unfold Sanitizer.sanitize_file. rewrite Hread.
  set (st0 := Sanitizer.Mk _ _ 0 0).
  pose proof (sanitize_records_stops before after r st0 Hbefore Hr) as H.
  destruct (Sanitizer.sanitize_records (before ++ r :: after) st0)
    as [[rs|e] st1]; cbn [fst] in H; [discriminate H|].
  inversion H; subst. now split.
Qed.

(** X14. A JSON document whose root is not an array is turned away as a
    read error: the JSONParseError raised for it inside [_read_json_file]
    is caught by that function's own last handler, so what leaves the
    function is a FileNotFoundError, and [sanitize_file] fails with "Error
    reading file: JSON root must be an array at line 1, column 1", writing
    nothing. *)
Theorem non_array_root_is_a_read_error (w : world)
    (input_path output_path : str) st disk (root : json) :
  path_exists w input_path = true -> path_is_file w input_path = true ->
  open_and_load w input_path = LoadOk root -> is_array root = false ->
  let message :=
    lit "Error reading file: JSON root must be an array at line 1, column 1" in
  let run := Sanitizer.sanitize_file w input_path output_path st disk in
  Sanitizer._read_json_file w input_path = Raise (FileNotFoundError message)
  /\ run.1.1 = Sanitizer.failure message
  /\ run.2 = disk.
Proof.
  intros Hexists Hfile Hload Hroot message run.
  assert (Hread : Sanitizer._read_json_file w input_path
                  = Raise (FileNotFoundError message)).
  { unfold Sanitizer._read_json_file. rewrite Hexists, Hfile, Hload.
    destruct root; try reflexivity. discriminate Hroot. }
  split; [exact Hread|]. subst run. unfold Sanitizer.sanitize_file.
  rewrite Hread. now split.
Qed.


End FileRuns.

Lemma non_object_record_fails_the_run_witness :
  let run := Sanitizer.sanitize_file mixed_array_world (lit "in.json")
               (lit "out.json") sample_sanitizer ∅ in
  run.1.1 = Sanitizer.failure
              (lit "Unexpected error during sanitization: 'int' object has no attribute 'items'")
  /\ run.2 = ∅.
Proof.
  apply (non_object_record_fails_the_run mixed_array_world (lit "in.json")
           (lit "out.json") sample_sanitizer ∅
           [JDict [(lit "email", JStr (lit "ann@corp.io"))]] [] (JInt 5)).
  - reflexivity.
  - constructor; [reflexivity|constructor].
  - reflexivity.
Defined.

Lemma non_array_root_is_a_read_error_witness :
  let message :=
    lit "Error reading file: JSON root must be an array at line 1, column 1" in
  let run := Sanitizer.sanitize_file object_root_world (lit "in.json")
               (lit "out.json") sample_sanitizer ∅ in
  Sanitizer._read_json_file object_root_world (lit "in.json")
  = Raise (FileNotFoundError message)
  /\ run.1.1 = Sanitizer.failure message
  /\ run.2 = ∅.
Proof.
  apply (non_array_root_is_a_read_error object_root_world (lit "in.json")
           (lit "out.json") sample_sanitizer ∅
           (JDict [(lit "email", JStr (lit "ann@corp.io"))]));
    reflexivity.
Defined.

(** * The Luhn checksum *)

Section LuhnErrors.

Lemma double_odd_app (i : nat) (l1 l2 : list Z) :
  CreditCardDetector.double_odd i (l1 ++ l2)
  = CreditCardDetector.double_odd i l1
      ++ CreditCardDetector.double_odd (i + length l1) l2.
Proof.
  revert i. induction l1 as [|x l1 IH]; intros i; cbn [app length].
  - now rewrite Nat.add_0_r.
  - cbn [CreditCardDetector.double_odd app]. rewrite IH.
    now replace (S i + length l1)%nat with (i + S (length l1))%nat by lia.
Qed.

Lemma sum_app (l1 l2 : list Z) :
  CreditCardDetector.sum (l1 ++ l2)
  = CreditCardDetector.sum l1 + CreditCardDetector.sum l2.
Proof.
  rewrite !sum_fold_right, fold_right_app.
  induction l1 as [|x l1 IH]; cbn [fold_right]; lia.
Qed.

Lemma digit_value_range (c : ascii) :
  is_digit c = true -> 0 <= digit_value c <= 9.
Proof.
  unfold is_digit, in_range, digit_value. intros H.
  apply andb_true_iff in H as [H1 H2].
  apply Nat.leb_le in H1, H2. lia.
Qed.

Lemma digit_value_inj (c c' : ascii) :
  is_digit c = true -> is_digit c' = true ->
  digit_value c = digit_value c' -> c = c'.
Proof.
  unfold is_digit, in_range, digit_value, code. intros H H' Heq.
  apply andb_true_iff in H as [H1 H2]. apply andb_true_iff in H' as [H1' H2'].
  apply Nat.leb_le in H1, H2, H1', H2'.
  rewrite <- (ascii_nat_embedding c), <- (ascii_nat_embedding c').
  f_equal. lia.
Qed.

(** The sum of the check for a digit string with the digit [d] at one
    place: the part of the other digits and the term of [d]. *)
Lemma luhn_total_split (a b : str) (d : ascii) :
  CreditCardDetector.sum
    (CreditCardDetector.double_odd 0 (map digit_value (rev (a ++ d :: b))))
  = CreditCardDetector.sum
      (CreditCardDetector.double_odd 0 (map digit_value (rev b)))
    + CreditCardDetector.sum
        (CreditCardDetector.double_odd (S (length b)) (map digit_value (rev a)))
    + (if Nat.odd (length b)
       then (if digit_value d * 2 >? 9 then digit_value d * 2 - 9
             else digit_value d * 2)
       else digit_value d).
Proof.
  rewrite rev_app_distr. cbn [rev]. rewrite <- app_assoc. cbn [app].
  rewrite map_app, double_odd_app, sum_app. cbn [map].
  rewrite length_map, length_rev. cbn [Nat.add CreditCardDetector.double_odd].
  change (?x :: ?l) with ([x] ++ l) at 1. rewrite sum_app.
  unfold CreditCardDetector.sum at 2. cbn [fold_left]. lia.
Qed.

(** X16. The Luhn check of the card detector catches every single wrong
    digit: when a string of digits passes [_luhn_check], the string with
    one digit replaced by another digit does not; and so, for 13 to 19
    digits, the detector reports nothing for the altered number. *)
Theorem luhn_check_catches_one_wrong_digit (a b : str) (d d' : ascii)
    (field_name : str) :
  forallb is_digit (a ++ d :: b) = true -> is_digit d' = true -> d <> d' ->
  CreditCardDetector._luhn_check (a ++ d :: b) = true ->
  CreditCardDetector._luhn_check (a ++ d' :: b) = false
  /\ ((13 <= length (a ++ d' :: b) <= 19)%nat ->
      CreditCardDetector.detect (a ++ d' :: b) field_name = []).
Proof.
  intros Hall Hd' Hne Hluhn.
  assert (Hd : is_digit d = true).
  { rewrite forallb_app in Hall. cbn [forallb] in Hall.
    repeat (apply andb_true_iff in Hall as [? Hall]); tauto. }
  assert (Hall' : forallb is_digit (a ++ d' :: b) = true).
  { rewrite forallb_app in *. cbn [forallb] in *. rewrite Hd'.
    rewrite Hd in Hall. exact Hall. }
  assert (Hfalse : CreditCardDetector._luhn_check (a ++ d' :: b) = false).
  { destruct (CreditCardDetector._luhn_check (a ++ d' :: b)) eqn:Hluhn';
      [|reflexivity].
    exfalso. apply Hne. apply digit_value_inj; [exact Hd|exact Hd'|].
    unfold CreditCardDetector._luhn_check in Hluhn, Hluhn'.
    destruct (negb (isdigit (a ++ d :: b))); [discriminate|].
    destruct (negb (isdigit (a ++ d' :: b))); [discriminate|].
    cbv zeta in Hluhn, Hluhn'. rewrite luhn_total_split in Hluhn, Hluhn'.
    apply Z.eqb_eq in Hluhn, Hluhn'.
    pose proof (digit_value_range d Hd). pose proof (digit_value_range d' Hd').
    set (x := digit_value d) in *. set (y := digit_value d') in *.
    set (rest := CreditCardDetector.sum _ + CreditCardDetector.sum _) in *.
    apply Z.mod_divide in Hluhn as [q Hq]; [|lia].
    apply Z.mod_divide in Hluhn' as [q' Hq']; [|lia].
    destruct (Nat.odd (length b));
      [destruct (Z.gtb_spec (x * 2) 9), (Z.gtb_spec (y * 2) 9)|]; lia. }
  split; [exact Hfalse|]. intros Hlen.
  rewrite (card_run_detection _ field_name Hall' Hlen), Hfalse.
  now rewrite andb_false_r.
Qed.

End LuhnErrors.

Lemma luhn_check_catches_one_wrong_digit_witness :
  CreditCardDetector._luhn_check (lit "4111111111111111") = true
  /\ CreditCardDetector._luhn_check (lit "4121111111111111") = false
  /\ ((13 <= length (lit "4121111111111111") <= 19)%nat ->
      CreditCardDetector.detect (lit "4121111111111111") (lit "card") = []).
Proof.
  split; [reflexivity|].
  apply (luhn_check_catches_one_wrong_digit (lit "41") (lit "1111111111111")
           "1"%char "2"%char (lit "card")); try reflexivity.
  discriminate.
Defined.

(** * What the pattern detectors report *)

Section PatternFacts.

Lemma firstn_plus {A} (n m : nat) (l : list A) :
  firstn (n + m) l = firstn n l ++ firstn m (skipn n l).
Proof.
  revert l. induction n as [|n IH]; intros l; [reflexivity|].
  destruct l as [|x l]; cbn [Nat.add firstn skipn app].
  - now destruct m.
  - now rewrite IH.
Qed.

Lemma skipn_plus {A} (n m : nat) (l : list A) :
  skipn (n + m) l = skipn m (skipn n l).
Proof.
  revert l. induction n as [|n IH]; intros l; [reflexivity|].
  destruct l as [|x l]; cbn [Nat.add skipn]; [now destruct m|apply IH].
Qed.

Lemma slice_split (s : str) (i m j : nat) :
  (i <= m <= j)%nat -> slice s i j = slice s i m ++ slice s m j.
Proof.
  intros H. unfold slice.
  replace (j - i)%nat with ((m - i) + (j - m))%nat by lia.
  rewrite firstn_plus. f_equal. f_equal.
  rewrite <- skipn_plus. f_equal. lia.
Qed.

Lemma slice_one (s : str) (i : nat) (c : ascii) :
  nth_error s i = Some c -> slice s i (S i) = [c].
Proof.
  unfold slice. replace (S i - i)%nat with 1%nat by lia.
  revert s. induction i as [|i IH]; intros [|x s] H; try discriminate.
  - inversion H. reflexivity.
  - cbn [skipn]. now apply IH.
Qed.

Lemma firstn_run (p : ascii -> bool) (m : nat) (l : str) :
  (m <= run_length p l)%nat ->
  forallb p (firstn m l) = true /\ length (firstn m l) = m.
Proof.
  revert l. induction m as [|m IH]; intros l H; [now split|].
  destruct l as [|c l]; cbn [run_length] in H; [lia|].
  destruct (p c) eqn:Hc; [|lia].
  destruct (IH l) as [Hall Hlen]; [lia|].
  cbn [firstn forallb length]. now rewrite Hc, Hall, Hlen.
Qed.

(** What the matcher consumes is a string of the pattern. *)
Lemma rmatch_sound (r : regex) (s : str) :
  forall (i : nat) (k : nat -> option nat) (e : nat),
    (i <= length s)%nat -> rmatch r s i k = Some e ->
    exists j, (i <= j <= length s)%nat /\ lang r (slice s i j) /\ k j = Some e.
Proof.
  induction r as [p | p lo hi | | r1 IH1 r2 IH2 | r1 IH1 r2 IH2];
    intros i k e Hi H; cbn [rmatch lang] in *.
  - destruct (nth_error s i) as [c|] eqn:E; [|discriminate].
    destruct (p c) eqn:Hc; [|discriminate].
    assert (i < length s)%nat by (apply nth_error_Some; congruence).
    exists (S i). split; [lia|]. split; [|exact H].
    exists c. split; [now apply slice_one|exact Hc].
  - apply backtrack_some in H as (m & Hm & Hk).
    pose proof (greedy_count_le p hi (skipn i s)) as Hg.
    rewrite length_skipn in Hg.
    exists (i + m)%nat. split; [lia|]. split; [|exact Hk].
    unfold slice. replace (i + m - i)%nat with m by lia.
    destruct (firstn_run p m (skipn i s)) as [Hall Hlen].
    { unfold greedy_count in Hm. destruct hi; lia. }
    rewrite Hlen. split; [lia|]. split; [|exact Hall].
    unfold greedy_count in Hm. destruct hi; [lia|exact I].
  - destruct (at_boundary s i); [|discriminate].
    exists i. split; [lia|]. split; [|exact H].
    unfold slice. now rewrite Nat.sub_diag.
  - apply IH1 in H as (j1 & Hj1 & L1 & H); [|exact Hi].
    apply IH2 in H as (j2 & Hj2 & L2 & H); [|lia].
    exists j2. split; [lia|]. split; [|exact H].
    exists (slice s i j1), (slice s j1 j2).
    split; [apply slice_split; lia|]. now split.
  - destruct (rmatch r1 s i k) as [e1|] eqn:E1.
    + inversion H; subst. apply IH1 in E1 as (j & Hj & L & Hk); [|exact Hi].
      exists j. split; [lia|]. split; [now left|exact Hk].
    + apply IH2 in H as (j & Hj & L & Hk); [|exact Hi].
      exists j. split; [lia|]. split; [now right|exact Hk].
Qed.

(** The matches of a scan, from left to right: each is a string of the
    pattern, starts at or after the point the scan started from, and ends
    before the next one starts. *)
Lemma scan_in_order (r : regex) (s : str) (fuel p : nat) :
  Forall (fun m => Z.of_nat p <= m_start m <= m_end m /\ lang r (m_group m))
    (scan r s fuel p)
  /\ StronglySorted (fun a b => m_end a <= m_start b) (scan r s fuel p).
Proof.
  revert p. induction fuel as [|fuel IH]; intros p; cbn [scan].
  { split; constructor. }
  destruct (Nat.ltb_spec (length s) p) as [|Hp]; [split; constructor|].
  destruct (rmatch r s p Some) as [e|] eqn:E.
  - apply rmatch_sound in E as (j & Hj & L & Hk); [|exact Hp].
    inversion Hk; subst j.
    set (next := if Nat.eqb e p then S p else e).
    assert (Hnext : (e <= next)%nat /\ (p <= next)%nat)
      by (subst next; destruct (Nat.eqb_spec e p); lia).
    destruct (IH next) as [Hall Hsorted]. split.
    + constructor; [cbn; split; [lia|exact L]|].
      revert Hall. apply List.Forall_impl. intros m [Hm Hl]. split; [lia|exact Hl].
    + constructor; [exact Hsorted|].
      revert Hall. apply List.Forall_impl. intros m [Hm _]. cbn. lia.
  - destruct (IH (S p)) as [Hall Hsorted]. split; [|exact Hsorted].
    revert Hall. apply List.Forall_impl. intros m [Hm Hl]. split; [lia|exact Hl].
Qed.

Lemma finditer_in_order (r : regex) (s : str) :
  Forall (fun m => lang r (m_group m)) (finditer r s)
  /\ StronglySorted (fun a b => m_end a <= m_start b) (finditer r s).
Proof.
  destruct (scan_in_order r s (S (length s)) 0) as [Hall Hsorted].
  split; [|exact Hsorted].
  revert Hall. apply List.Forall_impl. now intros m [_ Hl].
Qed.

Lemma StronglySorted_map {A B} (R : B -> B -> Prop) (f : A -> B) (l : list A) :
  StronglySorted (fun x y => R (f x) (f y)) l -> StronglySorted R (map f l).
Proof.
  induction 1 as [|x l Hs IH Hx]; cbn [map]; constructor; [exact IH|].
  apply Forall_map. exact Hx.
Qed.

Lemma StronglySorted_flat_map_option {A B} (R : B -> B -> Prop)
    (f : A -> list B) (g : A -> B) (l : list A) :
  (forall x, f x = [] \/ f x = [g x]) ->
  StronglySorted (fun x y => R (g x) (g y)) l ->
  StronglySorted R (flat_map f l).
Proof.
  intros Hf. induction 1 as [|x l Hs IH Hx]; cbn [flat_map]; [constructor|].
  destruct (Hf x) as [-> | ->]; cbn [app]; [exact IH|].
  constructor; [exact IH|].
  apply Forall_flat_map. revert Hx. apply List.Forall_impl. intros y Hy.
  destruct (Hf y) as [-> | ->]; repeat constructor. exact Hy.
Qed.

Lemma lang_email (w : str) :
  lang EmailDetector.EMAIL_PATTERN w -> email_shape w.
Proof.
  unfold EmailDetector.EMAIL_PATTERN, rseq, plus, at_least.
  cbn [fold_right lang].
  intros (w0 & r0 & -> & -> & local & r1 & -> & (Hl & _ & Hlocal)
          & at_ & r2 & -> & (c1 & -> & Hat)
          & domain & r3 & -> & (Hd & _ & Hdomain)
          & dot & r4 & -> & (c2 & -> & Hdot)
          & tld & r5 & -> & (Ht & _ & Htld) & ->).
  apply is_char_eq in Hat, Hdot. subst c1 c2.
  exists local, domain, tld. rewrite app_nil_r. cbn [app].
  split; [reflexivity|].
  split; [destruct local; [cbn in Hl; lia|discriminate]|].
  split; [exact Hlocal|].
  split; [destruct domain; [cbn in Hd; lia|discriminate]|].
  now repeat split.
Qed.

(** X17. What the e-mail detector reports: every detection has type EMAIL
    and confidence 1.0, and its original has the form local@domain.tld,
    with a non-empty local part of letters, digits and [._%+-], a
    non-empty domain of letters, digits, dots and dashes, and a last part
    of at least two characters that are letters or [|]. The detections
    come in the order of the text and do not overlap. *)
Theorem email_detections_have_the_shape (text field_name : str) :
  Forall (fun d => pii_type d = EMAIL /\ confidence d = 1%float
                   /\ email_shape (original_value d))
    (EmailDetector.detect text field_name)
  /\ StronglySorted precedes (EmailDetector.detect text field_name).
Proof.
  unfold EmailDetector.detect.
  destruct (finditer_in_order EmailDetector.EMAIL_PATTERN text)
    as [Hall Hsorted].
  split.
  - apply Forall_map. revert Hall. apply List.Forall_impl. intros m Hl.
    cbn. repeat split. now apply lang_email.
  - apply StronglySorted_map. exact Hsorted.
Qed.

End PatternFacts.

Section CardFacts.

Lemma strip_separators_app (a b : str) :
  strip_separators (a ++ b) = strip_separators a ++ strip_separators b.
Proof. unfold strip_separators. apply List.filter_app. Qed.

Lemma strip_card_separator (s : str) :
  card_separator s -> strip_separators s = [].
Proof.
  intros [_ Hs]. unfold strip_separators.
  induction s as [|c s IH]; [reflexivity|]. cbn [forallb] in Hs.
  apply andb_true_iff in Hs as [Hc Hs]. cbn [List.filter].
  unfold CreditCardDetector.sep in Hc. rewrite Hc. cbn [negb]. now apply IH.
Qed.

Lemma strip_digit_group (lo hi : nat) (g : str) :
  digit_group lo hi g -> strip_separators g = g.
Proof. intros [_ Hg]. now apply strip_separators_digits. Qed.

Lemma lang_card (w : str) :
  lang CreditCardDetector.CARD_PATTERN w -> card_shape w.
Proof.
  unfold CreditCardDetector.CARD_PATTERN, rseq, exactly, between, opt.
  cbn [fold_right lang].
  intros (w0 & r0 & -> & -> & body & r1 & -> & Hbody & ->).
  rewrite app_nil_r. cbn [app].
  destruct Hbody as [H|H].
  - destruct H as (g1 & r2 & -> & (Hg1 & Hg1' & Dg1)
                   & s1 & r3 & -> & (_ & Hs1 & Ds1)
                   & g2 & r4 & -> & (Hg2 & Hg2' & Dg2)
                   & s2 & r5 & -> & (_ & Hs2 & Ds2)
                   & g3 & r6 & -> & (Hg3 & Hg3' & Dg3)
                   & s3 & g4 & -> & (_ & Hs3 & Ds3) & (Hg4 & Hg4' & Dg4)).
    left. exists g1, s1, g2, s2, g3, s3, g4. unfold digit_group, card_separator.
    repeat split; assumption.
  - destruct H as (g1 & r2 & -> & (Hg1 & Hg1' & Dg1)
                   & s1 & r3 & -> & (_ & Hs1 & Ds1)
                   & g2 & r4 & -> & (Hg2 & Hg2' & Dg2)
                   & s2 & g3 & -> & (_ & Hs2 & Ds2) & (Hg3 & Hg3' & Dg3)).
    right. exists g1, s1, g2, s2, g3. unfold digit_group, card_separator.
    repeat split; assumption.
Qed.

(** A string of one of the two layouts has 15 to 19 digits, and nothing
    but digits is left when its separators are taken out. *)
Lemma card_shape_digits (w : str) :
  card_shape w ->
  forallb is_digit (strip_separators w) = true
  /\ (15 <= length (strip_separators w) <= 19)%nat
  /\ (length w <= length (strip_separators w) + 3)%nat.
Proof.
  intros [(g1 & s1 & g2 & s2 & g3 & s3 & g4 & -> & G1 & G2 & G3 & G4 & S1 & S2 & S3)
         |(g1 & s1 & g2 & s2 & g3 & -> & G1 & G2 & G3 & S1 & S2)];
    rewrite !strip_separators_app;
    repeat match goal with
           | H : digit_group _ _ ?g |- _ =>
               rewrite (strip_digit_group _ _ g H); destruct H as [? ?]
           | H : card_separator ?s |- _ =>
               rewrite (strip_card_separator s H); destruct H as [? _]
           end;
    cbn [app]; rewrite ?app_nil_r, ?forallb_app, ?length_app;
    repeat split; try lia;
    repeat (apply andb_true_iff; split); assumption.
Qed.

(** X18. What the card detector reports. Every match of the card pattern
    has 15 to 19 digits once its separators are taken out, so the length
    test of the detector never turns a match away, and the detector
    reports exactly the matches whose digits pass the Luhn check. Every
    detection has type CREDIT_CARD and confidence 1.0, its original has
    one of the two layouts of the pattern (4-4-4-(3 to 7) or 4-6-5 digits,
    at most one separator between groups), and the detections come in the
    order of the text and do not overlap. *)
Theorem card_detections_have_the_shape (text field_name : str) :
  CreditCardDetector.detect text field_name
  = map card_of_match
      (List.filter passes_luhn (finditer CreditCardDetector.CARD_PATTERN text))
  /\ Forall (fun d => pii_type d = CREDIT_CARD /\ confidence d = 1%float
                      /\ card_shape (original_value d)
                      /\ forallb is_digit (strip_separators (original_value d))
                         = true
                      /\ (15 <= length (strip_separators (original_value d))
                          <= 19)%nat
                      /\ CreditCardDetector._luhn_check
                           (strip_separators (original_value d)) = true)
       (CreditCardDetector.detect text field_name)
  /\ StronglySorted precedes (CreditCardDetector.detect text field_name).
Proof.
  destruct (finditer_in_order CreditCardDetector.CARD_PATTERN text)
    as [Hall Hsorted].
  assert (Heq : CreditCardDetector.detect text field_name
                = map card_of_match
                    (List.filter passes_luhn
                       (finditer CreditCardDetector.CARD_PATTERN text))).
  { unfold CreditCardDetector.detect. clear Hsorted.
    induction Hall as [|m l Hm Hl IH]; [reflexivity|].
    cbn [flat_map List.filter]. rewrite IH.
    destruct (card_shape_digits _ (lang_card _ Hm)) as (_ & Hlen & _).
    replace ((13 <=? Z.of_nat (length (strip_separators (m_group m))))
             && (Z.of_nat (length (strip_separators (m_group m))) <=? 19))
      with true by (symmetry; apply andb_true_iff; split; apply Z.leb_le; lia).
    unfold passes_luhn at 2.
    destruct (CreditCardDetector._luhn_check (strip_separators (m_group m)));
      reflexivity. }
  split; [exact Heq|]. rewrite Heq. split.
  - apply Forall_map. apply List.Forall_forall. intros m Hin.
    apply List.filter_In in Hin as [Hin Hluhn].
    rewrite List.Forall_forall in Hall. specialize (Hall m Hin).
    pose proof (lang_card _ Hall) as Hshape.
    destruct (card_shape_digits _ Hshape) as (Hd & Hlen & _).
    unfold card_of_match. cbn [pii_type confidence original_value].
    split; [reflexivity|]. split; [reflexivity|]. split; [exact Hshape|].
    split; [exact Hd|]. split; [exact Hlen|exact Hluhn].
  - apply StronglySorted_map.
    clear Hall Heq. induction Hsorted as [|m l Hs IH Hm]; cbn [List.filter];
      [constructor|].
    destruct (passes_luhn m); [|exact IH].
    constructor; [exact IH|].
    apply List.Forall_forall. intros m' Hin.
    apply List.filter_In in Hin as [Hin _].
    rewrite List.Forall_forall in Hm. exact (Hm m' Hin).
Qed.

End CardFacts.

(** * Formatted phone replacements *)

Section PhoneFormats.
Context {G : Type} {F : Faker G}.

Lemma digit_in_no_other_class (c : ascii) :
  is_digit c = true ->
  is_word c = true /\ PhoneDetector.sep c = false /\ is_space c = false
  /\ is_char "+" c = false /\ is_char "(" c = false /\ is_char ")" c = false.
Proof.
  destruct c as [[] [] [] [] [] [] [] []]; intros H;
    (discriminate H || (repeat split; reflexivity)).
Qed.

Lemma same_class_word (c c' : ascii) : same_class c c' -> is_word c = is_word c'.
Proof.
  intros [[H H'] | ->]; [|reflexivity].
  destruct (digit_in_no_other_class c H) as [-> _].
  now destruct (digit_in_no_other_class c' H') as [-> _].
Qed.

Lemma phone_patterns_respect :
  Forall (respects same_class) PhoneDetector.PHONE_PATTERNS.
Proof.
  assert (Hc : forall p : ascii -> bool,
             (forall c, is_digit c = true -> p c = false) ->
             forall c c', same_class c c' -> p c = p c').
  { intros p Hp c c' [[H H'] | ->]; [|reflexivity]. now rewrite !Hp. }
  assert (Hd : forall c c', same_class c c' -> is_digit c = is_digit c').
  { intros c c' [[H H'] | ->]; congruence. }
  pose proof (Hc PhoneDetector.sep
                (fun c H => proj1 (proj2 (digit_in_no_other_class c H)))) as Hsep.
  pose proof (Hc is_space
                (fun c H => proj1 (proj2 (proj2 (digit_in_no_other_class c H)))))
    as Hspace.
  pose proof (Hc (is_char "+")
                (fun c H => proj1 (proj2 (proj2 (proj2
                                    (digit_in_no_other_class c H)))))) as Hplus.
  pose proof (Hc (is_char "(")
                (fun c H => proj1 (proj2 (proj2 (proj2 (proj2
                                    (digit_in_no_other_class c H))))))) as Hopen.
  pose proof (Hc (is_char ")")
                (fun c H => proj2 (proj2 (proj2 (proj2 (proj2
                                    (digit_in_no_other_class c H))))))) as Hclose.
  repeat constructor; assumption.
Qed.

Lemma finditer_same_spans (r : regex) (s s' : str) :
  Forall2 same_class s s' -> respects same_class r ->
  map m_span (finditer r s) = map m_span (finditer r s').
Proof.
  intros Hs Hr. unfold finditer. rewrite <- (Forall2_length _ _ _ Hs).
  now apply (scan_related same_class same_class_word).
Qed.

Lemma finditer_of_spans (r : regex) (s : str) :
  finditer r s = map (match_of_span s) (map m_span (finditer r s)).
Proof.
  unfold finditer. pose proof (scan_matches r s (S (length s)) 0) as H.
  induction H as [|m l (a & b & -> & _) _ IH]; [reflexivity|].
  cbn [map]. rewrite <- IH. unfold match_of_span, m_span.
  cbn [fst snd m_start m_end]. now rewrite !Nat2Z.id.
Qed.

Lemma digits_same_class (lo : nat) (s : str) :
  digit_group lo lo s -> Forall2 same_class s (repeat "0"%char lo).
Proof.
  intros [Hlen H]. replace lo with (length s) by lia.
  eapply Forall2_impl; [apply digits_related, H|].
  intros c c' Hc. now left.
Qed.

Lemma same_class_refl (s : str) : Forall2 same_class s s.
Proof. induction s; constructor; [now right|assumption]. Qed.

Lemma filter_digits (s : str) :
  forallb is_digit s = true -> List.filter (fun c => is_digit c) s = s.
Proof.
  induction s as [|c s IH]; [reflexivity|]. cbn [forallb List.filter].
  intros H. apply andb_true_iff in H as [-> H]. now rewrite IH.
Qed.

(** The one detection for a text that one pattern matches as a whole and
    no other pattern matches anywhere. *)
Lemma phone_detect_whole (text field_name : str)
    (spans : list (list (Z * Z))) :
  map (fun pattern => map m_span (finditer pattern text))
    PhoneDetector.PHONE_PATTERNS = spans ->
  In spans [[[]; [(0, Z.of_nat (length text))]; []; []];
            [[]; []; [(0, Z.of_nat (length text))]; []]] ->
  PhoneDetector.digit_count text = 10 ->
  PhoneDetector.detect text field_name
  = [MkDetection PHONE text 1%float 0 (Z.of_nat (length text))].
Proof.
  intros Hspans Hin Hcount.
  assert (Hslice : slice text 0 (length text) = text)
    by (unfold slice; rewrite Nat.sub_0_r; apply firstn_all).
  unfold PhoneDetector.detect, PhoneDetector.all_matches.
  unfold PhoneDetector.PHONE_PATTERNS in *. cbn [map flat_map] in *.
  rewrite (finditer_of_spans PhoneDetector.pattern_international),
    (finditer_of_spans PhoneDetector.pattern_parentheses),
    (finditer_of_spans PhoneDetector.pattern_dashes),
    (finditer_of_spans PhoneDetector.pattern_plain).
  cbn [In] in Hin. destruct Hin as [Heq | [Heq | []]];
    rewrite <- Heq in Hspans; injection Hspans as H1 H2 H3 H4;
    rewrite H1, H2, H3, H4;
    cbn [map flat_map app match_of_span fst snd m_group m_start m_end];
    rewrite Nat2Z.id; change (Z.to_nat 0) with 0%nat;
    rewrite Hslice, Hcount; reflexivity.
Qed.

Lemma paren_phone_detected (a b c field_name : str) :
  digit_group 3 3 a -> digit_group 3 3 b -> digit_group 4 4 c ->
  PhoneDetector.detect (paren_phone a b c) field_name
  = [MkDetection PHONE (paren_phone a b c) 1%float 0 14].
Proof.
  intros Ga Gb Gc.
  assert (Hrel : Forall2 same_class (paren_phone a b c) (lit "(000) 000-0000")).
  { change (lit "(000) 000-0000")
      with (paren_phone (repeat "0"%char 3) (repeat "0"%char 3)
              (repeat "0"%char 4)).
    unfold paren_phone.
    repeat (apply Forall2_app;
            [first [now apply digits_same_class | apply same_class_refl]|]).
    now apply digits_same_class. }
  destruct Ga as [Ha Da], Gb as [Hb Db], Gc as [Hc Dc].
  assert (Hlen : length (paren_phone a b c) = 14%nat)
    by (unfold paren_phone; rewrite !length_app; cbn [length lit]; cbn; lia).
  pose proof phone_patterns_respect as Hresp.
  unfold PhoneDetector.PHONE_PATTERNS in Hresp.
  inversion Hresp as [|? ? R1 Hresp1]; subst.
  inversion Hresp1 as [|? ? R2 Hresp2]; subst.
  inversion Hresp2 as [|? ? R3 Hresp3]; subst.
  inversion Hresp3 as [|? ? R4 _]; subst.
  change 14 with (Z.of_nat 14). rewrite <- Hlen.
  eapply phone_detect_whole; [reflexivity| |].
  - unfold PhoneDetector.PHONE_PATTERNS. cbn [map].
    rewrite (finditer_same_spans _ _ _ Hrel R1),
      (finditer_same_spans _ _ _ Hrel R2),
      (finditer_same_spans _ _ _ Hrel R3),
      (finditer_same_spans _ _ _ Hrel R4), Hlen.
    left. vm_compute. reflexivity.
  - unfold PhoneDetector.digit_count, paren_phone.
    rewrite !List.filter_app, !length_app.
    rewrite (filter_digits a Da), (filter_digits b Db), (filter_digits c Dc).
    repeat match goal with
           | |- context [List.filter ?p (lit ?x)] =>
               change (List.filter p (lit x)) with (@nil ascii)
           end.
    cbn [length]. lia.
Qed.

Lemma dash_phone_detected (a b c field_name : str) :
  digit_group 3 3 a -> digit_group 3 3 b -> digit_group 4 4 c ->
  PhoneDetector.detect (dash_phone a b c) field_name
  = [MkDetection PHONE (dash_phone a b c) 1%float 0 12].
Proof.
  intros Ga Gb Gc.
  assert (Hrel : Forall2 same_class (dash_phone a b c) (lit "000-000-0000")).
  { change (lit "000-000-0000")
      with (dash_phone (repeat "0"%char 3) (repeat "0"%char 3)
              (repeat "0"%char 4)).
    unfold dash_phone.
    repeat (apply Forall2_app;
            [first [now apply digits_same_class | apply same_class_refl]|]).
    now apply digits_same_class. }
  destruct Ga as [Ha Da], Gb as [Hb Db], Gc as [Hc Dc].
  assert (Hlen : length (dash_phone a b c) = 12%nat)
    by (unfold dash_phone; rewrite !length_app; cbn [length lit]; cbn; lia).
  pose proof phone_patterns_respect as Hresp.
  unfold PhoneDetector.PHONE_PATTERNS in Hresp.
  inversion Hresp as [|? ? R1 Hresp1]; subst.
  inversion Hresp1 as [|? ? R2 Hresp2]; subst.
  inversion Hresp2 as [|? ? R3 Hresp3]; subst.
  inversion Hresp3 as [|? ? R4 _]; subst.
  change 12 with (Z.of_nat 12). rewrite <- Hlen.
  eapply phone_detect_whole; [reflexivity| |].
  - unfold PhoneDetector.PHONE_PATTERNS. cbn [map].
    rewrite (finditer_same_spans _ _ _ Hrel R1),
      (finditer_same_spans _ _ _ Hrel R2),
      (finditer_same_spans _ _ _ Hrel R3),
      (finditer_same_spans _ _ _ Hrel R4), Hlen.
    right. left. vm_compute. reflexivity.
  - unfold PhoneDetector.digit_count, dash_phone.
    rewrite !List.filter_app, !length_app.
    rewrite (filter_digits a Da), (filter_digits b Db), (filter_digits c Dc).
    repeat match goal with
           | |- context [List.filter ?p (lit ?x)] =>
               change (List.filter p (lit x)) with (@nil ascii)
           end.
    cbn [length]. lia.
Qed.

Lemma slice_digit_group (digits : str) (a n : nat) :
  forallb is_digit digits = true -> (a + n <= length digits)%nat ->
  digit_group n n (slice digits a (a + n)).
Proof.
  intros Hd Hlen. unfold digit_group, slice.
  replace (a + n - a)%nat with n by lia. split.
  - rewrite length_firstn, length_skipn. lia.
  - apply forallb_firstn.
    rewrite <- (firstn_skipn a digits), forallb_app in Hd.
    now apply andb_true_iff in Hd as [_ Hd].
Qed.

(** X19. A phone replacement in one of the two formats the Replacer
    builds itself is a phone number for the phone detector: when the
    generated number has at least ten digits and the original does not
    hold both "+" and "-", an original with "(" and ")" gets a
    replacement of the form (ddd) ddd-dddd, and any other original with a
    "-" one of the form ddd-ddd-dddd; and the phone detector finds in the
    replacement exactly one phone number, the whole of it. *)
Theorem formatted_phone_replacement_is_detected (original field_name : str)
    (r : Replacer.t G) :
  let digits := digits_of (fst (phone_number (Replacer._faker r))) in
  let fake := fst (Replacer._generate_phone original r) in
  (10 <= length digits)%nat ->
  has_char "+" original && has_char "-" original = false ->
  (has_char "(" original && has_char ")" original = true ->
   fake = paren_phone (slice digits 0 3) (slice digits 3 6) (slice digits 6 10)
   /\ PhoneDetector.detect fake field_name
      = [MkDetection PHONE fake 1%float 0 14])
  /\ (has_char "(" original && has_char ")" original = false ->
      has_char "-" original = true ->
      fake = dash_phone (slice digits 0 3) (slice digits 3 6) (slice digits 6 10)
      /\ PhoneDetector.detect fake field_name
         = [MkDetection PHONE fake 1%float 0 12]).
Proof.
  intros digits fake Hlen Hplus. subst fake.
  pose proof (digits_of_digits (fst (phone_number (Replacer._faker r)))) as Hd.
  fold digits in Hd.
  pose proof (slice_digit_group digits 0 3 Hd ltac:(lia)) as Ga.
  pose proof (slice_digit_group digits 3 3 Hd ltac:(lia)) as Gb.
  pose proof (slice_digit_group digits 6 4 Hd ltac:(lia)) as Gc.
  cbn [Nat.add] in Ga, Gb, Gc.
  unfold Replacer._generate_phone.
  destruct (phone_number (Replacer._faker r)) as [fake_phone g].
  cbn [fst] in digits. fold digits. rewrite Hplus.
  apply Nat.leb_le in Hlen.
  split.
  - intros Hparen. rewrite Hparen, Hlen. cbn [fst].
    split; [reflexivity|]. now apply paren_phone_detected.
  - intros Hparen Hdash. rewrite Hparen, Hdash, Hlen. cbn [fst].
    split; [reflexivity|]. now apply dash_phone_detected.
Qed.

End PhoneFormats.

Lemma formatted_phone_replacement_is_detected_witness :
  let original := lit "(555) 123-4567" in
  let r := Replacer.init 0%nat in
  let digits := digits_of (fst (phone_number (Replacer._faker r))) in
  let fake := fst (Replacer._generate_phone original r) in
  (digits = lit "2125550147" /\ fake = lit "(212) 555-0147")
  /\ (has_char "(" original && has_char ")" original = true ->
      fake = paren_phone (slice digits 0 3) (slice digits 3 6) (slice digits 6 10)
      /\ PhoneDetector.detect fake (lit "phone")
         = [MkDetection PHONE fake 1%float 0 14])
  /\ (has_char "(" original && has_char ")" original = false ->
      has_char "-" original = true ->
      fake = dash_phone (slice digits 0 3) (slice digits 3 6) (slice digits 6 10)
      /\ PhoneDetector.detect fake (lit "phone")
         = [MkDetection PHONE fake 1%float 0 12]).
Proof.
  intros original r digits fake. split; [split; reflexivity|].
  apply (formatted_phone_replacement_is_detected original (lit "phone") r).
  - vm_compute. lia.
  - reflexivity.
Defined.

(** * Texts the pattern detectors pass over *)

Section QuietTexts.
Context {G : Type} {F : Faker G}.

Lemma filter_firstn_length {A} (p : A -> bool) (n : nat) (l : list A) :
  (length (List.filter p (firstn n l)) <= length (List.filter p l))%nat.
Proof.
  revert n. induction l as [|x l IH]; intros [|n]; cbn [firstn List.filter length];
    try lia.
  specialize (IH n). destruct (p x); cbn [length]; lia.
Qed.

Lemma filter_skipn_length {A} (p : A -> bool) (n : nat) (l : list A) :
  (length (List.filter p (skipn n l)) <= length (List.filter p l))%nat.
Proof.
  revert n. induction l as [|x l IH]; intros [|n]; cbn [skipn List.filter length];
    try lia.
  specialize (IH n). destruct (p x); cbn [length]; lia.
Qed.

Lemma filter_filter_length {A} (p q : A -> bool) (l : list A) :
  (length (List.filter p (List.filter q l)) <= length (List.filter p l))%nat.
Proof.
  induction l as [|x l IH]; cbn [List.filter length]; [lia|].
  destruct (q x), (p x) eqn:Hp; cbn [List.filter length]; rewrite ?Hp;
    cbn [length]; lia.
Qed.

Lemma digit_count_slice (s : str) (a b : nat) :
  PhoneDetector.digit_count (slice s a b) <= PhoneDetector.digit_count s.
Proof.
  unfold PhoneDetector.digit_count, slice. apply inj_le.
  etransitivity; [apply filter_firstn_length|apply filter_skipn_length].
Qed.

Lemma In_slice (c : ascii) (s : str) (a b : nat) :
  In c (slice s a b) -> In c s.
Proof.
  unfold slice. intros H.
  rewrite <- (firstn_skipn a s). apply in_or_app. right.
  rewrite <- (firstn_skipn (b - a) (skipn a s)). apply in_or_app. now left.
Qed.

Lemma has_char_slice (x : ascii) (s : str) (a b : nat) :
  has_char x (slice s a b) = true -> has_char x s = true.
Proof.
  unfold has_char. rewrite !existsb_exists.
  intros (c & Hin & Hc). exists c. split; [|exact Hc].
  now apply In_slice in Hin.
Qed.

Lemma flat_map_nil {A B} (f : A -> list B) (l : list A) :
  Forall (fun x => f x = []) l -> flat_map f l = [].
Proof.
  induction 1 as [|x l Hx _ IH]; [reflexivity|].
  cbn [flat_map]. now rewrite Hx, IH.
Qed.

Lemma email_shape_has_at (w : str) : email_shape w -> has_char "@" w = true.
Proof.
  intros (local & domain & tld & -> & _). unfold has_char.
  rewrite existsb_app. cbn [lit app existsb]. apply orb_true_iff. right.
  reflexivity.
Qed.

(** A match of a scan, as a slice of the text and a string of the
    pattern. *)
Lemma finditer_slices (r : regex) (s : str) :
  Forall (fun m => (exists a b, m_group m = slice s a b) /\ lang r (m_group m))
    (finditer r s).
Proof.
  apply Forall_and; split.
  - eapply List.Forall_impl; [|apply scan_matches].
    intros m (a & b & -> & _). now exists a, b.
  - apply finditer_in_order.
Qed.

Lemma card_shape_digit_count (w : str) :
  card_shape w -> 15 <= PhoneDetector.digit_count w.
Proof.
  intros H. destruct (card_shape_digits w H) as (Hd & Hlen & _).
  unfold PhoneDetector.digit_count.
  rewrite <- (filter_digits _ Hd) in Hlen. unfold strip_separators in Hlen.
  pose proof (filter_filter_length (fun c => is_digit c)
                (fun c => negb (is_space c || is_char "-" c)) w).
  lia.
Qed.

Lemma email_needs_at (text field_name : str) :
  has_char "@" text = false -> EmailDetector.detect text field_name = [].
Proof.
  intros Hat. unfold EmailDetector.detect.
  pose proof (finditer_slices EmailDetector.EMAIL_PATTERN text) as H.
  destruct (finditer EmailDetector.EMAIL_PATTERN text) as [|m l];
    [reflexivity|].
  inversion H as [|? ? [(a & b & Hslice) Hlang] _]; subst.
  apply lang_email, email_shape_has_at in Hlang.
  rewrite Hslice in Hlang. apply has_char_slice in Hlang. congruence.
Qed.

Lemma phone_needs_digits (text field_name : str) :
  PhoneDetector.digit_count text < 10 ->
  PhoneDetector.detect text field_name = [].
Proof.
  intros Hfew. unfold PhoneDetector.detect.
  assert (Hpool : PhoneDetector.all_matches text = []).
  { unfold PhoneDetector.all_matches.
    apply flat_map_nil. apply List.Forall_forall. intros r _.
    apply flat_map_nil.
    eapply List.Forall_impl; [|apply (finditer_slices r text)].
    intros m [(a & b & Hslice) _].
    pose proof (digit_count_slice text a b) as Hle. rewrite <- Hslice in Hle.
    destruct (Z.ltb_spec (PhoneDetector.digit_count (m_group m)) 10);
      [reflexivity|lia]. }
  now rewrite Hpool.
Qed.

Lemma card_needs_digits (text field_name : str) :
  PhoneDetector.digit_count text < 15 ->
  CreditCardDetector.detect text field_name = [].
Proof.
  intros Hfew. unfold CreditCardDetector.detect.
  pose proof (finditer_slices CreditCardDetector.CARD_PATTERN text) as H.
  destruct (finditer CreditCardDetector.CARD_PATTERN text) as [|m l];
    [reflexivity|].
  inversion H as [|? ? [(a & b & Hslice) Hlang] _]; subst.
  apply lang_card, card_shape_digit_count in Hlang.
  pose proof (digit_count_slice text a b) as Hle. rewrite <- Hslice in Hle.
  lia.
Qed.

(** X20. What a text must hold for a pattern detector to report
    anything: the e-mail detector reports nothing for a text without "@",
    the phone detector nothing for a text with fewer than 10 digits, and
    the card detector nothing for a text with fewer than 15 digits; so a
    walker with these three detectors returns such a string as it is and
    counts nothing. *)
Theorem pattern_detectors_need_their_characters (text field_name : str) :
  (has_char "@" text = false -> EmailDetector.detect text field_name = [])
  /\ (PhoneDetector.digit_count text < 10 ->
      PhoneDetector.detect text field_name = [])
  /\ (PhoneDetector.digit_count text < 15 ->
      CreditCardDetector.detect text field_name = [])
  /\ (has_char "@" text = false -> PhoneDetector.digit_count text < 10 ->
      forall st : Sanitizer.t G,
        Sanitizer._detectors st
        = [EmailDetector.detect; PhoneDetector.detect;
           CreditCardDetector.detect] ->
        Sanitizer._sanitize_string text field_name st = (text, st)).
Proof.
  split; [apply email_needs_at|]. split; [apply phone_needs_digits|].
  split; [apply card_needs_digits|].
  intros Hat Hfew st Hdet. unfold Sanitizer._sanitize_string.
  rewrite Hdet. unfold Sanitizer.all_detections. cbn [flat_map].
  assert (Hfew' : PhoneDetector.digit_count text < 15) by lia.
  rewrite (email_needs_at _ _ Hat), (phone_needs_digits _ _ Hfew),
    (card_needs_digits _ _ Hfew'). reflexivity.
Qed.

End QuietTexts.

(** * Running twice on one Sanitizer *)

Section SecondRun.
Context {G : Type} {F : Faker G}.
Implicit Types (st : Sanitizer.t G) (disk : gmap (list ascii) (list ascii)).

Lemma sanitize_records_keeps (records : list json) st :
  Sanitizer._detectors (snd (Sanitizer.sanitize_records records st))
  = Sanitizer._detectors st
  /\ cache_within st (snd (Sanitizer.sanitize_records records st)).
Proof.
  revert st. induction records as [|record records IH]; intros st.
  - split; [reflexivity|apply cache_within_refl].
  - destruct record;
      try (split; [reflexivity|apply cache_within_refl]).
    cbn [Sanitizer.sanitize_records].
    pose proof (sanitize_value_keeps (JDict items) [] st) as [Hd Hc].
    cbn [Sanitizer.sanitize_value] in Hd, Hc.
    change (fun v key s => Sanitizer.sanitize_value v key s)
      with (@Sanitizer.sanitize_value G F) in Hd, Hc.
    destruct (Sanitizer.walk_items Sanitizer.sanitize_value items [] st)
      as [d st1]. cbn [snd] in Hd, Hc.
    destruct (IH st1) as [Hd' Hc'].
    destruct (Sanitizer.sanitize_records records st1) as [[rs|e] st2];
      cbn [snd] in *; (split; [congruence|]);
      eapply cache_within_trans; eassumption.
Qed.

Lemma sanitize_records_again (records : list json) st (s2 : Sanitizer.t G) :
  Sanitizer._detectors s2 = Sanitizer._detectors st ->
  cache_within (snd (Sanitizer.sanitize_records records st)) s2 ->
  repeats (Sanitizer.sanitize_records records st)
    (Sanitizer.sanitize_records records s2) s2.
Proof.
  revert st s2. induction records as [|record records IH]; intros st s2 Hdet Hc.
  - now repeat split.
  - destruct record; try (now repeat split).
    cbn [Sanitizer.sanitize_records] in *.
    pose proof (sanitize_value_keeps (JDict items) [] st) as [Hd1 Hc1].
    pose proof (sanitize_value_again (JDict items) [] st s2 Hdet) as Hitems.
    cbn [Sanitizer.sanitize_value] in Hd1, Hc1, Hitems.
    change (fun v key s => Sanitizer.sanitize_value v key s)
      with (@Sanitizer.sanitize_value G F) in Hd1, Hc1, Hitems.
    destruct (Sanitizer.walk_items Sanitizer.sanitize_value items [] st)
      as [d st1].
    pose proof (sanitize_records_keeps records st1) as [Hd2 Hc2].
    specialize (IH st1).
    destruct (Sanitizer.sanitize_records records st1) as [o st2].
    unfold repeats in *. cbn [fst snd] in *.
    destruct Hitems as (Hv & Hr & Hd).
    { destruct o; cbn [snd] in Hc; eapply cache_within_trans; eassumption. }
    destruct (Sanitizer.walk_items Sanitizer.sanitize_value items [] s2)
      as [d2 s2'].
    cbn [fst snd] in *. inversion Hv; subst d2.
    destruct (IH s2') as (Hvs & Hrs & Hds).
    { now rewrite Hd, Hdet, Hd1. }
    { apply (cache_within_same_replacer _ s2); [|exact Hr].
      destruct o; exact Hc. }
    destruct (Sanitizer.sanitize_records records s2') as [o2 s2''].
    cbn [fst snd] in *. subst o2.
    destruct o; cbn [fst snd]; repeat split; congruence.
Qed.

(** X21. A second run over the same input on the same Sanitizer repeats
    the first: with an input path other than the output path (so that the
    run does not change what it reads), running [sanitize_file] again with
    the same paths on the Sanitizer the first run left behind returns the
    same result, statistics included, leaves the disk as the first run
    left it, the output file holding the same text, and generates no new
    replacement. *)
Theorem a_second_run_repeats_the_first (w : world)
    (input_path output_path : str) st disk :
  input_path <> output_path ->
  let '(result, st1, disk1) :=
    Sanitizer.sanitize_file w input_path output_path st disk in
  let '(result', st2, disk2) :=
    Sanitizer.sanitize_file w input_path output_path st1 disk1 in
  result' = result /\ disk2 = disk1
  /\ Sanitizer._replacer st2 = Sanitizer._replacer st1.
Proof.
  intros _. unfold Sanitizer.sanitize_file.
  destruct (Sanitizer._read_json_file w input_path) as [records|e];
    [|now repeat split].
  set (st0 := Sanitizer.Mk (Sanitizer._detectors st) (Sanitizer._replacer st) 0 0).
  pose proof (sanitize_records_keeps records st0) as [Hd1 Hc1].
  destruct (Sanitizer.sanitize_records records st0) as [o st1] eqn:E1.
  cbn [snd] in Hd1, Hc1.
  set (st0' := Sanitizer.Mk (Sanitizer._detectors st1)
                 (Sanitizer._replacer st1) 0 0).
  assert (Hagain : repeats (Sanitizer.sanitize_records records st0)
                     (Sanitizer.sanitize_records records st0') st0').
  { apply sanitize_records_again; [exact Hd1|].
    rewrite E1. intros k y H. exact H. }
  rewrite E1 in Hagain. destruct Hagain as (Ho & Hr & _).
  destruct (Sanitizer.sanitize_records records st0') as [o2 s2] eqn:E2.
  cbn [fst snd] in *. subst o2.
  destruct o as [out|e].
  2:{ cbn. fold st0'. rewrite E2. now repeat split. }
  assert (Hstats : forall s s' : Sanitizer.t G,
             Sanitizer._detectors s = Sanitizer._detectors st0 ->
             Sanitizer.sanitize_records records s = (Ok out, s') ->
             Sanitizer._pii_fields_detected s'
             = Sanitizer._pii_fields_detected s
               + fields_with_pii st0 (record_fields records)
             /\ Sanitizer._pii_replacements_made s'
                = Sanitizer._pii_replacements_made s
                  + detections_in st0 (record_fields records)).
  { intros s s' Hs E. apply sanitize_records_state in E as [-> _].
    destruct (visits_state s (record_fields records)) as (_ & Hf & Hm & _).
    cbv zeta in Hf, Hm. rewrite Hf, Hm.
    unfold fields_with_pii, detections_in, has_pii, found. now rewrite Hs. }
  destruct (Hstats st0 st1 eq_refl E1) as [Hf1 Hm1].
  destruct (Hstats st0' s2 Hd1 E2) as [Hf2 Hm2].
  cbn [Sanitizer._pii_fields_detected Sanitizer._pii_replacements_made] in *.
  unfold Sanitizer._write_json_file.
  destruct (mkdir_parents w output_path) as [e|] eqn:Em.
  { cbn. fold st0'. rewrite E2. now repeat split. }
  destruct (open_for_writing w output_path) as [e|] eqn:Eo.
  { cbn. fold st0'. rewrite E2. now repeat split. }
  destruct (json_dump w out) as [text|written e] eqn:Ed.
  - cbn. fold st0'. rewrite E2. cbn. rewrite Ed. cbn. rewrite insert_insert_eq.
    repeat split; [|exact Hr]. rewrite Hf1, Hf2, Hm1, Hm2. reflexivity.
  - cbn. fold st0'. rewrite E2. cbn. rewrite Ed. cbn. rewrite insert_insert_eq.
    now repeat split.
Qed.

End SecondRun.

Lemma a_second_run_repeats_the_first_witness :
  lit "in.json" <> lit "out.json"
  /\ (let '(result, st1, disk1) :=
        Sanitizer.sanitize_file sample_world (lit "in.json") (lit "out.json")
          sample_sanitizer ∅ in
      let '(result', st2, disk2) :=
        Sanitizer.sanitize_file sample_world (lit "in.json") (lit "out.json")
          st1 disk1 in
      result' = result /\ disk2 = disk1
      /\ Sanitizer._replacer st2 = Sanitizer._replacer st1).
Proof.
  split; [discriminate|].
  apply (a_second_run_repeats_the_first sample_world (lit "in.json")
           (lit "out.json") sample_sanitizer ∅).
  discriminate.
Defined.

(** * Name fields of one record *)

Section RecordNames.
Context {G : Type} {F : Faker G}.
Implicit Types (st : Sanitizer.t G).

Lemma slice_whole (text : str) : slice text 0 (length text) = text.
Proof. unfold slice. rewrite Nat.sub_0_r. apply firstn_all. Qed.

Lemma whole_name_detections (analyzer : Analyzer) (text key : str)
    (score : float) :
  whole_name analyzer text ->
  analyzer text = [MkRecognized 0 (Z.of_nat (length text)) score] ->
  Sanitizer.all_detections
    [EmailDetector.detect; PhoneDetector.detect;
     NameDetector.detect analyzer; CreditCardDetector.detect] text key
  = [MkDetection (NameDetector._determine_name_type text key) text score
       0 (Z.of_nat (length text))].
Proof.
  intros (Hblank & Hat & Hfew & _) Hscore.
  unfold Sanitizer.all_detections. cbn [flat_map].
  assert (Hfew' : PhoneDetector.digit_count text < 15) by lia.
  rewrite (email_needs_at _ _ Hat), (phone_needs_digits _ _ Hfew),
    (card_needs_digits _ _ Hfew'). cbn [app]. rewrite app_nil_r.
  unfold NameDetector.detect.
  destruct (str_strip text) eqn:Hstrip.
  { apply str_strip_blank in Hstrip. congruence. }
  rewrite Hscore. cbn [map r_start r_end r_score].
  rewrite py_slice_in_bounds by lia.
  rewrite Nat2Z.id. change (Z.to_nat 0) with 0%nat. now rewrite slice_whole.
Qed.

Lemma whole_name_sanitized (analyzer : Analyzer) (text key : str) st :
  Sanitizer._detectors st
  = [EmailDetector.detect; PhoneDetector.detect;
     NameDetector.detect analyzer; CreditCardDetector.detect] ->
  whole_name analyzer text ->
  Sanitizer._sanitize_string text key st
  = (answer st key text,
     Sanitizer.Mk (Sanitizer._detectors st)
       (snd (Replacer.get_or_create_replacement text
               (NameDetector._determine_name_type text key)
               (Sanitizer._replacer st)))
       (Sanitizer._pii_fields_detected st + 1)
       (Sanitizer._pii_replacements_made st + 1)).
Proof.
  intros Hdet Hname. pose proof Hname as (Hblank & _ & _ & score & Hscore).
  unfold Sanitizer._sanitize_string. rewrite Hdet.
  rewrite (whole_name_detections analyzer text key score Hname Hscore).
  cbn [stable_sort fold_right sort_insert fold_left].
  rewrite apply_detection_eq. unfold Replacer.replace, answer.
  cbn [start_pos end_pos original_value pii_type Sanitizer._detectors
       Sanitizer._replacer Sanitizer._pii_fields_detected
       Sanitizer._pii_replacements_made].
  assert (Hlen : (0 < length text)%nat) by (destruct text; [discriminate|cbn; lia]).
  replace ((0 >=? 0) && (Z.of_nat (length text) >? 0)) with true
    by (symmetry; apply andb_true_iff; split; [reflexivity|apply Z.gtb_lt; lia]).
  unfold slice_to, slice_from. rewrite Nat2Z.id. change (Z.to_nat 0) with 0%nat.
  rewrite skipn_all. cbn [firstn app]. now rewrite app_nil_r.
Qed.

Lemma walk_whole_names (analyzer : Analyzer) (fields : list (str * str)) :
  forall (acc : list (str * json)) st,
    Sanitizer._detectors st
    = [EmailDetector.detect; PhoneDetector.detect;
       NameDetector.detect analyzer; CreditCardDetector.detect] ->
    Forall (fun kt => whole_name analyzer (snd kt)) fields ->
    List.NoDup (map fst acc ++ map fst fields) ->
    names_consistent (Sanitizer._replacer st) ->
    let run := Sanitizer.walk_items Sanitizer.sanitize_value
                 (string_items fields) acc st in
    cache_within st (snd run)
    /\ names_consistent (Sanitizer._replacer (snd run))
    /\ fst run
       = acc ++ map (fun kt => (fst kt, JStr (answer (snd run) (fst kt) (snd kt))))
                  fields
    /\ Forall (fun kt =>
                 is_Some (Replacer._cache (Sanitizer._replacer (snd run))
                            !! (snd kt,
                                NameDetector._determine_name_type (snd kt)
                                  (fst kt)))) fields.
Proof.
  induction fields as [|[key text] fields IH]; intros acc st Hdet Hnames Hnd Hc.
  - cbn. rewrite app_nil_r. repeat split; [apply cache_within_refl|exact Hc|].
    constructor.
  - inversion Hnames as [|? ? Hname Hrest]; subst. cbn [snd] in Hname.
    cbn [string_items map fst snd Sanitizer.walk_items Sanitizer.sanitize_value].
    rewrite (whole_name_sanitized analyzer text key st Hdet Hname).
    set (t := NameDetector._determine_name_type text key).
    set (x := answer st key text).
    set (st1 := Sanitizer.Mk _ _ _ _).
    assert (Hfresh : ~ In key (map fst acc)).
    { cbn [map fst] in Hnd. apply NoDup_remove_2 in Hnd.
      intros Hin. apply Hnd, in_or_app. now left. }
    rewrite (dict_set_fresh _ _ _ Hfresh).
    assert (Hstored : Replacer._cache (Sanitizer._replacer st1) !! (text, t)
                      = Some x) by apply get_or_create_stores.
    assert (Hkeep : cache_within st st1).
    { intros k y H. now apply get_or_create_keeps. }
    specialize (IH (acc ++ [(key, JStr x)]) st1).
    fold (string_items fields).
    destruct IH as (Hc1 & Hcons & Hout & Hsome).
    { exact Hdet. }
    { exact Hrest. }
    { rewrite map_app, <- app_assoc. exact Hnd. }
    { now apply get_or_create_consistent. }
    set (run := Sanitizer.walk_items Sanitizer.sanitize_value
                  (string_items fields) (acc ++ [(key, JStr x)]) st1) in *.
    assert (Hfinal : Replacer._cache (Sanitizer._replacer (snd run)) !! (text, t)
                     = Some x) by now apply Hc1.
    split; [eapply cache_within_trans; eassumption|].
    split; [exact Hcons|]. split.
    + rewrite Hout, <- app_assoc. cbn [app map fst snd]. do 3 f_equal.
      unfold answer. fold t. now rewrite (get_or_create_hit _ _ _ _ Hfinal).
    + constructor; [cbn [fst snd]; fold t; now rewrite Hfinal|exact Hsome].
Qed.

(** X22. Name fields of one record are linked by the whole pipeline. Take
    a Sanitizer with the four detectors and a fresh Replacer, and a record
    that holds, in any order, a first name under "first_name", a last name
    under "last_name" and "first last" under "name", where the two names
    are single tokens of one case pattern and each of the three strings is
    recognized as a whole as a person's name and holds nothing for the
    pattern detectors. Then the sanitized record holds, under the same
    keys in the same order, a replacement for the first name, one for the
    last name and, under "name", the two joined by one space. *)
Theorem name_fields_of_a_record_are_linked (analyzer : Analyzer) (g : G)
    (first last : str) (fields : list (str * str)) :
  single_token first = true -> single_token last = true ->
  case_of first = case_of last ->
  whole_name analyzer first -> whole_name analyzer last ->
  whole_name analyzer (first ++ lit " " ++ last) ->
  Permutation fields
    [(lit "first_name", first); (lit "last_name", last);
     (lit "name", first ++ lit " " ++ last)] ->
  exists fake_first fake_last : str,
    fst (Sanitizer.sanitize_value (JDict (string_items fields)) []
           (initialize_sanitizer analyzer g))
    = JDict (string_items (map (linked_names fake_first fake_last) fields)).
Proof.
  intros Hfirst Hlast Hcase Wfirst Wlast Wfull Hperm.
  set (st := initialize_sanitizer analyzer g).
  set (full := first ++ lit " " ++ last) in *.
  assert (Hin : forall kt, In kt fields ->
                  kt = (lit "first_name", first) \/ kt = (lit "last_name", last)
                  \/ kt = (lit "name", full)).
  { intros kt H. apply (Permutation_in _ Hperm) in H. cbn [In] in H.
    intuition congruence. }
  destruct (walk_whole_names analyzer fields [] st) as (_ & Hcons & Hout & Hsome).
  { reflexivity. }
  { apply List.Forall_forall. intros kt H.
    destruct (Hin kt H) as [-> | [-> | ->]]; assumption. }
  { cbn [map app]. apply (Permutation_NoDup (Permutation_sym (Permutation_map fst Hperm))).
    cbn [map fst]. repeat constructor; cbn [In]; intuition discriminate. }
  { apply init_consistent. }
  cbn [Sanitizer.sanitize_value].
  change (fun v key s => Sanitizer.sanitize_value v key s)
    with (@Sanitizer.sanitize_value G F).
  set (run := Sanitizer.walk_items Sanitizer.sanitize_value
                (string_items fields) [] st) in *.
  destruct run as [out st'] eqn:Erun. cbn [fst snd app] in *. subst out.
  rewrite List.Forall_forall in Hsome.
  assert (Hcached : forall key text,
             In (key, text) [(lit "first_name", first); (lit "last_name", last);
                             (lit "name", full)] ->
             Replacer._cache (Sanitizer._replacer st')
               !! (text, NameDetector._determine_name_type text key)
             = Some (answer st' key text)).
  { intros key text H. apply (Permutation_in _ (Permutation_sym Hperm)) in H.
    destruct (Hsome _ H) as [x Hx]. cbn [fst snd] in Hx.
    unfold answer. now rewrite (get_or_create_hit _ _ _ _ Hx). }
  pose proof (Hcached (lit "first_name") first ltac:(cbn; tauto)) as Cfirst.
  pose proof (Hcached (lit "last_name") last ltac:(cbn; tauto)) as Clast.
  pose proof (Hcached (lit "name") full ltac:(cbn; tauto)) as Cfull.
  change (NameDetector._determine_name_type first (lit "first_name"))
    with FIRST_NAME in Cfirst.
  change (NameDetector._determine_name_type last (lit "last_name"))
    with LAST_NAME in Clast.
  change (NameDetector._determine_name_type full (lit "name"))
    with FULL_NAME in Cfull.
  pose proof (cached_names_linked _ first last _ _ _ Hcons Hfirst Hlast Hcase
                Cfirst Clast Cfull) as Hlinked.
  exists (answer st' (lit "first_name") first), (answer st' (lit "last_name") last).
  f_equal. unfold string_items. rewrite map_map. apply map_ext_in.
  intros kt H. destruct (Hin kt H) as [-> | [-> | ->]];
    unfold linked_names; cbn [fst snd]; f_equal; f_equal.
  exact Hlinked.
Qed.

End RecordNames.

Lemma name_fields_of_a_record_are_linked_witness :
  let fields := [(lit "name", lit "John Doe"); (lit "last_name", lit "Doe");
                 (lit "first_name", lit "John")] in
  fst (Sanitizer.sanitize_value (JDict (string_items fields)) []
         (initialize_sanitizer whole_text_analyzer 0%nat))
  = JDict [(lit "name", JStr (lit "Michael Rivera"));
           (lit "last_name", JStr (lit "Rivera"));
           (lit "first_name", JStr (lit "Michael"))]
  /\ exists fake_first fake_last : str,
       fst (Sanitizer.sanitize_value (JDict (string_items fields)) []
              (initialize_sanitizer whole_text_analyzer 0%nat))
       = JDict (string_items (map (linked_names fake_first fake_last) fields)).
Proof.
  intros fields. split; [vm_compute; reflexivity|].
  assert (Hname : forall text : str,
             forallb is_space text = false -> has_char "@" text = false ->
             PhoneDetector.digit_count text < 10 ->
             whole_name whole_text_analyzer text).
  { intros text H1 H2 H3. repeat split; try assumption. now eexists. }
  apply (name_fields_of_a_record_are_linked whole_text_analyzer 0%nat
           (lit "John") (lit "Doe") fields); try reflexivity.
  - apply Hname; reflexivity.
  - apply Hname; reflexivity.
  - apply Hname; reflexivity.
  - subst fields.
    eapply Permutation_trans; [apply perm_swap|].
    eapply Permutation_trans; [apply perm_skip, perm_swap|].
    apply perm_swap.
Defined.

(** * The properties at sample inputs *)

Lemma name_type_classification_witness :
  NameDetector._determine_name_type (lit "Cher") (lit "Full_Name") = FULL_NAME
  /\ NameDetector._determine_name_type (lit "Ann Lee") (lit "given-name")
     = FIRST_NAME
  /\ NameDetector._determine_name_type (lit "Doe") (lit "SURNAME") = LAST_NAME
  /\ NameDetector._determine_name_type (lit "John Doe") (lit "customer")
     = FULL_NAME.
Proof.
  split; [|split; [|split]].
  - destruct (name_type_classification (lit "Cher") (lit "Full_Name"))
      as (_ & H & _). exact (proj1 (H eq_refl)).
  - destruct (name_type_classification (lit "Ann Lee") (lit "given-name"))
      as (_ & _ & H & _). exact (proj1 (H eq_refl)).
  - destruct (name_type_classification (lit "Doe") (lit "SURNAME"))
      as (_ & _ & _ & H & _). exact (proj1 H eq_refl).
  - destruct (name_type_classification (lit "John Doe") (lit "customer"))
      as (_ & _ & _ & _ & H). exact (H eq_refl eq_refl eq_refl).
Defined.

Lemma only_the_output_file_is_written_witness :
  let run := Sanitizer.sanitize_file sample_world (lit "in.json")
               (lit "out.json") sample_sanitizer ∅ in
  success run.1.1 = true
  /\ run.2 !! lit "in.json" = None
  /\ exists text : str, run.2 = <[lit "out.json" := text]> ∅.
Proof.
  intros run.
  destruct (only_the_output_file_is_written sample_world (lit "in.json")
              (lit "out.json") sample_sanitizer ∅) as [Hother Hsuccess].
  fold run in Hother, Hsuccess.
  assert (Hs : success run.1.1 = true) by (vm_compute; reflexivity).
  split; [exact Hs|]. split.
  - rewrite Hother by discriminate. reflexivity.
  - destruct (Hsuccess Hs) as (records & sanitized & text & _ & _ & _ & _ & H).
    now exists text.
Defined.


Lemma pattern_detectors_need_their_characters_witness :
  EmailDetector.detect (lit "room 101, floor 3") (lit "note") = []
  /\ PhoneDetector.detect (lit "room 101, floor 3") (lit "note") = []
  /\ CreditCardDetector.detect (lit "room 101, floor 3") (lit "note") = []
  /\ Sanitizer._sanitize_string (lit "room 101, floor 3") (lit "note")
       sample_sanitizer
     = (lit "room 101, floor 3", sample_sanitizer).
Proof.
  destruct (pattern_detectors_need_their_characters (G := nat)
              (lit "room 101, floor 3") (lit "note")) as (He & Hp & Hc & Hs).
  split; [apply He; reflexivity|].
  split; [apply Hp; reflexivity|].
  split; [apply Hc; reflexivity|].
  apply Hs; reflexivity.
Defined.
